(** * cc-init: the template deployment engine

    A shallow embedding of the Go sources [engine.go], [fs.go],
    [template.go] and [cli.go] of cc-init, with the parts of the Go
    standard library they call ([strings], [path], [path/filepath],
    [io/fs.WalkDir], [embed.FS], [os]) modelled next to them.

    Conventions.
    - A Go function returning [error] returns [option error] here
      ([None] is Go's [nil]); one returning [(T, error)] returns
      [error + T].
    - The host filesystem is an explicit value of type [OS] that every
      operation of package [os] takes and returns.
    - The logger is write-only and never consulted for a decision; its
      calls are left out of the engine and of the ports.  The logger
      itself ([logger.go]) is modelled on its own, with what it writes
      as a sequence of writes. *)

From stdpp Require Import gmap strings list fin_maps pretty.
From Stdlib Require Import Ascii.
From Stdlib Require String.

Set Warnings "-register-all".

(** ** Package [strings] *)

Module strings.

(** What follows [prefix] in [s], when [s] starts with [prefix]. *)
Fixpoint cut_prefix (prefix s : string) : option string :=
  match prefix, s with
  | EmptyString, _ => Some s
  | String a p, String b t => if Ascii.eqb a b then cut_prefix p t else None
  | String _ _, EmptyString => None
  end.

Definition HasPrefix (s prefix : string) : bool :=
  match cut_prefix prefix s with Some _ => true | None => false end.

(** [TrimPrefix] returns [s] without the leading [prefix], and [s]
    itself when it does not start with [prefix]. *)
Definition TrimPrefix (s prefix : string) : string :=
  match cut_prefix prefix s with Some t => t | None => s end.

Definition HasSuffix (s suffix : string) : bool :=
  HasPrefix (String.rev s) (String.rev suffix).

(** [Split s "/"]: the substrings between the slashes of [s]; never
    the empty list. *)
Fixpoint SplitSlash (s : string) : list string :=
  match s with
  | EmptyString => [EmptyString]
  | String c t =>
      if Ascii.eqb c "/"%char then EmptyString :: SplitSlash t
      else match SplitSlash t with
           | h :: r => String c h :: r
           | [] => [String c EmptyString]
           end
  end.

(** [Join elems "/"]. *)
Definition JoinSlash (elems : list string) : string := String.concat "/" elems.

End strings.

(** ** Packages [path] and [path/filepath] (Unix)

    On Unix the two packages agree: the separator is the slash and
    there is no volume name.  [Clean] is given on the list of the
    path's elements, which is what the byte loop of the library
    computes: empty elements and [.] are dropped, an inner [..] removes
    the element before it, a [..] at the start of a rooted path is
    dropped and one at the start of a relative path is kept. *)

Module path.

Definition IsAbs (p : string) : bool := strings.HasPrefix p "/".

Definition clean_step (rooted : bool) (stack : list string) (elem : string)
  : list string :=
  if decide (elem = "" ∨ elem = ".") then stack
  else if decide (elem = "..") then
    match stack with
    | top :: rest => if decide (top = "..") then elem :: stack else rest
    | [] => if rooted then [] else [elem]
    end
  else elem :: stack.

(** The elements of the cleaned path, last element first. *)
Definition clean_stack (rooted : bool) (elems : list string) : list string :=
  fold_left (clean_step rooted) elems [].

Definition clean_elems (rooted : bool) (elems : list string) : list string :=
  rev (clean_stack rooted elems).

Definition Clean (p : string) : string :=
  let rooted := IsAbs p in
  let elems := clean_elems rooted (strings.SplitSlash p) in
  if rooted then "/" +:+ strings.JoinSlash elems
  else match elems with
       | [] => "."
       | _ => strings.JoinSlash elems
       end.

(** [Join] ignores leading empty elements, joins the rest with
    slashes and cleans the result; it is the empty string when every
    element is empty. *)
Fixpoint Join (elem : list string) : string :=
  match elem with
  | [] => ""
  | e :: rest =>
      if decide (e = "") then Join rest
      else Clean (strings.JoinSlash elem)
  end.

(** [Dir p] cleans what precedes the last element of [p]. *)
Definition Dir (p : string) : string :=
  match strings.SplitSlash p with
  | [] | [_] => Clean ""
  | elems => Clean (strings.JoinSlash (removelast elems) +:+ "/")
  end.

End path.

Module filepath.
Definition IsAbs := path.IsAbs.
Definition Clean := path.Clean.
Definition Join := path.Join.
Definition Dir := path.Dir.
(** The separator is the slash already. *)
Definition FromSlash (p : string) : string := p.
(** [Abs] of package [filepath], given the working directory. *)
Definition Abs (wd p : string) : string :=
  if IsAbs p then Clean p else Join [wd; p].
End filepath.

(** ** Errors *)

Inductive errno := ENOENT | ENOTDIR | EISDIR | EEXIST | ENOTEMPTY | EINVAL.

(** The error values of the program: the [*fs.PathError] of the
    library, the values built with [fmt.Errorf] (without argument, with
    one [%s], with one [%d], and wrapping another error with [%w]), and
    the two sentinels of [io/fs.WalkDir]. *)
Inductive error :=
| PathError (op path : string) (e : errno)
| Errorf0 (format : string)
| Errorf1 (format arg : string)
| ErrorfD (format : string) (n : nat)
| ErrorfW (format : string) (args : list string) (err : error)
| SkipDir
| SkipAll.

Definition is_SkipDir (e : error) : bool :=
  match e with SkipDir => true | _ => false end.
Definition is_SkipAll (e : error) : bool :=
  match e with SkipAll => true | _ => false end.

Abbreviation bytes := (list Byte.byte).
Abbreviation FileMode := N.

(** The octal modes [0755], [0644] and [0666] of the sources. *)
Definition mode_0755 : FileMode := 493.
Definition mode_0644 : FileMode := 420.
Definition mode_0666 : FileMode := 438.

(** ** The embedded asset tree ([embed.FS])

    An embedded tree is immutable; a directory lists its entries in
    file name order.  [root_entries] are the entries of the root
    directory ["."]. *)

Inductive Asset :=
| AFile (name : string) (data : bytes)
| ADir (name : string) (entries : list Asset).

Record DirEntry := { Name : string; IsDir : bool }.

Definition asset_name (a : Asset) : string :=
  match a with AFile n _ | ADir n _ => n end.
Definition asset_is_dir (a : Asset) : bool :=
  match a with AFile _ _ => false | ADir _ _ => true end.
Definition dir_entry (a : Asset) : DirEntry :=
  {| Name := asset_name a; IsDir := asset_is_dir a |}.

(** What [fs.FileInfo] tells of an embedded file: its base name, its
    size (zero for a directory) and its kind. *)
Record FileInfo := { fi_Name : string; fi_Size : nat; fi_IsDir : bool }.

Definition file_info (a : Asset) : FileInfo :=
  {| fi_Name := asset_name a;
     fi_Size := match a with AFile _ data => length data | ADir _ _ => 0 end;
     fi_IsDir := asset_is_dir a |}.

Module embed.

Record FS := { root_entries : list Asset }.

(** [io/fs.ValidPath]: ["."], or slash-separated elements none of
    which is empty, [.] or [..]. *)
Definition valid_elem (e : string) : bool :=
  bool_decide (e ≠ "" ∧ e ≠ "." ∧ e ≠ "..").
Definition ValidPath (name : string) : bool :=
  bool_decide (name = ".") || forallb valid_elem (strings.SplitSlash name).

Definition find_entry (name : string) (entries : list Asset) : option Asset :=
  find (λ a, bool_decide (asset_name a = name)) entries.

Fixpoint descend (a : Asset) (elems : list string) : option Asset :=
  match elems with
  | [] => Some a
  | e :: rest =>
      match a with
      | ADir _ entries =>
          match find_entry e entries with
          | Some c => descend c rest
          | None => None
          end
      | AFile _ _ => None
      end
  end.

(** [Open]: the lookup of an invalid path finds nothing, like that of
    a path that is not in the tree. *)
Definition Open (f : FS) (name : string) : error + Asset :=
  if negb (ValidPath name) then inl (PathError "open" name ENOENT)
  else
    let elems := if bool_decide (name = ".") then [] else strings.SplitSlash name in
    match descend (ADir "." (root_entries f)) elems with
    | Some a => inr a
    | None => inl (PathError "open" name ENOENT)
    end.

Definition ReadDir (f : FS) (name : string) : error + list DirEntry :=
  match Open f name with
  | inl err => inl err
  | inr (ADir _ entries) => inr (map dir_entry entries)
  | inr (AFile _ _) => inl (PathError "read" name ENOTDIR)
  end.

Definition ReadFile (f : FS) (name : string) : error + bytes :=
  match Open f name with
  | inl err => inl err
  | inr (AFile _ data) => inr data
  | inr (ADir _ _) => inl (PathError "read" name EISDIR)
  end.

End embed.

(** ** [io/fs.WalkDir]

    The callback is called with the path from the root of the walk, on
    a directory before its entries and on the entries in order.  An
    error it returns stops the walk and is the walk's result, except
    [SkipDir] (skip the rest of the directory) and [SkipAll].  The
    callbacks of this program change the statistics of the engine and
    the host filesystem: the walk threads a state of type [St] through
    them.  Reading a directory of an embedded tree does not fail: the
    entries read at a path are those of the node the walk is at. *)

Section WalkDir.
Context {St : Type}.

Definition WalkDirFunc : Type :=
  string → option DirEntry → option error → St → option error * St.

Variable fn : WalkDirFunc.

Fixpoint walkDir (name : string) (d : Asset) (s : St) : option error * St :=
  match fn name (Some (dir_entry d)) None s with
  | (Some err, s1) =>
      if is_SkipDir err && asset_is_dir d then (None, s1) else (Some err, s1)
  | (None, s1) =>
      match d with
      | AFile _ _ => (None, s1)
      | ADir _ entries =>
          (fix walkEntries (ds : list Asset) (s : St) : option error * St :=
             match ds with
             | [] => (None, s)
             | d1 :: rest =>
                 match walkDir (path.Join [name; asset_name d1]) d1 s with
                 | (Some err, s2) =>
                     if is_SkipDir err then (None, s2) else (Some err, s2)
                 | (None, s2) => walkEntries rest s2
                 end
             end) entries s1
      end
  end.

Definition WalkDir (fsys : embed.FS) (root : string) (s : St) : option error * St :=
  let (err, s1) :=
    match embed.Open fsys root with
    | inl err => fn root None (Some err) s
    | inr d => walkDir root d s
    end in
  match err with
  | Some e => if is_SkipDir e || is_SkipAll e then (None, s1) else (Some e, s1)
  | None => (None, s1)
  end.

End WalkDir.

(** ** [template.go]: the template manager *)

Record TemplateManager := { tm_fs : embed.FS; tm_prefix : string }.

Definition NewTemplateManager (embedFS : embed.FS) (prefix : string) : TemplateManager :=
  {| tm_fs := embedFS; tm_prefix := prefix |}.

Module TemplateManager.

(** The function literal that [Walk] passes to [fs.WalkDir]: it
    skips the root of the walk and hands the callback the path
    without the prefix. *)
Definition walkFn {St} (tm : TemplateManager) (fn : @WalkDirFunc St)
  : @WalkDirFunc St :=
  λ path d err s,
    match err with
    | Some _ => fn path d err s
    | None =>
        if bool_decide (path = tm_prefix tm) then (None, s)
        else
          let relPath := strings.TrimPrefix path (tm_prefix tm +:+ "/") in
          let relPath := if bool_decide (relPath = path) then path else relPath in
          fn relPath d None s
    end.

Definition Walk {St} (tm : TemplateManager) (fn : @WalkDirFunc St)
  : St → option error * St :=
  WalkDir (walkFn tm fn) (tm_fs tm) (tm_prefix tm).

Definition ReadFile (tm : TemplateManager) (relPath : string) : error + bytes :=
  let fullPath := path.Join [tm_prefix tm; relPath] in
  match embed.ReadFile (tm_fs tm) fullPath with
  | inl err => inl (ErrorfW "failed to read embedded file %s: %w" [fullPath] err)
  | inr data => inr data
  end.

(** [GetFileInfo].  The [Stat] of an open embedded file does not
    fail. *)
Definition GetFileInfo (tm : TemplateManager) (relPath : string) : error + FileInfo :=
  let fullPath := path.Join [tm_prefix tm; relPath] in
  match embed.Open (tm_fs tm) fullPath with
  | inl err => inl (ErrorfW "failed to open embedded file %s: %w" [fullPath] err)
  | inr file => inr (file_info file)
  end.

Definition HasTemplates (tm : TemplateManager) : bool :=
  match embed.ReadDir (tm_fs tm) (tm_prefix tm) with
  | inl _ => false
  | inr entries => bool_decide (0 < length entries)
  end.

Definition ListTemplates (tm : TemplateManager) : error + list string :=
  match Walk tm (λ path entry err (templates : list string),
                match err with
                | Some e => (Some e, templates)
                | None =>
                    match entry with
                    | Some d => if negb (IsDir d) then (None, templates ++ [path])
                                else (None, templates)
                    | None => (None, templates)
                    end
                end) [] with
  | (Some err, _) => inl (ErrorfW "failed to list templates: %w" [] err)
  | (None, templates) => inr templates
  end.

Definition GetDefaultFileMode (tm : TemplateManager) (relPath : string) : FileMode :=
  if strings.HasSuffix relPath ".sh" || strings.HasSuffix relPath ".bash"
  then mode_0755 else mode_0644.

Definition GetDefaultDirMode (tm : TemplateManager) : FileMode := mode_0755.

End TemplateManager.

(** ** Package [os]: the host filesystem

    The state of the host is the working directory of the process and
    a finite map from absolute paths, as lists of elements below the
    root, to nodes.  The root directory always exists.  A path is
    resolved as [filepath.Abs] does and element by element; there are
    no symbolic links.  Access rights are not modelled: the failures of
    the model are the structural ones ([ENOENT], [ENOTDIR], [EISDIR],
    [EEXIST], [ENOTEMPTY], [EINVAL]); the mode of a node is recorded as
    given. *)

Module os.

Inductive Node :=
| File (mode : FileMode) (data : bytes)
| Dir (mode : FileMode).

(** [fs.FileInfo.IsDir]. *)
Definition IsDir (n : Node) : bool :=
  match n with Dir _ => true | File _ _ => false end.

Record OS := { wd : string; nodes : gmap (list string) Node }.

Definition set_nodes (o : OS) (m : gmap (list string) Node) : OS :=
  {| wd := wd o; nodes := m |}.

Definition resolve (o : OS) (name : string) : list string :=
  path.clean_elems true
    (strings.SplitSlash (if path.IsAbs name then name else wd o +:+ "/" +:+ name)).

Definition key_path (k : list string) : string := "/" +:+ strings.JoinSlash k.

Definition node_at (o : OS) (k : list string) : option Node :=
  match k with
  | [] => Some (Dir mode_0755)
  | _ => nodes o !! k
  end.

Definition Stat (o : OS) (name : string) : error + Node :=
  match node_at o (resolve o name) with
  | Some n => inr n
  | None => inl (PathError "stat" name ENOENT)
  end.

(** [mkdir(2)] at a resolved path. *)
Definition mkdir_at (k : list string) (perm : FileMode) (o : OS)
  : option error * OS :=
  match node_at o k with
  | Some _ => (Some (PathError "mkdir" (key_path k) EEXIST), o)
  | None =>
      match node_at o (removelast k) with
      | Some (Dir _) => (None, set_nodes o (<[k := Dir perm]> (nodes o)))
      | Some (File _ _) => (Some (PathError "mkdir" (key_path k) ENOTDIR), o)
      | None => (Some (PathError "mkdir" (key_path k) ENOENT), o)
      end
  end.

Definition Mkdir (o : OS) (name : string) (perm : FileMode) : option error * OS :=
  mkdir_at (resolve o name) perm o.

(** [MkdirAll]: nothing to do on a directory, [ENOTDIR] on another
    node; otherwise make the parent, recursively, then the directory
    itself.  The recursion is on the elements of the path, last
    element first. *)
Fixpoint mkdir_all (rk : list string) (perm : FileMode) (o : OS)
  : option error * OS :=
  match node_at o (rev rk) with
  | Some (Dir _) => (None, o)
  | Some (File _ _) => (Some (PathError "mkdir" (key_path (rev rk)) ENOTDIR), o)
  | None =>
      match rk with
      | [] => (None, o)
      | _ :: rparent =>
          match mkdir_all rparent perm o with
          | (Some err, o1) => (Some err, o1)
          | (None, o1) =>
              match mkdir_at (rev rk) perm o1 with
              | (Some err, o2) =>
                  match node_at o2 (rev rk) with
                  | Some (Dir _) => (None, o2)
                  | _ => (Some err, o2)
                  end
              | (None, o2) => (None, o2)
              end
          end
      end
  end.

Definition MkdirAll (o : OS) (name : string) (perm : FileMode) : option error * OS :=
  mkdir_all (rev (resolve o name)) perm o.

(** [open(2)] with [O_CREATE|O_TRUNC], then the write of [data]: an
    existing file is truncated and keeps its mode, a new one is
    created in an existing directory. *)
Definition write_at (op : string) (k : list string) (data : bytes)
  (perm : FileMode) (o : OS) : option error * OS :=
  match node_at o k with
  | Some (Dir _) => (Some (PathError op (key_path k) EISDIR), o)
  | Some (File mode _) => (None, set_nodes o (<[k := File mode data]> (nodes o)))
  | None =>
      match node_at o (removelast k) with
      | Some (Dir _) => (None, set_nodes o (<[k := File perm data]> (nodes o)))
      | Some (File _ _) => (Some (PathError op (key_path k) ENOTDIR), o)
      | None => (Some (PathError op (key_path k) ENOENT), o)
      end
  end.

Definition WriteFile (o : OS) (name : string) (data : bytes) (perm : FileMode)
  : option error * OS :=
  write_at "open" (resolve o name) data perm o.

(** [Create] is [OpenFile(name, O_RDWR|O_CREATE|O_TRUNC, 0666)]; the
    file handle it returns is only closed by this program. *)
Definition Create (o : OS) (name : string) : option error * OS :=
  write_at "open" (resolve o name) [] mode_0666 o.

Definition has_child (o : OS) (k : list string) : bool :=
  existsb (λ kn, bool_decide (kn.1 ≠ [] ∧ removelast kn.1 = k))
          (map_to_list (nodes o)).

(** [Remove] unlinks a file and removes an empty directory. *)
Definition Remove (o : OS) (name : string) : option error * OS :=
  let k := resolve o name in
  match k, node_at o k with
  | [], _ => (Some (PathError "remove" name EINVAL), o)
  | _, None => (Some (PathError "remove" name ENOENT), o)
  | _, Some (File _ _) => (None, set_nodes o (delete k (nodes o)))
  | _, Some (Dir _) =>
      if has_child o k then (Some (PathError "remove" name ENOTEMPTY), o)
      else (None, set_nodes o (delete k (nodes o)))
  end.

End os.

Abbreviation OS := os.OS.

(** ** [fs.go]: the filesystem port and its two implementations

    [FileSystem] is the interface; [OSFileSystem] acts on the host and
    [DryRunFileSystem] wraps another port, asks it the questions and
    performs no creation itself.  The method [Walk] of the interface is
    not called by the engine and is left out. *)

Inductive FileSystem :=
| OSFileSystem
| DryRunFileSystem (wrapped : FileSystem).

Definition NewOSFileSystem : FileSystem := OSFileSystem.
Definition NewDryRunFileSystem (wrapped : FileSystem) : FileSystem :=
  DryRunFileSystem wrapped.

Module OSFileSystem.

Definition Exists (path : string) (o : OS) : bool :=
  match os.Stat o path with inr _ => true | inl _ => false end.

Definition Stat (path : string) (o : OS) : error + os.Node := os.Stat o path.

Definition CreateDir (path : string) (perm : FileMode) (o : OS) : option error * OS :=
  if Exists path o then
    match os.Stat o path with
    | inl err => (Some (ErrorfW "failed to stat existing path: %w" [] err), o)
    | inr info =>
        if negb (os.IsDir info)
        then (Some (Errorf1 "path exists but is not a directory: %s" path), o)
        else (None, o)
    end
  else os.MkdirAll o path perm.

Definition CreateFile (path : string) (content : bytes) (perm : FileMode) (o : OS)
  : option error * OS :=
  if Exists path o then
    match os.Stat o path with
    | inl err => (Some (ErrorfW "failed to stat existing path: %w" [] err), o)
    | inr info =>
        if os.IsDir info
        then (Some (Errorf1 "path exists but is a directory: %s" path), o)
        else (None, o)
    end
  else
    let dir := filepath.Dir path in
    match CreateDir dir mode_0755 o with
    | (Some err, o1) =>
        (Some (ErrorfW "failed to create parent directory: %w" [] err), o1)
    | (None, o1) => os.WriteFile o1 path content perm
    end.

End OSFileSystem.

Module FileSystem.

Fixpoint Exists (f : FileSystem) (path : string) (o : OS) : bool :=
  match f with
  | OSFileSystem => OSFileSystem.Exists path o
  | DryRunFileSystem wrapped => Exists wrapped path o
  end.

Fixpoint Stat (f : FileSystem) (path : string) (o : OS) : error + os.Node :=
  match f with
  | OSFileSystem => OSFileSystem.Stat path o
  | DryRunFileSystem wrapped => Stat wrapped path o
  end.

Definition CreateDir (f : FileSystem) (path : string) (perm : FileMode) (o : OS)
  : option error * OS :=
  match f with
  | OSFileSystem => OSFileSystem.CreateDir path perm o
  | DryRunFileSystem wrapped =>
      if Exists f path o then
        match Stat wrapped path o with
        | inl err => (Some err, o)
        | inr info =>
            if negb (os.IsDir info)
            then (Some (Errorf1 "path exists but is not a directory: %s" path), o)
            else (None, o)
        end
      else (None, o)
  end.

Definition CreateFile (f : FileSystem) (path : string) (content : bytes)
  (perm : FileMode) (o : OS) : option error * OS :=
  match f with
  | OSFileSystem => OSFileSystem.CreateFile path content perm o
  | DryRunFileSystem wrapped =>
      if Exists f path o then
        match Stat wrapped path o with
        | inl err => (Some err, o)
        | inr info =>
            if os.IsDir info
            then (Some (Errorf1 "path exists but is a directory: %s" path), o)
            else (None, o)
        end
      else (None, o)
  end.

End FileSystem.

(** ** [cli.go]: the configuration *)

Record Config := {
  TargetDir : string;
  DryRun : bool;
  Verbose : bool;
  NoColor : bool;
  ShowHelp : bool;
  ShowVersion : bool;
}.

Definition set_TargetDir (c : Config) (dir : string) : Config :=
  {| TargetDir := dir; DryRun := DryRun c; Verbose := Verbose c;
     NoColor := NoColor c; ShowHelp := ShowHelp c; ShowVersion := ShowVersion c |}.

(** [validateConfig] makes the target directory absolute, checks that
    it is a directory and, unless the run is a dry run, probes that it
    can be written by creating and removing a file in it.  The result
    of [os.Remove] is dropped, as in the source. *)
Definition validateConfig (config : Config) (o : OS) : option error * Config * OS :=
  let absPath := filepath.Abs (os.wd o) (TargetDir config) in
  let config := set_TargetDir config absPath in
  match os.Stat o (TargetDir config) with
  | inl (PathError _ _ ENOENT) =>
      (Some (Errorf1 "target directory does not exist: %s" (TargetDir config)), config, o)
  | inl err =>
      (Some (ErrorfW "failed to access target directory: %w" [] err), config, o)
  | inr info =>
      if negb (os.IsDir info)
      then (Some (Errorf1 "target path is not a directory: %s" (TargetDir config)), config, o)
      else if negb (DryRun config) then
        let testFile := filepath.Join [TargetDir config; ".cc-init-test"] in
        match os.Create o testFile with
        | (Some err, o1) =>
            (Some (ErrorfW "no write permission in target directory: %w" [] err), config, o1)
        | (None, o1) =>
            let (_, o2) := os.Remove o1 testFile in
            (None, config, o2)
        end
      else (None, config, o)
  end.

(** ** [engine.go]: the deployment engine

    The counters are Go [int]s; they count the entries of a tree held
    in memory and stay far below the range of [int], so they are
    natural numbers here. *)

Record Statistics := {
  FilesCreated : nat;
  FilesSkipped : nat;
  DirsCreated : nat;
  DirsSkipped : nat;
  Errors : list error;
}.

Record Engine := {
  templateFS : embed.FS;
  config : Config;
  fs : FileSystem;
  tmpl : TemplateManager;
  stats : Statistics;
}.

Definition NewEngine (templateFS : embed.FS) (config : Config) : Engine :=
  let fileSystem := NewOSFileSystem in
  let fileSystem := if DryRun config then NewDryRunFileSystem fileSystem else fileSystem in
  {| templateFS := templateFS;
     config := config;
     fs := fileSystem;
     tmpl := NewTemplateManager templateFS ".claude";
     stats := {| FilesCreated := 0; FilesSkipped := 0; DirsCreated := 0;
                 DirsSkipped := 0; Errors := [] |} |}.

Module Engine.

(** The assignments to the fields of [e.stats]. *)
Definition set_stats (e : Engine) (s : Statistics) : Engine :=
  {| templateFS := templateFS e; config := config e; fs := fs e;
     tmpl := tmpl e; stats := s |}.

Definition append_error (e : Engine) (err : error) : Engine :=
  let s := stats e in
  set_stats e {| FilesCreated := FilesCreated s; FilesSkipped := FilesSkipped s;
                 DirsCreated := DirsCreated s; DirsSkipped := DirsSkipped s;
                 Errors := Errors s ++ [err] |}.

Definition incr_FilesCreated (e : Engine) : Engine :=
  let s := stats e in
  set_stats e {| FilesCreated := FilesCreated s + 1; FilesSkipped := FilesSkipped s;
                 DirsCreated := DirsCreated s; DirsSkipped := DirsSkipped s;
                 Errors := Errors s |}.

Definition incr_FilesSkipped (e : Engine) : Engine :=
  let s := stats e in
  set_stats e {| FilesCreated := FilesCreated s; FilesSkipped := FilesSkipped s + 1;
                 DirsCreated := DirsCreated s; DirsSkipped := DirsSkipped s;
                 Errors := Errors s |}.

Definition incr_DirsCreated (e : Engine) : Engine :=
  let s := stats e in
  set_stats e {| FilesCreated := FilesCreated s; FilesSkipped := FilesSkipped s;
                 DirsCreated := DirsCreated s + 1; DirsSkipped := DirsSkipped s;
                 Errors := Errors s |}.

Definition incr_DirsSkipped (e : Engine) : Engine :=
  let s := stats e in
  set_stats e {| FilesCreated := FilesCreated s; FilesSkipped := FilesSkipped s;
                 DirsCreated := DirsCreated s; DirsSkipped := DirsSkipped s + 1;
                 Errors := Errors s |}.

(** The methods act on the engine and on the host. *)
Definition State : Type := Engine * OS.

Definition processDirectory (targetPath : string) (st : State) : option error * State :=
  let (e, o) := st in
  if FileSystem.Exists (fs e) targetPath o then
    match FileSystem.Stat (fs e) targetPath o with
    | inl err => (Some (ErrorfW "failed to stat %s: %w" [targetPath] err), (e, o))
    | inr info =>
        if negb (os.IsDir info) then
          let err := Errorf1 "path exists but is not a directory: %s" targetPath in
          (Some err, (append_error e err, o))
        else (None, (incr_DirsSkipped e, o))
    end
  else
    match FileSystem.CreateDir (fs e) targetPath
            (TemplateManager.GetDefaultDirMode (tmpl e)) o with
    | (Some err, o1) => (Some err, (append_error e err, o1))
    | (None, o1) => (None, (incr_DirsCreated e, o1))
    end.

Definition processFile (sourcePath targetPath : string) (st : State)
  : option error * State :=
  let (e, o) := st in
  if FileSystem.Exists (fs e) targetPath o then
    match FileSystem.Stat (fs e) targetPath o with
    | inl err => (Some (ErrorfW "failed to stat %s: %w" [targetPath] err), (e, o))
    | inr info =>
        if os.IsDir info then
          let err := Errorf1 "path exists but is a directory: %s" targetPath in
          (Some err, (append_error e err, o))
        else (None, (incr_FilesSkipped e, o))
    end
  else
    match TemplateManager.ReadFile (tmpl e) sourcePath with
    | inl err => (Some err, (append_error e err, o))
    | inr content =>
        let mode := TemplateManager.GetDefaultFileMode (tmpl e) sourcePath in
        match FileSystem.CreateFile (fs e) targetPath content mode o with
        | (Some err, o1) => (Some err, (append_error e err, o1))
        | (None, o1) => (None, (incr_FilesCreated e, o1))
        end
    end.

(** The function literal that [Run] passes to [Walk].  The walk hands
    it no entry only together with an error. *)
Definition walkFn : @WalkDirFunc State :=
  λ path entry err st,
    match err with
    | Some err => let (e, o) := st in (None, (append_error e err, o))
    | None =>
        let targetPath :=
          filepath.Join [TargetDir (config st.1); ".claude"; filepath.FromSlash path] in
        match entry with
        | Some d =>
            if IsDir d then processDirectory targetPath st
            else processFile path targetPath st
        | None => processFile path targetPath st
        end
    end.

(** [Run].  The listing of the templates under [Verbose] and
    [showSummary] only write to the logger. *)
Definition Run (st : State) : option error * State :=
  if negb (TemplateManager.HasTemplates (tmpl st.1)) then
    (Some (Errorf0 "no template files found in embedded .claude directory"), st)
  else
    match TemplateManager.Walk (tmpl st.1) walkFn st with
    | (Some err, st1) =>
        (Some (ErrorfW "failed to process templates: %w" [] err), st1)
    | (None, st1) =>
        if bool_decide (0 < length (Errors (stats st1.1)))
        then (Some (ErrorfD "completed with %d errors" (length (Errors (stats st1.1)))), st1)
        else (None, st1)
    end.

End Engine.

(** [pluralize]: the plural of a word unless the count is one. *)
Definition pluralize (word : string) (count : Z) : string :=
  if decide (count = 1%Z) then word
  else if decide (word = "directory") then "directories"
  else word +:+ "s".

(** ** [main.go]: the exit status and the final state of the host *)

Definition main (templateFS : embed.FS) (config : Config) (o : OS) : nat * OS :=
  if ShowVersion config then (0, o)
  else if ShowHelp config then (0, o)
  else
    match validateConfig config o with
    | (Some _, _, o1) => (1, o1)
    | (None, config, o1) =>
        match Engine.Run (NewEngine templateFS config, o1) with
        | (Some _, (_, o2)) => (1, o2)
        | (None, (_, o2)) => (0, o2)
        end
    end.

(** ** [logger.go]: the logger

    What the program writes is the sequence of its writes, each to a
    writer.  A method of the logger takes the message, that is the
    result of [fmt.Sprintf] on its format and arguments, and writes
    one line with [fmt.Fprintf].  [%d] prints a Go [int] in decimal,
    which is [pretty] on [Z]. *)

Inductive Writer := Stdout | Stderr | OtherWriter (id : nat).

Definition Output : Type := list (Writer * string).

Definition ESC : string := String (Ascii.ascii_of_nat 27) "".
Definition newline : string := String (Ascii.ascii_of_nat 10) "".

Definition ColorReset : string := ESC +:+ "[0m".
Definition ColorRed : string := ESC +:+ "[31m".
Definition ColorGreen : string := ESC +:+ "[32m".
Definition ColorYellow : string := ESC +:+ "[33m".
Definition ColorBlue : string := ESC +:+ "[34m".
Definition ColorGray : string := ESC +:+ "[90m".

Record Logger := { verbose : bool; noColor : bool; writer : Writer }.

Definition NewLogger (verbose noColor : bool) : Logger :=
  {| verbose := verbose; noColor := noColor; writer := Stdout |}.

Definition NewLoggerWithWriter (verbose noColor : bool) (writer : Writer) : Logger :=
  {| verbose := verbose; noColor := noColor; writer := writer |}.

(** [fmt.Fprintf(w, "%s %s\n", prefix, message)]. *)
Definition Fprintf_line (w : Writer) (prefix message : string) (out : Output) : Output :=
  out ++ [(w, prefix +:+ " " +:+ message +:+ newline)].

Module Logger.

Definition colorize (l : Logger) (color text : string) : string :=
  if noColor l then text else color +:+ text +:+ ColorReset.

Definition Success (l : Logger) (message : string) (out : Output) : Output :=
  let prefix := colorize l ColorGreen "✓" in
  Fprintf_line (writer l) prefix message out.

Definition Info (l : Logger) (message : string) (out : Output) : Output :=
  out ++ [(writer l, "  " +:+ message +:+ newline)].

Definition Warning (l : Logger) (message : string) (out : Output) : Output :=
  let prefix := colorize l ColorYellow "⚠" in
  Fprintf_line (writer l) prefix message out.

Definition Error (l : Logger) (message : string) (out : Output) : Output :=
  let prefix := colorize l ColorRed "✗" in
  Fprintf_line Stderr prefix message out.

Definition Debug (l : Logger) (message : string) (out : Output) : Output :=
  if negb (verbose l) then out
  else
    let prefix := colorize l ColorGray "[DEBUG]" in
    Fprintf_line (writer l) prefix message out.

Definition Verbose (l : Logger) (message : string) (out : Output) : Output :=
  if negb (verbose l) then out
  else
    let prefix := colorize l ColorBlue "→" in
    Fprintf_line (writer l) prefix message out.

Definition FileCreated (l : Logger) (path : string) : Output → Output :=
  Success l ("Created file: " +:+ path).

Definition FileSkipped (l : Logger) (path : string) : Output → Output :=
  Info l ("Skipped existing file: " +:+ path).

Definition DirCreated (l : Logger) (path : string) : Output → Output :=
  Success l ("Created directory: " +:+ path).

Definition DirSkipped (l : Logger) (path : string) : Output → Output :=
  Info l ("Skipped existing directory: " +:+ path).

Definition Summary (l : Logger) (created skipped : Z) (out : Output) : Output :=
  let out := out ++ [(writer l, newline)] in
  let out :=
    if decide (0 < created)%Z
    then Success l ("Created " +:+ pretty created +:+ " " +:+ pluralize "item" created) out
    else out in
  let out :=
    if decide (0 < skipped)%Z
    then Info l ("Skipped " +:+ pretty skipped +:+ " existing "
                 +:+ pluralize "item" skipped) out
    else out in
  if decide (created = 0%Z ∧ (0 < skipped)%Z)
  then Info l "All files and directories already exist" out
  else out.

End Logger.

(** A call of a method of the logger, and a sequence of calls. *)
Inductive LogCall :=
| CallSuccess (message : string)
| CallInfo (message : string)
| CallWarning (message : string)
| CallError (message : string)
| CallDebug (message : string)
| CallVerbose (message : string)
| CallFileCreated (path : string)
| CallFileSkipped (path : string)
| CallDirCreated (path : string)
| CallDirSkipped (path : string)
| CallSummary (created skipped : Z).

Definition log_call (l : Logger) (c : LogCall) : Output → Output :=
  match c with
  | CallSuccess m => Logger.Success l m
  | CallInfo m => Logger.Info l m
  | CallWarning m => Logger.Warning l m
  | CallError m => Logger.Error l m
  | CallDebug m => Logger.Debug l m
  | CallVerbose m => Logger.Verbose l m
  | CallFileCreated p => Logger.FileCreated l p
  | CallFileSkipped p => Logger.FileSkipped l p
  | CallDirCreated p => Logger.DirCreated l p
  | CallDirSkipped p => Logger.DirSkipped l p
  | CallSummary created skipped => Logger.Summary l created skipped
  end.

Definition log_calls (l : Logger) (cs : list LogCall) (out : Output) : Output :=
  fold_left (λ out c, log_call l c out) cs out.

(** The text a call brings with it. *)
Definition call_text (c : LogCall) : string :=
  match c with
  | CallSuccess m | CallInfo m | CallWarning m | CallError m
  | CallDebug m | CallVerbose m => m
  | CallFileCreated p | CallFileSkipped p | CallDirCreated p | CallDirSkipped p => p
  | CallSummary _ _ => ""
  end.

(** The string holds the escape character that starts a colour
    code. *)
Fixpoint has_escape (s : string) : bool :=
  match s with
  | EmptyString => false
  | String c t => Ascii.eqb c (Ascii.ascii_of_nat 27) || has_escape t
  end.

(** ** Vocabulary of the properties

    What an embedded tree guarantees by construction, and the sequence
    of entries a walk visits. *)

(** A name: a string without slash. *)
Definition slash_free (s : string) : Prop := strings.SplitSlash s = [s].

(** The name of an entry of an embedded tree: not empty, not [.] or
    [..], without slash. *)
Definition valid_name (n : string) : bool :=
  embed.valid_elem n && bool_decide (slash_free n).

Abbreviation valid_names := (Forall (λ n, valid_name n = true)).

(** In an embedded tree every entry has such a name and the entries of
    a directory have distinct names. *)
Fixpoint wf_asset (a : Asset) : bool :=
  valid_name (asset_name a) &&
  match a with
  | AFile _ _ => true
  | ADir _ entries =>
      bool_decide (NoDup (map asset_name entries)) && forallb wf_asset entries
  end.

Definition wf_below (a : Asset) : bool :=
  match a with
  | AFile _ _ => true
  | ADir _ entries => forallb wf_asset entries
  end.

Definition wf_fs (f : embed.FS) : bool :=
  wf_asset (ADir "x" (embed.root_entries f)).

(** The entries of the subtree of [a], a directory before its entries,
    each with its path as a list of names; [key] is the path of [a]. *)
Fixpoint subtree_entries (key : list string) (a : Asset)
  : list (list string * DirEntry) :=
  (key, dir_entry a) ::
  match a with
  | AFile _ _ => []
  | ADir _ entries =>
      flat_map (λ c, subtree_entries (key ++ [asset_name c]) c) entries
  end.

(** The entries below a directory, with their paths from it. *)
Definition entries_under (entries : list Asset) : list (list string * DirEntry) :=
  flat_map (λ c, subtree_entries [asset_name c] c) entries.

(** The path of an entry as the walk hands it to its callback. *)
Definition path_of (ke : list string * DirEntry) : string * DirEntry :=
  (strings.JoinSlash ke.1, ke.2).

(** The Asset Entries of a template manager: what lies below its
    prefix. *)
Definition template_entries (tm : TemplateManager) : list (list string * DirEntry) :=
  match embed.Open (tm_fs tm) (tm_prefix tm) with
  | inr (ADir _ entries) => entries_under entries
  | _ => []
  end.

(** The numbers D of directory entries and F of file entries. *)
Definition count_dirs (l : list (list string * DirEntry)) : nat :=
  length (List.filter (λ ke, IsDir ke.2) l).
Definition count_files (l : list (list string * DirEntry)) : nat :=
  length (List.filter (λ ke, negb (IsDir ke.2)) l).

(** The callback applied to a sequence of entries, up to the first
    error. *)
Fixpoint walk_entries {St} (fn : @WalkDirFunc St) (l : list (string * DirEntry))
  (s : St) : option error * St :=
  match l with
  | [] => (None, s)
  | (p, d) :: rest =>
      match fn p (Some d) None s with
      | (Some err, s1) => (Some err, s1)
      | (None, s1) => walk_entries fn rest s1
      end
  end.

(** The paths [walkDir] computes, with [path.Join], for the subtree of
    [d] walked under the path [name]. *)
Fixpoint raw_entries (name : string) (d : Asset) : list (string * DirEntry) :=
  (name, dir_entry d) ::
  match d with
  | AFile _ _ => []
  | ADir _ entries =>
      flat_map (λ d1, raw_entries (path.Join [name; asset_name d1]) d1) entries
  end.

(** A host state extends another when it keeps the working directory
    and every node, with its kind, mode and content. *)
Definition extends (o o' : OS) : Prop :=
  os.wd o' = os.wd o ∧ ∀ k n, os.node_at o k = Some n → os.node_at o' k = Some n.

(** A state of the host is well formed when every node lies in a
    directory. *)
Definition wf_os (o : OS) : Prop :=
  ∀ k, is_Some (os.node_at o k) → ∃ m, os.node_at o (removelast k) = Some (os.Dir m).

(** [o'] is [o] with new nodes at the path [K] or above it, and
    nothing else changed. *)
Definition grows_within (K : list string) (o o' : OS) : Prop :=
  os.wd o' = os.wd o ∧
  ∀ k, os.node_at o' k = os.node_at o k ∨ (k `prefix_of` K ∧ os.node_at o k = None).

(** What a step of the engine changes in the engine: the statistics. *)
Definition same_setup (e e' : Engine) : Prop := e' = Engine.set_stats e (stats e').

(** A run completes, with or without accumulated errors, when it
    returns [nil] or the error that counts them; its other results are
    the fatal ones. *)
Definition completed (r : option error) : bool :=
  match r with
  | None => true
  | Some (ErrorfD _ _) => true
  | Some _ => false
  end.

(** The asset tree under the prefix is missing or empty. *)
Definition no_templates (tm : TemplateManager) : Prop :=
  match embed.Open (tm_fs tm) (tm_prefix tm) with
  | inl _ => True
  | inr (AFile _ _) => True
  | inr (ADir _ entries) => entries = []
  end.

(** An error that is not one of the two sentinels of the walk. *)
Definition plain_error (e : error) : bool :=
  negb (is_SkipDir e) && negb (is_SkipAll e).

(** The specification's words for an unsafe asset path: an absolute
    path, or one with a parent-directory element. *)
Definition unsafe_path (p : string) : bool :=
  path.IsAbs p || bool_decide (".." ∈ strings.SplitSlash p).

(** The specification's words for containment: the canonical form of
    the destination has the target root as a strict prefix. *)
Definition inside_root (o : OS) (root target : string) : bool :=
  bool_decide (os.resolve o root `prefix_of` os.resolve o target ∧
               os.resolve o root ≠ os.resolve o target).

(** The resolved destination of the entry with the names [k], for
    the target root with the elements [T]. *)
Definition destination (T k : list string) : list string := T ++ ".claude" :: k.

(** The node at the destination of an entry has the kind of the
    entry. *)
Definition present (T : list string) (o : OS) (ke : list string * DirEntry) : Prop :=
  ∃ n, os.node_at o (destination T ke.1) = Some n ∧ os.IsDir n = IsDir ke.2.

(** The elements that cleaning keeps when it meets no [..]. *)
Definition kept_elem (e : string) : Prop := ¬ (e = "" ∨ e = ".").

(** No path of the sequence lies above, or is, a path before it. *)
Fixpoint no_back_prefix (l : list (list string)) : Prop :=
  match l with
  | [] => True
  | x :: rest => (∀ y, y ∈ rest → ¬ y `prefix_of` x) ∧ no_back_prefix rest
  end.

(** Every directory above an entry comes before it: the non-empty
    paths strictly above the path of an entry are among [seen], the
    paths of the directory entries so far. *)
Fixpoint ancestors_first (seen : list (list string))
  (l : list (list string * DirEntry)) : Prop :=
  match l with
  | [] => True
  | ke :: rest =>
      (∀ k', k' ≠ [] → k' `prefix_of` ke.1 → k' ≠ ke.1 → k' ∈ seen) ∧
      ancestors_first (if IsDir ke.2 then ke.1 :: seen else seen) rest
  end.

(** The paths of the directory entries of [l], put before [seen]. *)
Definition seen_after (seen : list (list string))
  (l : list (list string * DirEntry)) : list (list string) :=
  fold_left (λ s ke, if IsDir ke.2 then ke.1 :: s else s) l seen.

(** No regular file stands at the path [K] or above it. *)
Definition clear_above (o : OS) (K : list string) : Prop :=
  ∀ p m c, p `prefix_of` K → os.node_at o p ≠ Some (os.File m c).

(** A callback that records the calls of a walk and passes on the
    error it is handed. *)
Definition record_fn : @WalkDirFunc (list (string * DirEntry)) :=
  λ p d err l,
    match err, d with
    | Some e, _ => (Some e, l)
    | None, Some d => (None, l ++ [(p, d)])
    | None, None => (None, l)
    end.

(** The entries of [l] that are files. *)
Definition file_entries (l : list (list string * DirEntry))
  : list (list string * DirEntry) :=
  List.filter (λ ke, negb (IsDir ke.2)) l.

(** Nothing stands at the destination of an entry. *)
Definition missing (T : list string) (o : OS) (ke : list string * DirEntry) : bool :=
  match os.node_at o (destination T ke.1) with None => true | Some _ => false end.

(** An entry meets a node of the other kind at its destination: a
    directory entry a regular file, or a file entry a directory. *)
Definition conflicts (T : list string) (o : OS) (ke : list string * DirEntry) : bool :=
  match os.node_at o (destination T ke.1) with
  | Some n => negb (bool_decide (os.IsDir n = IsDir ke.2))
  | None => false
  end.

(** The statistics that tell what the entries [l] meet on the host
    [o]: an entry counts as created when nothing stands at its
    destination and as skipped otherwise. *)
Definition expected_stats (T : list string) (o : OS)
  (l : list (list string * DirEntry)) : Statistics :=
  {| FilesCreated := length (List.filter (λ ke, negb (IsDir ke.2) && missing T o ke) l);
     FilesSkipped := length (List.filter (λ ke, negb (IsDir ke.2) && negb (missing T o ke)) l);
     DirsCreated := length (List.filter (λ ke, IsDir ke.2 && missing T o ke) l);
     DirsSkipped := length (List.filter (λ ke, IsDir ke.2 && negb (missing T o ke)) l);
     Errors := [] |}.

(** ** Concrete inputs

    The scenario of the specification: a directory [commands] with the
    file [ask.md], and the file [settings.json], deployed into [/t]. *)

Module Examples.

Definition b (s : string) : bytes := String.list_byte_of_string s.

Definition assets : embed.FS :=
  {| embed.root_entries :=
       [ADir ".claude" [ADir "commands" [AFile "ask.md" (b "hello")];
                        AFile "settings.json" (b "{}")]] |}.

Definition cfg (dry : bool) : Config :=
  {| TargetDir := "/t"; DryRun := dry; Verbose := false; NoColor := false;
     ShowHelp := false; ShowVersion := false |}.

Definition host (nodes : gmap (list string) os.Node) : OS :=
  {| os.wd := "/"; os.nodes := nodes |}.

(** The target directory is empty. *)
Definition empty_target : OS := host {[ ["t"] := os.Dir mode_0755 ]}.

(** [settings.json] is already there, with a content of its own. *)
Definition with_settings : OS :=
  host {[ ["t"] := os.Dir mode_0755;
          ["t"; ".claude"] := os.Dir mode_0755;
          ["t"; ".claude"; "settings.json"] := os.File mode_0644 (b "mine") ]}.

(** [commands] is already there. *)
Definition with_commands : OS :=
  host {[ ["t"] := os.Dir mode_0755;
          ["t"; ".claude"] := os.Dir mode_0755;
          ["t"; ".claude"; "commands"] := os.Dir mode_0755 ]}.

(** A regular file stands where the directory [commands] goes. *)
Definition commands_is_file : OS :=
  host {[ ["t"] := os.Dir mode_0755;
          ["t"; ".claude"] := os.Dir mode_0755;
          ["t"; ".claude"; "commands"] := os.File mode_0644 [] ]}.

(** A regular file stands where the directory [.claude] goes. *)
Definition claude_is_file : OS :=
  host {[ ["t"] := os.Dir mode_0755;
          ["t"; ".claude"] := os.File mode_0644 [] ]}.

(** The target directory holds a file named like the write probe. *)
Definition with_probe : OS :=
  host {[ ["t"] := os.Dir mode_0755;
          ["t"; ".cc-init-test"] := os.File mode_0644 (b "notes") ]}.

(** An embedded tree without templates. *)
Definition no_assets : embed.FS := {| embed.root_entries := [] |}.

End Examples.

(** Induction on an asset with the hypothesis for every entry of a
    directory. *)
Section asset_induction.
Variable P : Asset → Prop.
Hypothesis Hfile : ∀ n data, P (AFile n data).
Hypothesis Hdir : ∀ n entries, Forall P entries → P (ADir n entries).

Fixpoint Asset_ind_nested (a : Asset) : P a :=
  match a with
  | AFile n data => Hfile n data
  | ADir n entries =>
      Hdir n entries
        ((fix go (l : list Asset) : Forall P l :=
            match l with
            | [] => List.Forall_nil P
            | x :: r => List.Forall_cons P x r (Asset_ind_nested x) (go r)
            end) entries)
  end.
End asset_induction.

(** * Properties *)

(** ** The path functions on examples *)

Example clean_examples :
  map path.Clean ["a//b/./c"; "a/../.."; "/../a"; ""; "/"; "a/b/../../c/"; "../a"]
  = ["a/b/c"; ".."; "/a"; "."; "/"; "c"; "../a"].
Proof. vm_compute. reflexivity. Qed.

Example join_examples :
  (path.Join [".claude"; "../x"], path.Join [".claude"; "/etc/passwd"],
   path.Join [""; ""], path.Join ["/t"; ".claude"; "commands/ask.md"],
   path.Dir "/t/.claude/x", path.Dir "x", path.Dir "/x",
   strings.TrimPrefix ".claude/a/b" ".claude/", strings.TrimPrefix "a" ".claude/",
   strings.HasSuffix "run.sh" ".sh", strings.HasSuffix "sh" ".sh")
  = ("x", ".claude/etc/passwd", "", "/t/.claude/commands/ask.md",
     "/t/.claude", ".", "/", "a/b", "a", true, false).
Proof. vm_compute. reflexivity. Qed.

(** ** Splitting and joining at slashes *)

Section string_lemmas.
Import strings.

Lemma append_cons c a b : String c a +:+ b = String c (a +:+ b).
Proof. reflexivity. Qed.

Lemma append_nil b : "" +:+ b = b.
Proof. reflexivity. Qed.

Lemma SplitSlash_nonempty s : SplitSlash s ≠ [].
Proof.
  destruct s as [|c t]; simpl; [done|].
  destruct (Ascii.eqb c "/"); [done|]. by destruct (SplitSlash t).
Qed.

Lemma SplitSlash_app a b :
  SplitSlash (a +:+ "/" +:+ b) = SplitSlash a ++ SplitSlash b.
Proof.
  induction a as [|c a IH]; [done|].
  rewrite append_cons. simpl. destruct (Ascii.eqb c "/").
  - by rewrite IH.
  - rewrite IH. pose proof (SplitSlash_nonempty a).
    by destruct (SplitSlash a).
Qed.

Lemma strings_SplitSlash_JoinSlash l :
  l ≠ [] → Forall slash_free l → SplitSlash (JoinSlash l) = l.
Proof.
  intros Hne Hl. induction Hl as [|x l Hx Hl IH]; [done|].
  destruct l as [|y l]; [exact Hx|].
  change (JoinSlash (x :: y :: l)) with (x +:+ "/" +:+ JoinSlash (y :: l)).
  rewrite SplitSlash_app, Hx, IH; done.
Qed.

Lemma JoinSlash_cons x l :
  l ≠ [] → JoinSlash (x :: l) = x +:+ "/" +:+ JoinSlash l.
Proof. by destruct l. Qed.

Lemma append_assoc (a b c : string) : (a +:+ b) +:+ c = a +:+ b +:+ c.
Proof. induction a; [done|]. rewrite !append_cons. by f_equal. Qed.

Lemma JoinSlash_app l1 l2 :
  l1 ≠ [] → l2 ≠ [] →
  JoinSlash (l1 ++ l2) = JoinSlash l1 +:+ "/" +:+ JoinSlash l2.
Proof.
  intros H1 H2. induction l1 as [|x l1 IH]; [done|].
  destruct l1 as [|y l1].
  - simpl app. by rewrite JoinSlash_cons.
  - change ((x :: y :: l1) ++ l2) with (x :: (y :: l1) ++ l2).
    rewrite (JoinSlash_cons x ((y :: l1) ++ l2)) by done.
    rewrite (JoinSlash_cons x (y :: l1)) by done.
    rewrite IH by done. by rewrite !append_assoc.
Qed.

Lemma cut_prefix_app p s : cut_prefix p (p +:+ s) = Some s.
Proof.
  induction p as [|c p IH]; [done|].
  rewrite append_cons. simpl. by rewrite Ascii.eqb_refl.
Qed.

Lemma TrimPrefix_app p s : TrimPrefix (p +:+ s) p = s.
Proof. unfold TrimPrefix. by rewrite cut_prefix_app. Qed.

End string_lemmas.

(** ** Cleaning *)

Section clean_lemmas.
Import path.

Lemma valid_name_spec n :
  valid_name n = true ↔ n ≠ "" ∧ n ≠ "." ∧ n ≠ ".." ∧ slash_free n.
Proof.
  unfold valid_name, embed.valid_elem.
  rewrite andb_true_iff, !bool_decide_eq_true. tauto.
Qed.

Lemma cut_prefix_cons a p b t :
  strings.cut_prefix (String a p) (String b t)
  = if Ascii.eqb a b then strings.cut_prefix p t else None.
Proof. reflexivity. Qed.

Lemma clean_step_valid rooted stack n :
  valid_name n = true → clean_step rooted stack n = n :: stack.
Proof.
  intros (? & ? & ? & _)%valid_name_spec. unfold clean_step.
  destruct (decide (n = "" ∨ n = ".")) as [[?|?]|_]; [done..|].
  by destruct (decide (n = "..")).
Qed.

Lemma fold_clean_step_valid rooted stack l :
  valid_names l →
  fold_left (clean_step rooted) l stack = rev l ++ stack.
Proof.
  intros Hl. revert stack. induction Hl as [|n l Hn Hl IH]; intros stack; [done|].
  simpl. rewrite clean_step_valid, IH by done. by rewrite <- app_assoc.
Qed.

Lemma clean_elems_app_valid rooted a l :
  valid_names l →
  clean_elems rooted (a ++ l) = clean_elems rooted a ++ l.
Proof.
  intros Hl. unfold clean_elems, clean_stack.
  rewrite fold_left_app, fold_clean_step_valid by done.
  by rewrite rev_app_distr, rev_involutive.
Qed.

Lemma clean_elems_valid rooted l :
  valid_names l → clean_elems rooted l = l.
Proof. intros Hl. by rewrite <- (app_nil_l l), clean_elems_app_valid. Qed.

Lemma clean_elems_skip rooted l :
  clean_elems rooted ("" :: l) = clean_elems rooted l.
Proof. reflexivity. Qed.

Lemma valid_names_slash_free l :
  valid_names l → Forall slash_free l.
Proof.
  intros Hl. eapply Forall_impl; [exact Hl|].
  by intros n (_ & _ & _ & ?)%valid_name_spec.
Qed.

(** A relative path built from names is clean. *)
Lemma IsAbs_JoinSlash_valid l :
  valid_names l → IsAbs (strings.JoinSlash l) = false.
Proof.
  intros Hl. destruct Hl as [|n l Hn Hl]; [done|].
  apply valid_name_spec in Hn as (Hn & _ & _ & Hs).
  destruct n as [|c n]; [done|].
  assert (c ≠ "/"%char) as Hc.
  { intros ->. unfold slash_free in Hs. simpl in Hs. done. }
  assert (Ascii.eqb "/" c = false) as Hcb by (apply Ascii.eqb_neq; congruence).
  assert (∃ t, strings.JoinSlash (String c n :: l) = String c t) as [t ->].
  { destruct l; [by eexists|]. eexists.
    rewrite JoinSlash_cons, append_cons; done. }
  unfold IsAbs, strings.HasPrefix.
  change "/" with (String "/"%char "").
  by rewrite cut_prefix_cons, Hcb.
Qed.

Lemma Clean_JoinSlash_valid l :
  l ≠ [] → valid_names l →
  Clean (strings.JoinSlash l) = strings.JoinSlash l.
Proof.
  intros Hne Hl. unfold Clean.
  rewrite IsAbs_JoinSlash_valid by done.
  rewrite strings_SplitSlash_JoinSlash by eauto using valid_names_slash_free.
  rewrite clean_elems_valid by done. by destruct l.
Qed.

End clean_lemmas.

(** ** Paths built from names *)

Section path_lemmas.
Import path.

Lemma JoinSlash_valid_nonempty l :
  l ≠ [] → valid_names l → strings.JoinSlash l ≠ "".
Proof.
  intros Hne Hl. destruct Hl as [|n l Hn Hl]; [done|].
  apply valid_name_spec in Hn as (Hn & _).
  destruct n as [|c n]; [done|].
  destruct l; [done|]. by rewrite JoinSlash_cons, append_cons.
Qed.

Lemma Join_cons_nonempty e rest :
  e ≠ "" → Join (e :: rest) = Clean (strings.JoinSlash (e :: rest)).
Proof. intros He. simpl. by destruct (decide (e = "")). Qed.

(** What [walkDir] computes for an entry of a directory. *)
Lemma Join_name P n :
  P ≠ [] → valid_names P → valid_name n = true →
  Join [strings.JoinSlash P; n] = strings.JoinSlash (P ++ [n]).
Proof.
  intros Hne HP Hn.
  rewrite Join_cons_nonempty by eauto using JoinSlash_valid_nonempty.
  change (strings.JoinSlash [strings.JoinSlash P; n])
    with (strings.JoinSlash P +:+ "/" +:+ strings.JoinSlash [n]).
  rewrite <- JoinSlash_app by done.
  apply Clean_JoinSlash_valid; [by destruct P|].
  apply Forall_app; auto.
Qed.

Lemma IsAbs_key_path K : IsAbs (os.key_path K) = true.
Proof. reflexivity. Qed.

Lemma Clean_abs X :
  IsAbs X = true → Clean X = os.key_path (clean_elems true (strings.SplitSlash X)).
Proof. intros HX. unfold Clean. by rewrite HX. Qed.

Lemma SplitSlash_key_path K :
  valid_names K →
  clean_elems true (strings.SplitSlash (os.key_path K)) = K.
Proof.
  intros HK. unfold os.key_path.
  rewrite <- (append_nil ("/" +:+ strings.JoinSlash K)), SplitSlash_app.
  change (strings.SplitSlash "" ++ ?l) with ("" :: l).
  rewrite clean_elems_skip.
  destruct (decide (K = [])) as [->|Hne]; [done|].
  rewrite strings_SplitSlash_JoinSlash by eauto using valid_names_slash_free.
  by apply clean_elems_valid.
Qed.

Lemma resolve_key_path o K : valid_names K → os.resolve o (os.key_path K) = K.
Proof.
  intros HK. unfold os.resolve. rewrite IsAbs_key_path.
  by apply SplitSlash_key_path.
Qed.

(** Joining names below a clean absolute path. *)
Lemma Join_key_path T k :
  valid_names T → valid_names k → k ≠ [] →
  Join (os.key_path T :: map (λ n, n) k) = os.key_path (T ++ k).
Proof.
  intros HT Hk Hne. rewrite map_id.
  rewrite Join_cons_nonempty by done.
  rewrite JoinSlash_cons by done.
  rewrite Clean_abs by done. f_equal.
  rewrite SplitSlash_app.
  rewrite strings_SplitSlash_JoinSlash by eauto using valid_names_slash_free.
  unfold clean_elems, clean_stack. rewrite fold_left_app.
  fold (clean_stack true (strings.SplitSlash (os.key_path T))).
  rewrite fold_clean_step_valid by done.
  rewrite rev_app_distr, rev_involutive.
  fold (clean_elems true (strings.SplitSlash (os.key_path T))).
  by rewrite SplitSlash_key_path.
Qed.

Lemma SplitSlash_key_path_raw K :
  K ≠ [] → valid_names K → strings.SplitSlash (os.key_path K) = "" :: K.
Proof.
  intros Hne HK. unfold os.key_path.
  rewrite <- (append_nil ("/" +:+ strings.JoinSlash K)), SplitSlash_app.
  by rewrite strings_SplitSlash_JoinSlash by eauto using valid_names_slash_free.
Qed.

Lemma clean_elems_snoc_empty rooted l :
  clean_elems rooted (l ++ [""]) = clean_elems rooted l.
Proof. unfold clean_elems, clean_stack. by rewrite fold_left_app. Qed.

(** The destination of the entry with the names [k]. *)
Lemma target_path T k :
  valid_names T → valid_names k → k ≠ [] →
  filepath.Join [os.key_path T; ".claude"; filepath.FromSlash (strings.JoinSlash k)]
  = os.key_path (T ++ ".claude" :: k).
Proof.
  intros HT Hk Hne.
  rewrite <- (Join_key_path T (".claude" :: k)); [|done|by constructor|done].
  rewrite map_id. unfold filepath.Join, filepath.FromSlash.
  rewrite !Join_cons_nonempty by done. f_equal.
  by rewrite (JoinSlash_cons _ (".claude" :: k)), (JoinSlash_cons _ k) by done.
Qed.

Lemma valid_names_removelast K : valid_names K → valid_names (removelast K).
Proof.
  induction 1 as [|n K Hn HK IH]; [done|].
  destruct K; [done|]. by constructor.
Qed.

Lemma Dir_key_path K :
  K ≠ [] → valid_names K →
  filepath.Dir (os.key_path K) = os.key_path (removelast K).
Proof.
  intros Hne HK. unfold filepath.Dir, Dir.
  rewrite SplitSlash_key_path_raw by done.
  destruct K as [|n K]; [done|].
  change (removelast ("" :: n :: K)) with ("" :: removelast (n :: K)).
  pose proof (valid_names_removelast _ HK) as HR.
  destruct (removelast (n :: K)) as [|r R] eqn:ER; [done|].
  rewrite JoinSlash_cons by done.
  change ("" +:+ "/" +:+ strings.JoinSlash (r :: R)) with (os.key_path (r :: R)).
  assert (IsAbs (os.key_path (r :: R) +:+ "/") = true) as Habs by done.
  rewrite Clean_abs by done. f_equal.
  replace (os.key_path (r :: R) +:+ "/")
    with (os.key_path (r :: R) +:+ "/" +:+ "") by done.
  rewrite SplitSlash_app, SplitSlash_key_path_raw by done.
  change (("" :: r :: R) ++ strings.SplitSlash "") with ("" :: (r :: R) ++ [""]).
  rewrite clean_elems_skip, clean_elems_snoc_empty.
  by apply clean_elems_valid.
Qed.

End path_lemmas.

(** ** The host filesystem *)

Section os_lemmas.
Import os.

Lemma extends_refl o : extends o o.
Proof. by split. Qed.

Lemma extends_trans o1 o2 o3 : extends o1 o2 → extends o2 o3 → extends o1 o3.
Proof. intros [? H12] [? H23]. split; [congruence|eauto]. Qed.

Lemma grows_within_refl K o : grows_within K o o.
Proof. split; auto. Qed.

Lemma grows_within_extends K o o' : grows_within K o o' → extends o o'.
Proof.
  intros [Hwd H]. split; [done|]. intros k n Hk.
  destruct (H k) as [->|[_ ?]]; congruence.
Qed.

Lemma grows_within_trans K o1 o2 o3 :
  grows_within K o1 o2 → grows_within K o2 o3 → grows_within K o1 o3.
Proof.
  intros [? H12] [? H23]. split; [congruence|]. intros k.
  destruct (H23 k) as [->|[? E2]]; [apply H12|].
  destruct (H12 k) as [E|[? ?]]; [right; split; congruence|by right].
Qed.

Lemma grows_within_prefix K K' o o' :
  K `prefix_of` K' → grows_within K o o' → grows_within K' o o'.
Proof.
  intros HK [? H]. split; [done|]. intros k.
  destruct (H k) as [?|[? ?]]; [by left|right]. split; [by etrans|done].
Qed.

Lemma node_at_None_ne o k : node_at o k = None → k ≠ [].
Proof. by intros H ->. Qed.

Lemma node_at_insert o k n k' :
  k ≠ [] →
  node_at (set_nodes o (<[k := n]> (nodes o))) k'
  = if decide (k = k') then Some n else node_at o k'.
Proof.
  intros Hk. destruct k' as [|x k']; simpl.
  - by destruct (decide (k = [])).
  - apply lookup_insert.
Qed.

Lemma node_at_delete o k k' :
  k ≠ [] →
  node_at (set_nodes o (delete k (nodes o))) k'
  = if decide (k = k') then None else node_at o k'.
Proof.
  intros Hk. destruct k' as [|x k']; simpl.
  - by destruct (decide (k = [])).
  - apply lookup_delete.
Qed.

(** A new node at [k] changes nothing else. *)
Lemma insert_grows o k n :
  node_at o k = None →
  grows_within k o (set_nodes o (<[k := n]> (nodes o))).
Proof.
  intros Hk. split; [done|]. intros k'.
  rewrite node_at_insert by eauto using node_at_None_ne.
  destruct (decide (k = k')) as [<-|]; [by right|by left].
Qed.

Lemma mkdir_at_spec k perm o r o' :
  mkdir_at k perm o = (r, o') →
  (is_Some r ∧ o' = o) ∨
  (r = None ∧ node_at o k = None ∧ (∃ m, node_at o (removelast k) = Some (Dir m)) ∧
   o' = set_nodes o (<[k := Dir perm]> (nodes o))).
Proof.
  unfold mkdir_at. intros H.
  destruct (node_at o k) eqn:Ek; [left; by simplify_eq|].
  destruct (node_at o (removelast k)) as [[]|] eqn:Ep; simplify_eq;
    [left|right|left]; eauto 10.
Qed.

Lemma mkdir_at_ok k perm o m :
  node_at o k = None → node_at o (removelast k) = Some (Dir m) →
  mkdir_at k perm o = (None, set_nodes o (<[k := Dir perm]> (nodes o))).
Proof. intros Hk Hp. unfold mkdir_at. by rewrite Hk, Hp. Qed.

(** [mkdir_all]: what it changes, what holds when it succeeds and
    why it fails. *)
Lemma mkdir_all_spec rk perm o r o' :
  mkdir_all rk perm o = (r, o') →
  grows_within (rev rk) o o' ∧
  (∀ k n, node_at o' k = Some n → node_at o k = Some n ∨ n = Dir perm) ∧
  (r = None → ∃ m, node_at o' (rev rk) = Some (Dir m)) ∧
  (is_Some r → ∃ p m d, p `prefix_of` rev rk ∧ node_at o p = Some (File m d)).
Proof.
  revert r o'. induction rk as [|x rk IH]; intros r o' H.
  - simpl in H. simplify_eq.
    split_and!; [apply grows_within_refl|by left|by eexists|by intros []].
  - cbn [mkdir_all] in H.
    destruct (node_at o (rev (x :: rk))) as [[m d|m]|] eqn:Ek; simplify_eq.
    + split_and!; [apply grows_within_refl|by left|done|].
      intros _. by exists (rev (x :: rk)), m, d.
    + split_and!; [apply grows_within_refl|by left|by eexists|by intros []].
    + destruct (mkdir_all rk perm o) as [[err|] o1] eqn:E1.
      * simplify_eq. destruct (IH _ _ eq_refl) as (Hg & Hn & _ & Hf).
        split_and!; [|done|done|].
        -- eapply grows_within_prefix; [|done]. simpl. by apply prefix_app_r.
        -- intros _. destruct Hf as (p & m & d & ? & ?); [done|].
           exists p, m, d. split; [|done]. simpl. by apply prefix_app_r.
      * destruct (IH _ _ eq_refl) as (Hg & Hn & [m Hd] & _); [done|].
        assert (node_at o1 (rev (x :: rk)) = None) as Ek1.
        { destruct Hg as [_ Hg]. destruct (Hg (rev (x :: rk))) as [->|[Hp _]]; [done|].
          simpl in Hp. by apply prefix_snoc_not in Hp. }
        assert (removelast (rev (x :: rk)) = rev rk) as Erl.
        { simpl. by rewrite removelast_last. }
        rewrite (mkdir_at_ok _ _ _ m) in H by (by rewrite ?Erl).
        simplify_eq. split_and!.
        -- eapply grows_within_trans.
           ++ eapply grows_within_prefix; [|done]. simpl. by apply prefix_app_r.
           ++ by apply insert_grows.
        -- intros k n. rewrite node_at_insert by eauto using node_at_None_ne.
           case_decide; [intros [= <-]; by right|]. by apply Hn.
        -- intros _. exists perm.
           rewrite node_at_insert by eauto using node_at_None_ne.
           by rewrite decide_True.
        -- by intros [].
Qed.

Lemma removelast_length_ne (k : list string) : k ≠ [] → removelast k ≠ k.
Proof.
  intros Hk E. apply (f_equal length) in E.
  destruct (exists_last Hk) as (l & x & ->).
  rewrite removelast_last, length_app in E. simpl in E. lia.
Qed.

Lemma insert_wf o k n m :
  wf_os o → node_at o k = None → node_at o (removelast k) = Some (Dir m) →
  wf_os (set_nodes o (<[k := n]> (nodes o))).
Proof.
  intros Hwf Hk Hp k'. pose proof (node_at_None_ne _ _ Hk) as Hne.
  rewrite !node_at_insert by done. intros Hs.
  destruct (decide (k = removelast k')) as [->|].
  - destruct (decide (removelast k' = k')) as [E|]; [by rewrite E in Hk; destruct Hs; congruence|].
    destruct (Hwf k' Hs) as [? ?]. congruence.
  - destruct (decide (k = k')) as [<-|]; [eauto|]. by apply Hwf.
Qed.

Lemma mkdir_all_wf rk perm o r o' :
  wf_os o → mkdir_all rk perm o = (r, o') → wf_os o'.
Proof.
  revert r o'. induction rk as [|x rk IH]; intros r o' Hwf H.
  - simpl in H. by simplify_eq.
  - cbn [mkdir_all] in H.
    destruct (node_at o (rev (x :: rk))) as [[m d|m]|] eqn:Ek; simplify_eq; [done..|].
    destruct (mkdir_all rk perm o) as [[err|] o1] eqn:E1; [simplify_eq; eauto|].
    pose proof (IH _ _ Hwf eq_refl) as Hwf1.
    destruct (mkdir_at (rev (x :: rk)) perm o1) as [r2 o2] eqn:E2.
    assert (wf_os o2) as Hwf2.
    { apply mkdir_at_spec in E2 as [[_ ->]|(_ & ? & [m ?] & ->)]; [done|].
      by eapply insert_wf. }
    destruct r2; [|by simplify_eq].
    destruct (node_at o2 (rev (x :: rk))) as [[]|]; by simplify_eq.
Qed.

(** In a well-formed state what lies above a node is a directory. *)
Lemma wf_os_prefix o k p :
  wf_os o → is_Some (node_at o k) → p `prefix_of` k → p ≠ k →
  ∃ m, node_at o p = Some (Dir m).
Proof.
  intros Hwf Hk [s ->]. revert Hk. induction s as [|x s IH] using rev_ind.
  - intros _ Hne. by rewrite app_nil_r in Hne.
  - intros Hk _. apply Hwf in Hk as [m Hm].
    rewrite app_assoc, removelast_last in Hm.
    destruct (decide (s = [])) as [->|Hs]; [rewrite app_nil_r in Hm; eauto|].
    apply IH; [by rewrite Hm|]. intros E. apply Hs.
    apply (f_equal length) in E. rewrite length_app in E.
    destruct s; [done|simpl in E; lia].
Qed.

Lemma write_at_new op k data perm o m :
  node_at o k = None → node_at o (removelast k) = Some (Dir m) →
  write_at op k data perm o
  = (None, set_nodes o (<[k := File perm data]> (nodes o))).
Proof. intros Hk Hp. unfold write_at. by rewrite Hk, Hp. Qed.

End os_lemmas.

(** ** The filesystem port *)

Section port_lemmas.
Import os.

Lemma port_Exists f p o : FileSystem.Exists f p o = OSFileSystem.Exists p o.
Proof. induction f; simpl; auto. Qed.

Lemma port_Stat f p o : FileSystem.Stat f p o = os.Stat o p.
Proof. induction f; simpl; auto. Qed.

Lemma Stat_node o p :
  os.Stat o p = match node_at o (resolve o p) with
                | Some n => inr n
                | None => inl (PathError "stat" p ENOENT)
                end.
Proof. reflexivity. Qed.

Lemma Exists_node o p :
  OSFileSystem.Exists p o = bool_decide (is_Some (node_at o (resolve o p))).
Proof.
  unfold OSFileSystem.Exists. rewrite Stat_node.
  destruct (node_at o (resolve o p)) as [n|].
  - by rewrite bool_decide_eq_true_2.
  - rewrite bool_decide_eq_false_2; [done|]. by intros [].
Qed.

Lemma resolve_wd o o' p : wd o' = wd o → resolve o' p = resolve o p.
Proof. unfold resolve. by intros ->. Qed.

(** The directory port on the host, by what is at the path. *)
Lemma OS_CreateDir_cases p perm o :
  OSFileSystem.CreateDir p perm o =
  match node_at o (resolve o p) with
  | Some (Dir _) => (None, o)
  | Some (File _ _) => (Some (Errorf1 "path exists but is not a directory: %s" p), o)
  | None => mkdir_all (rev (resolve o p)) perm o
  end.
Proof.
  unfold OSFileSystem.CreateDir. rewrite Exists_node, Stat_node.
  destruct (node_at o (resolve o p)) as [[]|]; [done..|].
  rewrite bool_decide_eq_false_2; [done|]. by intros [].
Qed.

Lemma OS_CreateFile_cases p content perm o :
  OSFileSystem.CreateFile p content perm o =
  match node_at o (resolve o p) with
  | Some (Dir _) => (Some (Errorf1 "path exists but is a directory: %s" p), o)
  | Some (File _ _) => (None, o)
  | None =>
      match OSFileSystem.CreateDir (filepath.Dir p) mode_0755 o with
      | (Some err, o1) =>
          (Some (ErrorfW "failed to create parent directory: %w" [] err), o1)
      | (None, o1) => os.WriteFile o1 p content perm
      end
  end.
Proof.
  unfold OSFileSystem.CreateFile. rewrite Exists_node, Stat_node.
  destruct (node_at o (resolve o p)) as [[]|]; [done..|].
  rewrite bool_decide_eq_false_2; [done|]. by intros [].
Qed.

Lemma OS_CreateDir_spec p perm o r o' :
  OSFileSystem.CreateDir p perm o = (r, o') →
  grows_within (resolve o p) o o' ∧
  (∀ k n, node_at o' k = Some n → node_at o k = Some n ∨ n = Dir perm) ∧
  (r = None → ∃ m, node_at o' (resolve o p) = Some (Dir m)) ∧
  (wf_os o → wf_os o').
Proof.
  rewrite OS_CreateDir_cases.
  destruct (node_at o (resolve o p)) as [[]|] eqn:Ek; intros H.
  - simplify_eq. split_and!; [apply grows_within_refl|by left|done|done].
  - simplify_eq. split_and!; [apply grows_within_refl|by left|by eexists|done].
  - pose proof (mkdir_all_spec _ _ _ _ _ H) as (Hg & Hn & Hd & _).
    rewrite rev_involutive in Hg, Hd.
    split_and!; [done..|]. intros Hwf. by eapply mkdir_all_wf.
Qed.

(** No operation of the host port changes or removes a node. *)
Lemma OS_CreateDir_extends p perm o r o' :
  OSFileSystem.CreateDir p perm o = (r, o') → extends o o'.
Proof.
  intros (? & _)%OS_CreateDir_spec. by eapply grows_within_extends.
Qed.

Lemma write_at_absent_extends op k data perm o r o' :
  node_at o k = None → write_at op k data perm o = (r, o') → extends o o'.
Proof.
  intros Hk. unfold write_at. rewrite Hk.
  destruct (node_at o (removelast k)) as [[]|]; intros ?; simplify_eq;
    try apply extends_refl.
  eapply grows_within_extends. by apply insert_grows.
Qed.

Lemma write_at_dir_extends op k data perm o r o' m :
  node_at o k = Some (Dir m) → write_at op k data perm o = (r, o') → o' = o.
Proof. intros Hk. unfold write_at. rewrite Hk. by intros ?; simplify_eq. Qed.

Lemma OS_CreateFile_extends p content perm o r o' :
  OSFileSystem.CreateFile p content perm o = (r, o') → extends o o'.
Proof.
  rewrite OS_CreateFile_cases.
  destruct (node_at o (resolve o p)) as [[]|] eqn:Ek; intros H;
    [simplify_eq; apply extends_refl..|].
  destruct (OSFileSystem.CreateDir _ _ _) as [[err|] o1] eqn:E1.
  - simplify_eq. by eapply OS_CreateDir_extends.
  - apply OS_CreateDir_spec in E1 as ([Hwd Hg] & Hn & _).
    eapply extends_trans; [eapply grows_within_extends; by split|].
    unfold WriteFile in H. rewrite (resolve_wd o o1) in H by done.
    destruct (node_at o1 (resolve o p)) as [n|] eqn:Ek1.
    + destruct (Hn _ _ Ek1) as [?| ->]; [congruence|].
      apply (write_at_dir_extends _ _ _ _ _ _ _ _ Ek1) in H.
      subst. apply extends_refl.
    + by eapply write_at_absent_extends.
Qed.

(** The dry-run port leaves the host as it is. *)
Lemma DryRun_CreateDir_same w p perm o r o' :
  FileSystem.CreateDir (DryRunFileSystem w) p perm o = (r, o') → o' = o.
Proof.
  cbn [FileSystem.CreateDir].
  destruct (FileSystem.Exists _ _ _); [|by intros ?; simplify_eq].
  destruct (FileSystem.Stat _ _ _) as [?|info]; [by intros ?; simplify_eq|].
  destruct (negb (IsDir info)); by intros ?; simplify_eq.
Qed.

Lemma DryRun_CreateFile_same w p content perm o r o' :
  FileSystem.CreateFile (DryRunFileSystem w) p content perm o = (r, o') → o' = o.
Proof.
  cbn [FileSystem.CreateFile].
  destruct (FileSystem.Exists _ _ _); [|by intros ?; simplify_eq].
  destruct (FileSystem.Stat _ _ _) as [?|info]; [by intros ?; simplify_eq|].
  destruct (IsDir info); by intros ?; simplify_eq.
Qed.

Lemma port_CreateDir_extends f p perm o r o' :
  FileSystem.CreateDir f p perm o = (r, o') → extends o o'.
Proof.
  destruct f as [|w]; [apply OS_CreateDir_extends|].
  intros ->%DryRun_CreateDir_same. apply extends_refl.
Qed.

Lemma port_CreateFile_extends f p content perm o r o' :
  FileSystem.CreateFile f p content perm o = (r, o') → extends o o'.
Proof.
  destruct f as [|w]; [apply OS_CreateFile_extends|].
  intros ->%DryRun_CreateFile_same. apply extends_refl.
Qed.

End port_lemmas.

(** Creation at a clean absolute path whose node is missing. *)
Section port_key_lemmas.
Import os.

Lemma OS_CreateDir_key K perm o r o' :
  valid_names K → node_at o K = None →
  OSFileSystem.CreateDir (key_path K) perm o = (r, o') →
  grows_within K o o' ∧ (wf_os o → wf_os o') ∧
  (r = None → node_at o' K = Some (Dir perm)) ∧
  (is_Some r → ∃ p m d, p `prefix_of` K ∧ node_at o p = Some (File m d)).
Proof.
  intros HK Hk H.
  pose proof (OS_CreateDir_spec _ _ _ _ _ H) as (Hg & Hn & Hd & Hwf).
  rewrite resolve_key_path in Hg, Hd by done.
  split_and!; [done..| |].
  - intros Hr. destruct (Hd Hr) as [m Hm].
    destruct (Hn _ _ Hm) as [?|E]; [congruence|by rewrite Hm, E].
  - rewrite OS_CreateDir_cases, resolve_key_path, Hk in H by done.
    apply mkdir_all_spec in H as (_ & _ & _ & Hf).
    by rewrite rev_involutive in Hf.
Qed.

Lemma removelast_prefix (k : list string) : removelast k `prefix_of` k.
Proof.
  destruct (decide (k = [])) as [->|Hk]; [done|].
  destruct (exists_last Hk) as (l & x & ->).
  rewrite removelast_last. by apply prefix_app_r.
Qed.

Lemma not_prefix_removelast (k : list string) : k ≠ [] → ¬ k `prefix_of` removelast k.
Proof.
  intros Hk. destruct (exists_last Hk) as (l & x & ->).
  rewrite removelast_last. apply prefix_snoc_not.
Qed.

Lemma OS_CreateFile_key K content perm o r o' :
  valid_names K → node_at o K = None →
  OSFileSystem.CreateFile (key_path K) content perm o = (r, o') →
  grows_within K o o' ∧ (wf_os o → wf_os o') ∧
  (r = None → node_at o' K = Some (File perm content)) ∧
  (is_Some r → ∃ p m d, p `prefix_of` removelast K ∧ node_at o p = Some (File m d)).
Proof.
  intros HK Hk. pose proof (node_at_None_ne _ _ Hk) as Hne.
  rewrite OS_CreateFile_cases, resolve_key_path, Hk by done.
  rewrite Dir_key_path by done.
  pose proof (valid_names_removelast _ HK) as HP.
  rewrite OS_CreateDir_cases, resolve_key_path by done.
  destruct (node_at o (removelast K)) as [[m d|m]|] eqn:Ep.
  - intros ?; simplify_eq.
    split_and!; [apply grows_within_refl|done|done|].
    intros _. by exists (removelast K), m, d.
  - unfold WriteFile. rewrite resolve_key_path by done.
    rewrite (write_at_new _ _ _ _ _ m) by done. intros ?; simplify_eq.
    split_and!; [by apply insert_grows|intros; by eapply insert_wf| |by intros []].
    intros _. rewrite node_at_insert by done. by rewrite decide_True.
  - destruct (mkdir_all _ _ _) as [[err|] o1] eqn:E1.
    + intros ?; simplify_eq.
      pose proof (mkdir_all_spec _ _ _ _ _ E1) as (Hg & _ & _ & Hf).
      rewrite rev_involutive in Hg, Hf.
      split_and!; [|intros; by eapply mkdir_all_wf|done|by intros _; apply Hf].
      eapply grows_within_prefix; [apply removelast_prefix|done].
    + pose proof (mkdir_all_spec _ _ _ _ _ E1) as (Hg & _ & [m Hd] & _); [done|].
      rewrite rev_involutive in Hg, Hd.
      assert (node_at o1 K = None) as Hk1.
      { destruct Hg as [_ Hg]. destruct (Hg K) as [->|[? _]]; [done|].
        by apply not_prefix_removelast in Hne. }
      unfold WriteFile. rewrite resolve_key_path by done.
      rewrite (write_at_new _ _ _ _ _ m) by done. intros ?; simplify_eq.
      split_and!.
      * eapply grows_within_trans; [|by apply insert_grows].
        eapply grows_within_prefix; [apply removelast_prefix|done].
      * intros Hwf. eapply insert_wf; [by eapply mkdir_all_wf|done..].
      * intros _. rewrite node_at_insert by done. by rewrite decide_True.
      * by intros [].
Qed.

End port_key_lemmas.

(** ** The walk as a sequence of calls *)


Section walk_lemmas.
Context {St : Type}.
Variable fn : @WalkDirFunc St.

Lemma walk_entries_app l1 l2 s :
  walk_entries fn (l1 ++ l2) s =
  match walk_entries fn l1 s with
  | (Some err, s1) => (Some err, s1)
  | (None, s1) => walk_entries fn l2 s1
  end.
Proof.
  revert s. induction l1 as [|[p d] l1 IH]; intros s; [done|].
  simpl. destruct (fn p (Some d) None s) as [[err|] s1]; [done|]. apply IH.
Qed.

Hypothesis fn_plain :
  ∀ p d e s err s', fn p d e s = (Some err, s') → plain_error err = true.

Lemma walk_entries_plain l s err s' :
  walk_entries fn l s = (Some err, s') → plain_error err = true.
Proof.
  revert s. induction l as [|[p d] l IH]; intros s; [done|].
  simpl. destruct (fn p (Some d) None s) as [[e|] s1] eqn:E; [|apply IH].
  intros ?; simplify_eq. eauto.
Qed.

Lemma plain_error_SkipDir err : plain_error err = true → is_SkipDir err = false.
Proof. unfold plain_error. by destruct err. Qed.

Lemma plain_error_SkipAll err : plain_error err = true → is_SkipAll err = false.
Proof. unfold plain_error. by destruct err. Qed.

(** A walk whose callback never answers with a sentinel calls it on
    the entries of the subtree in order, up to the first error. *)
Lemma walkDir_entries d : ∀ name s,
  walkDir fn name d s = walk_entries fn (raw_entries name d) s.
Proof.
  induction d as [n data|n entries IH] using Asset_ind_nested; intros name s.
  - simpl. destruct (fn name _ None s) as [[err|] s1] eqn:E; [|done].
    by rewrite andb_false_r.
  - cbn [walkDir raw_entries walk_entries].
    destruct (fn name _ None s) as [[err|] s1] eqn:E.
    { by rewrite (plain_error_SkipDir err) by eauto. }
    clear E. revert s1. induction IH as [|d1 rest Hd1 _ IHrest]; intros s1; [done|].
    cbn [flat_map]. rewrite walk_entries_app, <- Hd1.
    destruct (walkDir fn _ d1 s1) as [[err|] s2] eqn:E1.
    + rewrite Hd1 in E1. by rewrite (plain_error_SkipDir err)
        by eauto using walk_entries_plain.
    + apply IHrest.
Qed.

End walk_lemmas.

(** ** The entries of a well-formed tree *)

Section tree_lemmas.

Lemma wf_asset_inv a :
  wf_asset a = true → valid_name (asset_name a) = true ∧ wf_below a = true.
Proof.
  destruct a as [n data|n es]; simpl.
  - rewrite andb_true_r. auto.
  - rewrite !andb_true_iff. tauto.
Qed.

Lemma wf_asset_NoDup n es :
  wf_asset (ADir n es) = true → NoDup (map asset_name es).
Proof. simpl. rewrite !andb_true_iff, bool_decide_eq_true. tauto. Qed.

Lemma flat_map_map {A B C} (f : B → C) (g : A → list B) (l : list A) :
  flat_map (λ x, map f (g x)) l = map f (flat_map g l).
Proof. induction l as [|x l IH]; [done|]. simpl. by rewrite IH, map_app. Qed.

Lemma flat_map_ext_Forall {A B} (f g : A → list B) (l : list A) :
  Forall (λ x, f x = g x) l → flat_map f l = flat_map g l.
Proof. induction 1 as [|x l Hx _ IH]; [done|]. simpl. by rewrite Hx, IH. Qed.

(** The paths the walk computes are the names joined with slashes. *)
Lemma raw_entries_wf d : ∀ P,
  wf_below d = true → P ≠ [] → valid_names P →
  raw_entries (strings.JoinSlash P) d = map path_of (subtree_entries P d).
Proof.
  induction d as [n data|n es IH] using Asset_ind_nested; intros P Hwf Hne HP; [done|].
  cbn [raw_entries subtree_entries map]. f_equal.
  rewrite <- flat_map_map. apply flat_map_ext_Forall.
  simpl in Hwf. rewrite forallb_forall in Hwf.
  rewrite Forall_forall in IH. apply Forall_forall. intros c Hc.
  destruct (wf_asset_inv c) as [Hn Hb]; [apply Hwf; by apply list_elem_of_In|].
  rewrite Join_name by done.
  apply IH; [done|done|by destruct P|]. apply Forall_app. auto.
Qed.

Lemma subtree_entries_shift P c : ∀ k,
  subtree_entries (P ++ k) c
  = map (λ ke, (P ++ ke.1, ke.2)) (subtree_entries k c).
Proof.
  induction c as [n data|n es IH] using Asset_ind_nested; intros k; [done|].
  cbn [subtree_entries map]. f_equal.
  rewrite <- flat_map_map. apply flat_map_ext_Forall.
  eapply Forall_impl; [exact IH|]. intros c Hc. simpl. by rewrite <- app_assoc, Hc.
Qed.

Lemma entries_under_shift P es :
  flat_map (λ c, subtree_entries (P ++ [asset_name c]) c) es
  = map (λ ke, (P ++ ke.1, ke.2)) (entries_under es).
Proof.
  unfold entries_under. rewrite <- flat_map_map.
  apply flat_map_ext_Forall, Forall_forall. intros c _.
  apply subtree_entries_shift.
Qed.

(** Every path in a subtree is the path of its root followed by
    names. *)
Lemma subtree_entries_keys c : ∀ key k e,
  wf_below c = true → (k, e) ∈ subtree_entries key c →
  ∃ suffix, k = key ++ suffix ∧ valid_names suffix.
Proof.
  induction c as [n data|n es IH] using Asset_ind_nested; intros key k e Hwf Hin.
  - apply list_elem_of_singleton in Hin. simplify_eq. exists []. by rewrite app_nil_r.
  - cbn [subtree_entries] in Hin. apply elem_of_cons in Hin as [?|Hin].
    { simplify_eq. exists []. by rewrite app_nil_r. }
    apply list_elem_of_In, in_flat_map in Hin as (c & Hc & Hin).
    simpl in Hwf. rewrite forallb_forall in Hwf.
    destruct (wf_asset_inv c) as [Hn Hb]; [by apply Hwf|].
    rewrite Forall_forall in IH.
    destruct (IH c (proj2 (list_elem_of_In _ _) Hc) _ _ _ Hb
                (proj2 (list_elem_of_In _ _) Hin)) as (suf & -> & Hsuf).
    exists (asset_name c :: suf). rewrite <- app_assoc. split; [done|].
    by constructor.
Qed.

Lemma entries_under_keys es k e :
  forallb wf_asset es = true → (k, e) ∈ entries_under es →
  k ≠ [] ∧ valid_names k.
Proof.
  intros Hwf Hin. unfold entries_under in Hin.
  apply list_elem_of_In, in_flat_map in Hin as (c & Hc & Hin).
  rewrite forallb_forall in Hwf.
  destruct (wf_asset_inv c) as [Hn Hb]; [by apply Hwf|].
  destruct (subtree_entries_keys c _ _ _ Hb (proj2 (list_elem_of_In _ _) Hin))
    as (suf & -> & Hsuf).
  split; [done|]. by constructor.
Qed.

End tree_lemmas.

Section template_walk.
Context {St : Type}.
Variable fn : @WalkDirFunc St.
Hypothesis fn_plain :
  ∀ p d e s err s', fn p d e s = (Some err, s') → plain_error err = true.

Lemma JoinSlash_app_ne P k :
  P ≠ [] → k ≠ [] → valid_names P → valid_names k →
  strings.JoinSlash (P ++ k) ≠ strings.JoinSlash P.
Proof.
  intros HP Hk HvP Hvk E. apply (f_equal strings.SplitSlash) in E.
  assert (valid_names (P ++ k)) as HvPk by by apply Forall_app.
  rewrite (strings_SplitSlash_JoinSlash P) in E;
    [|done|by apply valid_names_slash_free].
  rewrite (strings_SplitSlash_JoinSlash (P ++ k)) in E;
    [|by destruct P|by apply valid_names_slash_free].
  apply Hk. apply (app_inv_head P). by rewrite app_nil_r.
Qed.

(** The callback of [TemplateManager.Walk] on an entry below the
    prefix. *)
Lemma Walk_callback tm P k d s :
  tm_prefix tm = strings.JoinSlash P → P ≠ [] → valid_names P →
  k ≠ [] → valid_names k →
  TemplateManager.walkFn tm fn (strings.JoinSlash (P ++ k)) d None s
  = fn (strings.JoinSlash k) d None s.
Proof.
  intros HP Hne HvP Hk Hvk. unfold TemplateManager.walkFn. rewrite HP.
  rewrite bool_decide_eq_false_2 by by apply JoinSlash_app_ne.
  rewrite JoinSlash_app by done.
  rewrite <- (append_assoc (strings.JoinSlash P) "/"), TrimPrefix_app.
  case_bool_decide as E; [by rewrite <- E|done].
Qed.

(** On a well-formed tree [Walk] calls the callback on the entries
    below the prefix, in order, with their paths from the prefix. *)
Lemma Walk_entries tm P s :
  tm_prefix tm = strings.JoinSlash P → P ≠ [] → valid_names P →
  (∀ a, embed.Open (tm_fs tm) (tm_prefix tm) = inr a → wf_below a = true) →
  is_Some (match embed.Open (tm_fs tm) (tm_prefix tm) with
           | inr a => Some a | inl _ => None end) →
  TemplateManager.Walk tm fn s
  = walk_entries fn (map path_of (template_entries tm)) s.
Proof.
  intros HP Hne HvP Hwf [a Ha]. unfold TemplateManager.Walk, WalkDir, template_entries.
  destruct (embed.Open (tm_fs tm) (tm_prefix tm)) as [|a'] eqn:Eo; [done|].
  simplify_eq. specialize (Hwf _ eq_refl).
  rewrite walkDir_entries; last first.
  { intros p d [e|] s0 err s'; unfold TemplateManager.walkFn; [by apply fn_plain|].
    case_bool_decide; [done|]. by apply fn_plain. }
  rewrite HP. rewrite raw_entries_wf by done.
  set (wfn := TemplateManager.walkFn tm fn).
  assert (∀ l s, (∀ k e, (k, e) ∈ l → k ≠ [] ∧ valid_names k) →
            walk_entries wfn (map path_of (map (λ ke, (P ++ ke.1, ke.2)) l)) s
            = walk_entries fn (map path_of l) s) as Hl.
  { clear s. induction l as [|[k e] l IH]; intros s Hkeys; [done|].
    destruct (Hkeys k e) as [Hk Hvk]; [by left|].
    cbn [map walk_entries fst snd]. unfold path_of at 1 3.
    cbn [walk_entries fst snd]. unfold wfn at 1.
    rewrite (Walk_callback tm P k) by done.
    destruct (fn _ _ None s) as [[err|] s1]; [done|].
    apply IH. intros k' e' ?. apply (Hkeys k' e'). by right. }
  assert (∀ d s, wfn (strings.JoinSlash P) d None s = (None, s)) as Hroot.
  { intros d s0. unfold wfn, TemplateManager.walkFn. rewrite HP.
    by rewrite bool_decide_eq_true_2. }
  destruct a as [n data|n es].
  - cbn [subtree_entries map]. unfold path_of. cbn [walk_entries fst snd].
    by rewrite Hroot.
  - cbn [subtree_entries map]. unfold path_of at 1. cbn [walk_entries fst snd].
    rewrite Hroot.
    rewrite entries_under_shift, Hl by (intros k e ?; by apply (entries_under_keys es k e)).
    destruct (walk_entries fn _ s) as [[err|] s1] eqn:E; [|done].
    apply walk_entries_plain in E; [|done].
    by rewrite plain_error_SkipDir, plain_error_SkipAll.
Qed.

End template_walk.

(** ** The engine, entry by entry *)

Section engine_lemmas.

Ltac break_match :=
  repeat match goal with
    | |- context [match ?x with _ => _ end] => destruct x eqn:?
    end.

Lemma mkdir_at_plain k perm o err o' :
  os.mkdir_at k perm o = (Some err, o') → plain_error err = true.
Proof. unfold os.mkdir_at. break_match; by intros ?; simplify_eq. Qed.

Lemma mkdir_all_plain rk perm o err o' :
  os.mkdir_all rk perm o = (Some err, o') → plain_error err = true.
Proof.
  revert err o'. induction rk as [|x rk IH]; intros err o'.
  - simpl. break_match; by intros ?; simplify_eq.
  - cbn [os.mkdir_all].
    destruct (os.node_at o (rev (x :: rk))) as [[]|]; [by intros ?; simplify_eq..|].
    destruct (os.mkdir_all rk perm o) as [[e1|] o1] eqn:E1.
    + intros ?; simplify_eq. eauto.
    + destruct (os.mkdir_at _ _ _) as [[e2|] o2] eqn:E2; [|by intros ?; simplify_eq].
      apply mkdir_at_plain in E2. break_match; by intros ?; simplify_eq.
Qed.

Lemma write_at_plain op k data perm o err o' :
  os.write_at op k data perm o = (Some err, o') → plain_error err = true.
Proof. unfold os.write_at. break_match; by intros ?; simplify_eq. Qed.

Lemma Stat_plain o p err : os.Stat o p = inl err → plain_error err = true.
Proof. rewrite Stat_node. break_match; by intros ?; simplify_eq. Qed.

Lemma port_CreateDir_plain f p perm o err o' :
  FileSystem.CreateDir f p perm o = (Some err, o') → plain_error err = true.
Proof.
  destruct f as [|w]; cbn [FileSystem.CreateDir].
  - rewrite OS_CreateDir_cases. unfold os.MkdirAll.
    break_match; try (by intros ?; simplify_eq). apply mkdir_all_plain.
  - rewrite port_Stat.
    destruct (FileSystem.Exists _ _ _); [|by intros ?; simplify_eq].
    destruct (os.Stat o p) as [e|info] eqn:E.
    + apply Stat_plain in E. by intros ?; simplify_eq.
    + destruct (negb (os.IsDir info)); by intros ?; simplify_eq.
Qed.

Lemma port_CreateFile_plain f p content perm o err o' :
  FileSystem.CreateFile f p content perm o = (Some err, o') → plain_error err = true.
Proof.
  destruct f as [|w]; cbn [FileSystem.CreateFile].
  - rewrite OS_CreateFile_cases.
    destruct (os.node_at o (os.resolve o p)) as [[]|]; [by intros ?; simplify_eq..|].
    destruct (OSFileSystem.CreateDir _ _ _) as [[e1|] o1]; [by intros ?; simplify_eq|].
    apply write_at_plain.
  - rewrite port_Stat.
    destruct (FileSystem.Exists _ _ _); [|by intros ?; simplify_eq].
    destruct (os.Stat o p) as [e|info] eqn:E.
    + apply Stat_plain in E. by intros ?; simplify_eq.
    + destruct (os.IsDir info); by intros ?; simplify_eq.
Qed.

Lemma same_setup_refl e : same_setup e e.
Proof. by destruct e. Qed.

Lemma same_setup_trans e1 e2 e3 : same_setup e1 e2 → same_setup e2 e3 → same_setup e1 e3.
Proof. unfold same_setup. intros -> ->. by destruct e1. Qed.

Lemma same_setup_fields e e' :
  same_setup e e' →
  config e' = config e ∧ fs e' = fs e ∧ tmpl e' = tmpl e ∧ templateFS e' = templateFS e.
Proof. by intros ->. Qed.

(** The results of [processDirectory], by what is at the target. *)
Lemma processDirectory_cases targetPath e o :
  Engine.processDirectory targetPath (e, o) =
  match os.node_at o (os.resolve o targetPath) with
  | Some (os.Dir _) => (None, (Engine.incr_DirsSkipped e, o))
  | Some (os.File _ _) =>
      let err := Errorf1 "path exists but is not a directory: %s" targetPath in
      (Some err, (Engine.append_error e err, o))
  | None =>
      match FileSystem.CreateDir (fs e) targetPath mode_0755 o with
      | (Some err, o1) => (Some err, (Engine.append_error e err, o1))
      | (None, o1) => (None, (Engine.incr_DirsCreated e, o1))
      end
  end.
Proof.
  unfold Engine.processDirectory. rewrite port_Exists, port_Stat, Exists_node, Stat_node.
  destruct (os.node_at o (os.resolve o targetPath)) as [[]|]; [done..|].
  rewrite bool_decide_eq_false_2; [done|]. by intros [].
Qed.

Lemma processFile_cases sourcePath targetPath e o :
  Engine.processFile sourcePath targetPath (e, o) =
  match os.node_at o (os.resolve o targetPath) with
  | Some (os.Dir _) =>
      let err := Errorf1 "path exists but is a directory: %s" targetPath in
      (Some err, (Engine.append_error e err, o))
  | Some (os.File _ _) => (None, (Engine.incr_FilesSkipped e, o))
  | None =>
      match TemplateManager.ReadFile (tmpl e) sourcePath with
      | inl err => (Some err, (Engine.append_error e err, o))
      | inr content =>
          match FileSystem.CreateFile (fs e) targetPath content
                  (TemplateManager.GetDefaultFileMode (tmpl e) sourcePath) o with
          | (Some err, o1) => (Some err, (Engine.append_error e err, o1))
          | (None, o1) => (None, (Engine.incr_FilesCreated e, o1))
          end
      end
  end.
Proof.
  unfold Engine.processFile. rewrite port_Exists, port_Stat, Exists_node, Stat_node.
  destruct (os.node_at o (os.resolve o targetPath)) as [[]|]; [done..|].
  rewrite bool_decide_eq_false_2; [done|]. by intros [].
Qed.

Lemma walkFn_plain p d e s err s' :
  Engine.walkFn p d e s = (Some err, s') → plain_error err = true.
Proof.
  destruct s as [en o]. unfold Engine.walkFn.
  destruct e as [e0|]; [by intros ?; simplify_eq|].
  assert (∀ src tgt, Engine.processFile src tgt (en, o) = (Some err, s') →
            plain_error err = true) as Hfile.
  { intros src tgt. rewrite processFile_cases. cbv zeta.
    destruct (os.node_at o (os.resolve o tgt)) as [[]|]; [by intros ?; simplify_eq..|].
    unfold TemplateManager.ReadFile.
    destruct (embed.ReadFile _ _); [by intros ?; simplify_eq|].
    destruct (FileSystem.CreateFile _ _ _ _ _) as [[e1|] o1] eqn:E1;
      [|by intros ?; simplify_eq].
    apply port_CreateFile_plain in E1. by intros ?; simplify_eq. }
  destruct d as [d|]; [|apply Hfile].
  destruct (IsDir d); [|apply Hfile].
  rewrite processDirectory_cases. cbv zeta.
  destruct (os.node_at o (os.resolve o _)) as [[]|]; [by intros ?; simplify_eq..|].
  destruct (FileSystem.CreateDir _ _ _ _) as [[e1|] o1] eqn:E1;
    [|by intros ?; simplify_eq].
  apply port_CreateDir_plain in E1. by intros ?; simplify_eq.
Qed.

(** A step keeps every node of the host and the setup of the engine. *)
Lemma walkFn_extends p d err e o r e' o' :
  Engine.walkFn p d err (e, o) = (r, (e', o')) → same_setup e e' ∧ extends o o'.
Proof.
  unfold Engine.walkFn.
  destruct err as [e0|]; [intros ?; simplify_eq; split; [by destruct e|apply extends_refl]|].
  assert (∀ src tgt, Engine.processFile src tgt (e, o) = (r, (e', o')) →
            same_setup e e' ∧ extends o o') as Hfile.
  { intros src tgt. rewrite processFile_cases. cbv zeta.
    destruct (os.node_at o (os.resolve o tgt)) as [[]|];
      [intros ?; simplify_eq; split; [by destruct e|apply extends_refl]..|].
    destruct (TemplateManager.ReadFile _ _);
      [intros ?; simplify_eq; split; [by destruct e|apply extends_refl]|].
    destruct (FileSystem.CreateFile _ _ _ _ _) as [[e1|] o1] eqn:E1;
      apply port_CreateFile_extends in E1; intros ?; simplify_eq;
      (split; [by destruct e|done]). }
  destruct d as [d|]; [|apply Hfile].
  destruct (IsDir d); [|apply Hfile].
  rewrite processDirectory_cases. cbv zeta.
  destruct (os.node_at o (os.resolve o _)) as [[]|];
    [intros ?; simplify_eq; split; [by destruct e|apply extends_refl]..|].
  destruct (FileSystem.CreateDir _ _ _ _) as [[e1|] o1] eqn:E1;
    apply port_CreateDir_extends in E1; intros ?; simplify_eq;
    (split; [by destruct e|done]).
Qed.

End engine_lemmas.

(** ** Whole walks and runs *)

Section run_lemmas.

Lemma walk_entries_invariant {St} (fn : @WalkDirFunc St) (R : St → St → Prop) :
  (∀ s, R s s) → (∀ s1 s2 s3, R s1 s2 → R s2 s3 → R s1 s3) →
  (∀ p d e s r s', fn p d e s = (r, s') → R s s') →
  ∀ l s r s', walk_entries fn l s = (r, s') → R s s'.
Proof.
  intros Hrefl Htrans Hfn. induction l as [|[p d] l IH]; intros s r s' H.
  - simpl in H. by simplify_eq.
  - simpl in H. destruct (fn p (Some d) None s) as [[err|] s1] eqn:E.
    + simplify_eq. eauto.
    + eapply Htrans; eauto.
Qed.

Lemma Walk_invariant {St} (fn : @WalkDirFunc St) (R : St → St → Prop) tm :
  (∀ s, R s s) → (∀ s1 s2 s3, R s1 s2 → R s2 s3 → R s1 s3) →
  (∀ p d e s r s', fn p d e s = (r, s') → R s s') →
  (∀ p d e s err s', fn p d e s = (Some err, s') → plain_error err = true) →
  ∀ s r s', TemplateManager.Walk tm fn s = (r, s') → R s s'.
Proof.
  intros Hrefl Htrans Hfn Hplain s r s'.
  assert (∀ p d e s r s', TemplateManager.walkFn tm fn p d e s = (r, s') → R s s')
    as Hw.
  { intros p d [e|] s0 r0 s0'; unfold TemplateManager.walkFn; [by apply Hfn|].
    case_bool_decide; [intros ?; by simplify_eq|]. by apply Hfn. }
  unfold TemplateManager.Walk, WalkDir.
  destruct (embed.Open _ _) as [err|a].
  - destruct (TemplateManager.walkFn tm fn _ None (Some err) s) as [r1 s1] eqn:E.
    apply Hw in E. destruct r1 as [e1|]; [|by intros ?; simplify_eq].
    destruct (_ || _); by intros ?; simplify_eq.
  - rewrite walkDir_entries; last first.
    { intros p d [e|] s0 err s0'; unfold TemplateManager.walkFn; [by apply Hplain|].
      case_bool_decide; [done|]. by apply Hplain. }
    destruct (walk_entries _ _ s) as [r1 s1] eqn:E.
    eapply walk_entries_invariant in E; [|done..].
    destruct r1 as [e1|]; [|by intros ?; simplify_eq].
    destruct (_ || _); by intros ?; simplify_eq.
Qed.

(** A run keeps every node of the host. *)
Lemma Run_extends e o r e' o' :
  Engine.Run (e, o) = (r, (e', o')) → same_setup e e' ∧ extends o o'.
Proof.
  unfold Engine.Run. cbn [fst].
  destruct (negb _); [intros ?; simplify_eq; split;
                      [apply same_setup_refl|apply extends_refl]|].
  destruct (TemplateManager.Walk _ _ _) as [r1 [e1 o1]] eqn:E.
  apply (Walk_invariant Engine.walkFn
           (λ s s', same_setup s.1 s'.1 ∧ extends s.2 s'.2)) in E.
  - cbn [fst snd] in E. destruct r1; [by intros ?; simplify_eq|].
    case_bool_decide; by intros ?; simplify_eq.
  - intros s. split; [apply same_setup_refl|apply extends_refl].
  - intros s1 s2 s3 [? ?] [? ?].
    split; [by eapply same_setup_trans|by eapply extends_trans].
  - intros p d err [e0 o0] r0 [e0' o0'] H. by eapply walkFn_extends.
  - apply walkFn_plain.
Qed.

Lemma Open_claude_wf f a :
  wf_fs f = true → embed.Open f ".claude" = inr a → wf_asset a = true.
Proof.
  intros Hwf. unfold embed.Open.
  change (embed.ValidPath ".claude") with true.
  change (strings.SplitSlash ".claude") with [".claude"].
  cbn [negb bool_decide decide_rel embed.descend].
  rewrite bool_decide_eq_false_2 by done.
  cbn [embed.descend]. unfold embed.find_entry.
  destruct (find _ _) as [c|] eqn:E; [|done].
  intros ?; simplify_eq. apply find_some in E as [Hin _].
  unfold wf_fs in Hwf. simpl in Hwf.
  apply andb_true_iff in Hwf as [_ Hwf].
  rewrite forallb_forall in Hwf. by apply Hwf.
Qed.

Lemma valid_names_claude : valid_names [".claude"].
Proof. by repeat constructor. Qed.

(** The walk of the engine over a well-formed embedded tree. *)
Lemma Engine_Walk_entries assets (st : Engine.State) :
  wf_fs assets = true →
  TemplateManager.HasTemplates (NewTemplateManager assets ".claude") = true →
  TemplateManager.Walk (NewTemplateManager assets ".claude") Engine.walkFn st
  = walk_entries Engine.walkFn
      (map path_of (template_entries (NewTemplateManager assets ".claude"))) st.
Proof.
  intros Hwf Hhas.
  apply (Walk_entries Engine.walkFn walkFn_plain _ [".claude"]);
    [done|done|apply valid_names_claude| |].
  - intros a Ha. simpl in Ha. by apply wf_asset_inv, (Open_claude_wf assets).
  - unfold TemplateManager.HasTemplates, embed.ReadDir in Hhas. simpl in *.
    destruct (embed.Open assets ".claude"); [done|by eexists].
Qed.

End run_lemmas.

(** ** The claims *)

Lemma walkFn_counts p d e o e' o' :
  Engine.walkFn p (Some d) None (e, o) = (None, (e', o')) →
  FilesCreated (stats e') + FilesSkipped (stats e')
  = FilesCreated (stats e) + FilesSkipped (stats e) + (if IsDir d then 0 else 1) ∧
  DirsCreated (stats e') + DirsSkipped (stats e')
  = DirsCreated (stats e) + DirsSkipped (stats e) + (if IsDir d then 1 else 0).
Proof.
  unfold Engine.walkFn. destruct (IsDir d).
  - rewrite processDirectory_cases. cbv zeta.
    destruct (os.node_at o _) as [[]|]; [done| |].
    + intros ?; simplify_eq. simpl. lia.
    + destruct (FileSystem.CreateDir _ _ _ _) as [[e1|] o1]; [done|].
      intros ?; simplify_eq. simpl. lia.
  - rewrite processFile_cases. cbv zeta.
    destruct (os.node_at o _) as [[]|]; [|done|].
    + intros ?; simplify_eq. simpl. lia.
    + destruct (TemplateManager.ReadFile _ _); [done|].
      destruct (FileSystem.CreateFile _ _ _ _ _) as [[e1|] o1]; [done|].
      intros ?; simplify_eq. simpl. lia.
Qed.

Lemma walk_entries_counts l : ∀ e o e' o',
  walk_entries Engine.walkFn (map path_of l) (e, o) = (None, (e', o')) →
  FilesCreated (stats e') + FilesSkipped (stats e')
  = FilesCreated (stats e) + FilesSkipped (stats e) + count_files l ∧
  DirsCreated (stats e') + DirsSkipped (stats e')
  = DirsCreated (stats e) + DirsSkipped (stats e) + count_dirs l.
Proof.
  induction l as [|[k d] l IH]; intros e o e' o' H.
  - simpl in H. simplify_eq. unfold count_files, count_dirs. simpl. lia.
  - cbn [map path_of walk_entries fst snd] in H.
    destruct (Engine.walkFn _ _ None (e, o)) as [[err|] [e1 o1]] eqn:E; [done|].
    apply walkFn_counts in E as [E1 E2]. apply IH in H as [H1 H2].
    unfold count_files, count_dirs in *. cbn [List.filter snd].
    destruct (IsDir d); simpl; lia.
Qed.

(** C6. For an asset source with F file entries and D directory
    entries, a run that completes without a fatal abort ends with
    files-created + files-skipped = F and directories-created +
    directories-skipped = D. *)
Theorem C6_counts_sum_to_entries (embedded : embed.FS) (cfg : Config) (o : OS) :
  wf_fs embedded = true →
  completed (Engine.Run (NewEngine embedded cfg, o)).1 = true →
  let s := stats (Engine.Run (NewEngine embedded cfg, o)).2.1 in
  let entries := template_entries (NewTemplateManager embedded ".claude") in
  FilesCreated s + FilesSkipped s = count_files entries ∧
  DirsCreated s + DirsSkipped s = count_dirs entries.
Proof.
  intros Hwf. unfold Engine.Run. cbn [fst NewEngine tmpl].
  destruct (TemplateManager.HasTemplates _) eqn:Hhas; [|done]. cbn [negb].
  rewrite Engine_Walk_entries by done.
  destruct (walk_entries _ _ _) as [[err|] [e1 o1]] eqn:E; [done|].
  intros _. apply walk_entries_counts in E as [E1 E2].
  cbn [stats FilesCreated FilesSkipped DirsCreated DirsSkipped] in E1, E2.
  by case_bool_decide.
Qed.

Lemma C6_counts_sum_to_entries_witness :
  wf_fs Examples.assets = true ∧
  completed (Engine.Run (NewEngine Examples.assets (Examples.cfg false),
                         Examples.with_commands)).1 = true ∧
  let s := stats (Engine.Run (NewEngine Examples.assets (Examples.cfg false),
                              Examples.with_commands)).2.1 in
  FilesCreated s + FilesSkipped s = 2 ∧ DirsCreated s + DirsSkipped s = 1.
Proof.
  split; [reflexivity|]. split; [vm_compute; reflexivity|].
  apply (C6_counts_sum_to_entries Examples.assets (Examples.cfg false)
           Examples.with_commands); vm_compute; reflexivity.
Defined.

(** C4. Every file or directory that exists before a run is there
    after it with the same kind, mode and content, whatever the run
    does; and a file that exists at the destination is skipped for its
    existence alone: the template is not read and the content of the
    file is not looked at. *)
Theorem C4_existing_entries_unchanged :
  (∀ (st : Engine.State) (k : list string) (n : os.Node),
     os.node_at st.2 k = Some n → os.node_at (Engine.Run st).2.2 k = Some n) ∧
  (∀ (e : Engine) (o : OS) (sourcePath targetPath : string) mode content,
     os.node_at o (os.resolve o targetPath) = Some (os.File mode content) →
     Engine.processFile sourcePath targetPath (e, o)
     = (None, (Engine.incr_FilesSkipped e, o))).
Proof.
  split.
  - intros [e o] k n Hk. destruct (Engine.Run (e, o)) as [r [e' o']] eqn:E.
    apply Run_extends in E as [_ [_ Hext]]. by apply Hext.
  - intros e o src tgt mode content H. by rewrite processFile_cases, H.
Qed.

Lemma C4_existing_entries_unchanged_witness :
  os.node_at Examples.with_settings ["t"; ".claude"; "settings.json"]
  = Some (os.File mode_0644 (Examples.b "mine")) ∧
  os.node_at (Engine.Run (NewEngine Examples.assets (Examples.cfg false),
                          Examples.with_settings)).2.2
    ["t"; ".claude"; "settings.json"]
  = Some (os.File mode_0644 (Examples.b "mine")) ∧
  Engine.processFile "settings.json" "/t/.claude/settings.json"
    (NewEngine Examples.assets (Examples.cfg false), Examples.with_settings)
  = (None, (Engine.incr_FilesSkipped (NewEngine Examples.assets (Examples.cfg false)),
            Examples.with_settings)).
Proof.
  split; [reflexivity|]. split.
  - apply (proj1 C4_existing_entries_unchanged
             (NewEngine Examples.assets (Examples.cfg false), Examples.with_settings)).
    reflexivity.
  - apply (proj2 C4_existing_entries_unchanged _ _ _ _ mode_0644 (Examples.b "mine")).
    reflexivity.
Defined.

(** C9. When the asset tree under the prefix is missing or empty,
    [HasTemplates] answers false, and [Run] returns the no-templates
    error at once: no entry is processed, the statistics and the host
    are as they were. *)
Theorem C9_no_templates_is_fatal (st : Engine.State) :
  no_templates (tmpl st.1) →
  TemplateManager.HasTemplates (tmpl st.1) = false ∧
  Engine.Run st
  = (Some (Errorf0 "no template files found in embedded .claude directory"), st).
Proof.
  intros Hno.
  assert (TemplateManager.HasTemplates (tmpl st.1) = false) as Hhas.
  { unfold no_templates in Hno. unfold TemplateManager.HasTemplates, embed.ReadDir.
    destruct (embed.Open _ _) as [|[|n es]]; [done..|]. by subst. }
  split; [done|]. unfold Engine.Run. by rewrite Hhas.
Qed.

Lemma C9_no_templates_is_fatal_witness :
  no_templates (tmpl (NewEngine Examples.no_assets (Examples.cfg false))) ∧
  TemplateManager.HasTemplates (tmpl (NewEngine Examples.no_assets (Examples.cfg false)))
  = false ∧
  Engine.Run (NewEngine Examples.no_assets (Examples.cfg false), Examples.empty_target)
  = (Some (Errorf0 "no template files found in embedded .claude directory"),
     (NewEngine Examples.no_assets (Examples.cfg false), Examples.empty_target)).
Proof.
  split; [exact I|].
  apply (C9_no_templates_is_fatal
           (NewEngine Examples.no_assets (Examples.cfg false), Examples.empty_target)).
  exact I.
Defined.

(** ** Resolved paths *)

Section resolve_lemmas.

Lemma SplitSlash_slash_free s : Forall slash_free (strings.SplitSlash s).
Proof.
  induction s as [|c s IH]; [by repeat constructor|].
  simpl. destruct (Ascii.eqb c "/") eqn:Ec; [by constructor|].
  destruct (strings.SplitSlash s) as [|h r]; [by constructor; [unfold slash_free; simpl; rewrite Ec|]|].
  apply Forall_cons in IH as [Hh Hr]. constructor; [|done].
  unfold slash_free in *. simpl. by rewrite Ec, Hh.
Qed.

Lemma clean_step_rooted_valid stack e :
  valid_names stack → slash_free e → valid_names (path.clean_step true stack e).
Proof.
  intros Hs He. unfold path.clean_step.
  destruct (decide (e = "" ∨ e = ".")) as [|Hn]; [done|].
  destruct (decide (e = "..")) as [->|Hd].
  - destruct Hs as [|top rest Ht Hr]; [done|].
    destruct (decide (top = "..")) as [->|]; [done|done].
  - constructor; [|done]. apply valid_name_spec. naive_solver.
Qed.

Lemma clean_elems_rooted_valid l :
  Forall slash_free l → valid_names (path.clean_elems true l).
Proof.
  intros Hl. unfold path.clean_elems, path.clean_stack.
  apply Forall_rev.
  assert (∀ stack, valid_names stack →
            valid_names (fold_left (path.clean_step true) l stack)) as H.
  { induction Hl as [|e l He Hl IH]; intros stack Hs; [done|].
    simpl. by apply IH, clean_step_rooted_valid. }
  by apply H.
Qed.

Lemma resolve_valid o p : valid_names (os.resolve o p).
Proof. apply clean_elems_rooted_valid, SplitSlash_slash_free. Qed.

Lemma IsAbs_append a b : path.IsAbs a = true → path.IsAbs (a +:+ b) = true.
Proof.
  unfold path.IsAbs, strings.HasPrefix. destruct a as [|c a]; [done|].
  rewrite append_cons. change "/" with (String "/"%char "").
  rewrite !cut_prefix_cons. by destruct (Ascii.eqb "/" c).
Qed.

(** [filepath.Abs] gives the clean absolute path of what the host
    resolves. *)
Lemma Abs_key_path o p :
  path.IsAbs (os.wd o) = true →
  filepath.Abs (os.wd o) p = os.key_path (os.resolve o p).
Proof.
  intros Hwd. unfold filepath.Abs, os.resolve, filepath.IsAbs, filepath.Clean.
  destruct (path.IsAbs p) eqn:Hp; [by apply Clean_abs|].
  unfold filepath.Join. rewrite Join_cons_nonempty by (by destruct (os.wd o)).
  change (strings.JoinSlash [os.wd o; p]) with (os.wd o +:+ "/" +:+ p).
  apply Clean_abs. by apply IsAbs_append.
Qed.

End resolve_lemmas.

(** C8. The host port.  On a directory [CreateDir] succeeds and
    changes nothing and [CreateFile] fails with the is-a-directory
    error; on another node [CreateDir] fails with the not-a-directory
    error and [CreateFile] succeeds and changes nothing; and where
    nothing exists, on a well-formed host none of whose nodes above the
    path is a regular file, [CreateFile] makes the missing directories
    above the path and writes the file with the whole content, leaving
    every other path as it was. *)
Theorem C8_host_port (o : OS) (p : string) (perm : FileMode) (content : bytes) :
  (∀ m, os.node_at o (os.resolve o p) = Some (os.Dir m) →
     OSFileSystem.CreateDir p perm o = (None, o) ∧
     OSFileSystem.CreateFile p content perm o
     = (Some (Errorf1 "path exists but is a directory: %s" p), o)) ∧
  (∀ m d, os.node_at o (os.resolve o p) = Some (os.File m d) →
     OSFileSystem.CreateDir p perm o
     = (Some (Errorf1 "path exists but is not a directory: %s" p), o) ∧
     OSFileSystem.CreateFile p content perm o = (None, o)) ∧
  (∀ K, p = os.key_path K → valid_names K → wf_os o →
     os.node_at o K = None →
     (∀ q m d, q `prefix_of` K → os.node_at o q ≠ Some (os.File m d)) →
     ∃ o', OSFileSystem.CreateFile p content perm o = (None, o') ∧
           os.node_at o' K = Some (os.File perm content) ∧
           (∀ q, q `prefix_of` K → q ≠ K → ∃ m, os.node_at o' q = Some (os.Dir m)) ∧
           (∀ k, ¬ k `prefix_of` K → os.node_at o' k = os.node_at o k) ∧
           extends o o').
Proof.
  split_and!.
  - intros m Hk. by rewrite OS_CreateDir_cases, OS_CreateFile_cases, Hk.
  - intros m d Hk. by rewrite OS_CreateDir_cases, OS_CreateFile_cases, Hk.
  - intros K -> HK Hwf Hk Hfree.
    destruct (OSFileSystem.CreateFile _ content perm o) as [r o'] eqn:E.
    apply OS_CreateFile_key in E as (Hg & Hwf' & Hok & Hfail); [|done..].
    destruct r as [err|].
    { destruct Hfail as (q & m & d & Hq & Hf); [done|].
      destruct (Hfree q m d); [|done]. etrans; [done|apply removelast_prefix]. }
    exists o'. split_and!; [done|by apply Hok| | |by eapply grows_within_extends].
    + intros q Hq Hne. eapply wf_os_prefix; [by apply Hwf'| |done..].
      by rewrite Hok.
    + intros k Hnk. destruct Hg as [_ Hg]. by destruct (Hg k) as [?|[? _]].
Qed.

Lemma C8_host_port_witness :
  os.node_at Examples.with_commands (os.resolve Examples.with_commands "/t/.claude/commands")
  = Some (os.Dir mode_0755) ∧
  OSFileSystem.CreateDir "/t/.claude/commands" mode_0755 Examples.with_commands
  = (None, Examples.with_commands) ∧
  os.node_at Examples.with_settings
    (os.resolve Examples.with_settings "/t/.claude/settings.json")
  = Some (os.File mode_0644 (Examples.b "mine")) ∧
  OSFileSystem.CreateFile "/t/.claude/settings.json" (Examples.b "{}") mode_0644
    Examples.with_settings
  = (None, Examples.with_settings) ∧
  ∃ o', OSFileSystem.CreateFile "/t/.claude/commands/ask.md" (Examples.b "hello")
          mode_0644 Examples.empty_target = (None, o') ∧
        os.node_at o' ["t"; ".claude"; "commands"; "ask.md"]
        = Some (os.File mode_0644 (Examples.b "hello")).
Proof.
  split; [reflexivity|]. split.
  { apply (proj1 (C8_host_port Examples.with_commands "/t/.claude/commands"
                    mode_0755 []) mode_0755). reflexivity. }
  split; [reflexivity|]. split.
  { apply (proj1 (proj2 (C8_host_port Examples.with_settings "/t/.claude/settings.json"
                           mode_0644 (Examples.b "{}")))
             mode_0644 (Examples.b "mine")). reflexivity. }
  destruct (proj2 (proj2 (C8_host_port Examples.empty_target
                            "/t/.claude/commands/ask.md" mode_0644 (Examples.b "hello")))
              ["t"; ".claude"; "commands"; "ask.md"])
    as (o' & Ho' & Hfile & _).
  - reflexivity.
  - by repeat constructor.
  - intros k [n Hn]. destruct k as [|x k]; [by eexists|].
    simpl in Hn. unfold Examples.empty_target, Examples.host in Hn. simpl in Hn.
    apply lookup_singleton_Some in Hn as [<- _]. by eexists.
  - reflexivity.
  - intros q m d Hq Hf. destruct q as [|x q]; [done|].
    simpl in Hf. apply lookup_singleton_Some in Hf as [_ ?]. done.
  - exists o'. by split.
Defined.

Lemma Remove_file o k m d :
  valid_names k → k ≠ [] → os.node_at o k = Some (os.File m d) →
  os.Remove o (os.key_path k) = (None, os.set_nodes o (delete k (os.nodes o))).
Proof.
  intros Hv Hne Hk. unfold os.Remove. rewrite resolve_key_path by done.
  cbv zeta. destruct k as [|x k]; [done|]. by rewrite Hk.
Qed.

(** C10. Before a deployment that is not a dry run, [validateConfig]
    creates the file [.cc-init-test] in the target directory and removes
    it.  A file of that name that is already there is truncated by the
    creation and deleted by the removal: after the validation no node
    is left at that path, and every other path is as it was.  [main]
    runs the engine from that state. *)
Theorem C10_write_probe (config : Config) (o : OS) (m : FileMode) :
  path.IsAbs (os.wd o) = true →
  DryRun config = false →
  let T := os.resolve o (TargetDir config) in
  let probe := T ++ [".cc-init-test"] in
  os.node_at o T = Some (os.Dir m) →
  (∀ m', os.node_at o probe ≠ Some (os.Dir m')) →
  ∃ o1 o2 mode,
    os.Create o (os.key_path probe) = (None, o1) ∧
    os.node_at o1 probe = Some (os.File mode []) ∧
    os.Remove o1 (os.key_path probe) = (None, o2) ∧
    validateConfig config o = (None, set_TargetDir config (os.key_path T), o2) ∧
    os.node_at o2 probe = None ∧
    (∀ k, k ≠ probe → os.node_at o2 k = os.node_at o k) ∧
    (∀ embedded, ShowVersion config = false → ShowHelp config = false →
       main embedded config o
       = let r := Engine.Run (NewEngine embedded (set_TargetDir config (os.key_path T)),
                              o2) in
         (match r.1 with Some _ => 1 | None => 0 end, r.2.2)).
Proof.
  intros Hwd Hdry T probe HT Hprobe.
  assert (valid_names T) as HvT by apply resolve_valid.
  assert (valid_names probe) as Hvp.
  { apply Forall_app. split; [done|]. by repeat constructor. }
  assert (probe ≠ []) as Hne by (unfold probe; by destruct T).
  assert (removelast probe = T) as Hrl by apply removelast_last.
  assert (∃ mode,
            os.Create o (os.key_path probe)
            = (None, os.set_nodes o (<[probe := os.File mode []]> (os.nodes o))))
    as [mode HC].
  { unfold os.Create, os.write_at. rewrite resolve_key_path by done.
    destruct (os.node_at o probe) as [[fm fd|dm]|] eqn:Ep.
    - by exists fm.
    - by destruct (Hprobe dm).
    - rewrite Hrl, HT. by eexists. }
  set (o1 := os.set_nodes o (<[probe := os.File mode []]> (os.nodes o))) in *.
  assert (os.node_at o1 probe = Some (os.File mode [])) as H1.
  { unfold o1. rewrite node_at_insert by done. by rewrite decide_True. }
  assert (os.Remove o1 (os.key_path probe)
          = (None, os.set_nodes o (delete probe (os.nodes o)))) as HR.
  { rewrite (Remove_file o1 probe mode []) by done.
    unfold o1, os.set_nodes. simpl. by rewrite delete_insert_eq. }
  assert (validateConfig config o
          = (None, set_TargetDir config (os.key_path T),
             os.set_nodes o (delete probe (os.nodes o)))) as HV; last first.
  { exists o1, (os.set_nodes o (delete probe (os.nodes o))), mode.
    split_and!; [done..| | |].
    - rewrite node_at_delete by done. by rewrite decide_True.
    - intros k Hk. rewrite node_at_delete by done. by rewrite decide_False.
    - intros embedded Hsv Hsh. unfold main. rewrite Hsv, Hsh, HV.
      by destruct (Engine.Run _) as [[err|] [e2 o3]]. }
  - unfold validateConfig. rewrite Abs_key_path by done. fold T.
    cbn [TargetDir set_TargetDir DryRun].
    rewrite Stat_node, resolve_key_path, HT by done. cbn [os.IsDir negb].
    rewrite Hdry. cbn [negb].
    replace (filepath.Join [os.key_path T; ".cc-init-test"])
      with (os.key_path probe).
    + by rewrite HC, HR.
    + symmetry. apply (Join_key_path T [".cc-init-test"]); [done| |done].
      by repeat constructor.
Qed.

Lemma C10_write_probe_witness :
  path.IsAbs (os.wd Examples.with_probe) = true ∧
  DryRun (Examples.cfg false) = false ∧
  os.node_at Examples.with_probe ["t"] = Some (os.Dir mode_0755) ∧
  os.node_at Examples.with_probe ["t"; ".cc-init-test"]
  = Some (os.File mode_0644 (Examples.b "notes")) ∧
  ∃ o1 o2 mode,
    os.Create Examples.with_probe "/t/.cc-init-test" = (None, o1) ∧
    os.node_at o1 ["t"; ".cc-init-test"] = Some (os.File mode []) ∧
    os.Remove o1 "/t/.cc-init-test" = (None, o2) ∧
    validateConfig (Examples.cfg false) Examples.with_probe
    = (None, Examples.cfg false, o2) ∧
    os.node_at o2 ["t"; ".cc-init-test"] = None.
Proof.
  split; [reflexivity|]. split; [reflexivity|]. split; [reflexivity|].
  split; [reflexivity|].
  destruct (C10_write_probe (Examples.cfg false) Examples.with_probe mode_0755)
    as (o1 & o2 & mode & H1 & H2 & H3 & H4 & H5 & _ & _).
  - reflexivity.
  - reflexivity.
  - reflexivity.
  - intros m'. vm_compute. discriminate.
  - exists o1, o2, mode. split_and!; assumption.
Defined.

(** C1 (the code departs from the claim).  A regular file stands where
    the directory [commands] goes: the conflict is appended to the
    errors, [processDirectory] returns it to the walk, the walk stops
    and [Run] returns the fatal error of a failed walk.  The entries
    after [commands] are not visited: [settings.json], which is
    missing on the host, is neither created nor counted. *)
Theorem C1_conflict_stops_the_walk :
  let r := Engine.Run (NewEngine Examples.assets (Examples.cfg false),
                       Examples.commands_is_file) in
  let conflict :=
    Errorf1 "path exists but is not a directory: %s" "/t/.claude/commands" in
  r.1 = Some (ErrorfW "failed to process templates: %w" [] conflict) ∧
  Errors (stats r.2.1) = [conflict] ∧
  map fst (template_entries (NewTemplateManager Examples.assets ".claude"))
  = [["commands"]; ["commands"; "ask.md"]; ["settings.json"]] ∧
  os.node_at Examples.commands_is_file ["t"; ".claude"; "settings.json"] = None ∧
  os.node_at r.2.2 ["t"; ".claude"; "settings.json"] = None ∧
  FilesCreated (stats r.2.1) + FilesSkipped (stats r.2.1) = 0.
Proof. vm_compute. by repeat split. Qed.

(** ** Reading a template *)

Lemma fold_clean_step_no_dotdot rooted l : ∀ stack,
  ".." ∉ l →
  fold_left (path.clean_step rooted) l stack = rev (filter kept_elem l) ++ stack.
Proof.
  induction l as [|e l IH]; intros stack Hl; [done|].
  apply not_elem_of_cons in Hl as [He Hl]. simpl. rewrite IH by done.
  unfold path.clean_step.
  destruct (decide (e = "" ∨ e = ".")) as [Hs|Hs].
  - by rewrite filter_cons_False by (by intros ?).
  - rewrite filter_cons_True by done. destruct (decide (e = "..")); [congruence|].
    simpl. by rewrite <- app_assoc.
Qed.

Lemma kept_elems_valid l :
  ".." ∉ l → Forall slash_free l → valid_names (filter kept_elem l).
Proof.
  intros Hd Hl. apply Forall_forall. intros e He.
  apply list_elem_of_filter in He as [Hk He].
  apply valid_name_spec. unfold kept_elem in Hk.
  rewrite Forall_forall in Hl. split_and!; [naive_solver..| |by apply Hl].
  by intros ->.
Qed.

(** C2 (amended).  [ReadFile] rejects no path by its shape: it joins
    the prefix and the path it is given, cleans the result and reads
    the embedded tree there, and fails only when that read fails.  When
    the path has no parent-directory element, absolute or not, the
    path that is read lies below the prefix. *)
Theorem C2_read_path_below_prefix (tm : TemplateManager) (P : list string)
    (relPath : string) :
  tm_prefix tm = strings.JoinSlash P → P ≠ [] → valid_names P →
  ".." ∉ strings.SplitSlash relPath →
  ∃ k, valid_names k ∧
       path.Join [tm_prefix tm; relPath] = strings.JoinSlash (P ++ k) ∧
       TemplateManager.ReadFile tm relPath
       = match embed.ReadFile (tm_fs tm) (strings.JoinSlash (P ++ k)) with
         | inl err =>
             inl (ErrorfW "failed to read embedded file %s: %w"
                    [strings.JoinSlash (P ++ k)] err)
         | inr data => inr data
         end.
Proof.
  intros HP Hne HvP Hdd.
  exists (filter kept_elem (strings.SplitSlash relPath)).
  assert (valid_names (filter kept_elem (strings.SplitSlash relPath))) as Hk
    by (apply kept_elems_valid; [done|apply SplitSlash_slash_free]).
  assert (path.Join [tm_prefix tm; relPath]
          = strings.JoinSlash (P ++ filter kept_elem (strings.SplitSlash relPath)))
    as HJ.
  { rewrite HP, Join_cons_nonempty by eauto using JoinSlash_valid_nonempty.
    change (strings.JoinSlash [strings.JoinSlash P; relPath])
      with (strings.JoinSlash P +:+ "/" +:+ relPath).
    unfold path.Clean.
    assert (path.IsAbs (strings.JoinSlash P +:+ "/" +:+ relPath) = false) as ->.
    { pose proof (IsAbs_JoinSlash_valid P HvP) as HA.
      pose proof (JoinSlash_valid_nonempty P Hne HvP) as HN.
      unfold path.IsAbs, strings.HasPrefix in *.
      destruct (strings.JoinSlash P) as [|c s]; [done|].
      rewrite append_cons. change "/" with (String "/"%char "") in *.
      rewrite cut_prefix_cons in *. by destruct (Ascii.eqb "/" c). }
    rewrite SplitSlash_app, strings_SplitSlash_JoinSlash
      by eauto using valid_names_slash_free.
    unfold path.clean_elems, path.clean_stack. rewrite fold_left_app.
    rewrite (fold_clean_step_valid _ [] P) by done.
    rewrite fold_clean_step_no_dotdot by done.
    rewrite app_nil_r, rev_app_distr, !rev_involutive.
    by destruct P. }
  split_and!; [done..|]. unfold TemplateManager.ReadFile. by rewrite HJ.
Qed.

Lemma C2_read_path_below_prefix_witness :
  (".." ∉ strings.SplitSlash "/settings.json") ∧
  (∃ k, path.Join [".claude"; "/settings.json"] = strings.JoinSlash ([".claude"] ++ k)).
Proof.
  assert (".." ∉ strings.SplitSlash "/settings.json") as Hdd.
  { vm_compute. intros H. repeat (apply elem_of_cons in H as [H|H]; [discriminate|]).
    by apply elem_of_nil in H. }
  split; [exact Hdd|].
  destruct (C2_read_path_below_prefix (NewTemplateManager Examples.assets ".claude")
              [".claude"] "/settings.json") as (k & _ & Hk & _).
  - reflexivity.
  - discriminate.
  - apply valid_names_claude.
  - exact Hdd.
  - exists k. exact Hk.
Defined.

(** C2 as stated fails: [ReadFile] returns the content of
    [settings.json] for a path with a parent-directory element and for
    an absolute path, so not every unsafe path is rejected. *)
Lemma C2_counterexample :
  let tm := NewTemplateManager Examples.assets ".claude" in
  (unsafe_path "commands/../settings.json" = true ∧
   TemplateManager.ReadFile tm "commands/../settings.json" = inr (Examples.b "{}")) ∧
  (unsafe_path "/settings.json" = true ∧
   TemplateManager.ReadFile tm "/settings.json" = inr (Examples.b "{}")) ∧
  ¬ (∀ (tm : TemplateManager) (relPath : string),
       unsafe_path relPath = true →
       ∃ err, TemplateManager.ReadFile tm relPath = inl err).
Proof.
  split_and!; [by vm_compute..|].
  intros H.
  destruct (H (NewTemplateManager Examples.assets ".claude") "/settings.json")
    as [err Herr]; [by vm_compute|].
  vm_compute in Herr. discriminate.
Qed.

(** ** The destination of an entry *)

Lemma template_entries_keys embedded k d :
  wf_fs embedded = true →
  (k, d) ∈ template_entries (NewTemplateManager embedded ".claude") →
  k ≠ [] ∧ valid_names k.
Proof.
  intros Hwf. unfold template_entries. cbn [tm_fs tm_prefix NewTemplateManager].
  destruct (embed.Open embedded ".claude") as [|[|n es]] eqn:E;
    [by intros ?%elem_of_nil..|].
  apply Open_claude_wf in E; [|done]. apply wf_asset_inv in E as [_ E].
  by apply entries_under_keys.
Qed.

Lemma prefix_app_strict (T k : list string) : k ≠ [] → T `prefix_of` T ++ k ∧ T ≠ T ++ k.
Proof.
  intros Hk. split; [by apply prefix_app_r|].
  intros E. apply Hk. apply (app_inv_head T). by rewrite app_nil_r.
Qed.

(** C3 (amended).  The engine computes the destination of an entry
    with [filepath.Join] and checks nothing about it; there is no
    path-escape error.  For the entries of an embedded tree, whose
    names are plain names, the destination is the target root followed
    by [.claude] and the names of the entry, so it lies strictly inside
    the target root; and these entries are the ones a run visits. *)
Theorem C3_destination_inside_root (embedded : embed.FS) (T k : list string)
    (d : DirEntry) (o : OS) :
  wf_fs embedded = true → valid_names T →
  (k, d) ∈ template_entries (NewTemplateManager embedded ".claude") →
  let target :=
    filepath.Join [os.key_path T; ".claude"; filepath.FromSlash (strings.JoinSlash k)] in
  os.resolve o target = T ++ ".claude" :: k ∧
  inside_root o (os.key_path T) target = true ∧
  (∀ st : Engine.State,
     TemplateManager.HasTemplates (NewTemplateManager embedded ".claude") = true →
     TemplateManager.Walk (NewTemplateManager embedded ".claude") Engine.walkFn st
     = walk_entries Engine.walkFn
         (map path_of (template_entries (NewTemplateManager embedded ".claude"))) st).
Proof.
  intros Hwf HT Hin target.
  destruct (template_entries_keys _ _ _ Hwf Hin) as [Hne Hk].
  assert (os.resolve o target = T ++ ".claude" :: k) as Hres.
  { unfold target. rewrite target_path by done. apply resolve_key_path.
    apply Forall_app. split; [done|]. constructor; [done|done]. }
  split_and!; [done| |].
  - unfold inside_root. rewrite Hres, resolve_key_path by done.
    apply bool_decide_eq_true. by apply prefix_app_strict.
  - intros st Hhas. by apply Engine_Walk_entries.
Qed.

Lemma C3_destination_inside_root_witness :
  wf_fs Examples.assets = true ∧ valid_names ["t"] ∧
  os.resolve Examples.empty_target
    (filepath.Join ["/t"; ".claude"; filepath.FromSlash "commands/ask.md"])
  = ["t"; ".claude"; "commands"; "ask.md"] ∧
  inside_root Examples.empty_target "/t"
    (filepath.Join ["/t"; ".claude"; filepath.FromSlash "commands/ask.md"]) = true.
Proof.
  split; [reflexivity|]. split; [by repeat constructor|].
  destruct (C3_destination_inside_root Examples.assets ["t"] ["commands"; "ask.md"]
              {| Name := "ask.md"; IsDir := false |} Examples.empty_target)
    as (H1 & H2 & _).
  - reflexivity.
  - by repeat constructor.
  - vm_compute. apply list_elem_of_In. simpl. tauto.
  - split; [exact H1|exact H2].
Defined.

(** C3 as stated fails: handed the path [../../escape] of a directory
    entry, the callback of the walk reports no error and makes the
    directory [/escape], outside the target root [/t]. *)
Lemma C3_counterexample :
  let e := NewEngine Examples.assets (Examples.cfg false) in
  let target :=
    filepath.Join [TargetDir (config e); ".claude"; filepath.FromSlash "../../escape"] in
  let r := Engine.walkFn "../../escape" (Some {| Name := "escape"; IsDir := true |}) None
             (e, Examples.empty_target) in
  inside_root Examples.empty_target (TargetDir (config e)) target = false ∧
  r.1 = None ∧ Errors (stats r.2.1) = [] ∧ DirsCreated (stats r.2.1) = 1 ∧
  os.node_at Examples.empty_target ["escape"] = None ∧
  os.node_at r.2.2 ["escape"] = Some (os.Dir mode_0755).
Proof. vm_compute. by repeat split. Qed.

(** ** Runs on a well-formed tree *)

Section deploy.
Variable T : list string.
Hypothesis HT : valid_names T.

Lemma destination_valid k : valid_names k → valid_names (destination T k).
Proof.
  intros Hk. apply Forall_app. split; [done|]. constructor; [done|done].
Qed.

(** A step on a directory entry and on a file entry, by what is at
    the destination. *)
Lemma walkFn_dir_step e o k d :
  TargetDir (config e) = os.key_path T → valid_names k → k ≠ [] →
  IsDir d = true →
  Engine.walkFn (strings.JoinSlash k) (Some d) None (e, o) =
  match os.node_at o (destination T k) with
  | Some (os.Dir _) => (None, (Engine.incr_DirsSkipped e, o))
  | Some (os.File _ _) =>
      let err := Errorf1 "path exists but is not a directory: %s"
                   (os.key_path (destination T k)) in
      (Some err, (Engine.append_error e err, o))
  | None =>
      match FileSystem.CreateDir (fs e) (os.key_path (destination T k)) mode_0755 o with
      | (Some err, o1) => (Some err, (Engine.append_error e err, o1))
      | (None, o1) => (None, (Engine.incr_DirsCreated e, o1))
      end
  end.
Proof.
  intros He Hk Hne Hd. unfold Engine.walkFn. cbn [fst]. rewrite Hd, He.
  rewrite target_path by done. fold (destination T k).
  rewrite processDirectory_cases.
  by rewrite resolve_key_path by by apply destination_valid.
Qed.

Lemma walkFn_file_step e o k d :
  TargetDir (config e) = os.key_path T → valid_names k → k ≠ [] →
  IsDir d = false →
  Engine.walkFn (strings.JoinSlash k) (Some d) None (e, o) =
  match os.node_at o (destination T k) with
  | Some (os.Dir _) =>
      let err := Errorf1 "path exists but is a directory: %s"
                   (os.key_path (destination T k)) in
      (Some err, (Engine.append_error e err, o))
  | Some (os.File _ _) => (None, (Engine.incr_FilesSkipped e, o))
  | None =>
      match TemplateManager.ReadFile (tmpl e) (strings.JoinSlash k) with
      | inl err => (Some err, (Engine.append_error e err, o))
      | inr content =>
          match FileSystem.CreateFile (fs e) (os.key_path (destination T k)) content
                  (TemplateManager.GetDefaultFileMode (tmpl e) (strings.JoinSlash k)) o with
          | (Some err, o1) => (Some err, (Engine.append_error e err, o1))
          | (None, o1) => (None, (Engine.incr_FilesCreated e, o1))
          end
      end
  end.
Proof.
  intros He Hk Hne Hd. unfold Engine.walkFn. cbn [fst]. rewrite Hd, He.
  rewrite target_path by done. fold (destination T k).
  rewrite processFile_cases.
  by rewrite resolve_key_path by by apply destination_valid.
Qed.

(** After a step without error on the host port the entry is
    present. *)
Lemma walkFn_present e o k d e1 o1 :
  TargetDir (config e) = os.key_path T → fs e = OSFileSystem →
  valid_names k → k ≠ [] →
  Engine.walkFn (strings.JoinSlash k) (Some d) None (e, o) = (None, (e1, o1)) →
  present T o1 (k, d).
Proof.
  intros He Hfs Hk Hne. unfold present. cbn [fst snd].
  pose proof (destination_valid k Hk) as Hv.
  destruct (IsDir d) eqn:Hd.
  - rewrite walkFn_dir_step by done. cbv zeta.
    destruct (os.node_at o (destination T k)) as [[|m]|] eqn:En; [done| |].
    + intros ?; simplify_eq. by eexists.
    + rewrite Hfs. cbn [FileSystem.CreateDir].
      destruct (OSFileSystem.CreateDir _ _ _) as [[err|] o2] eqn:E; [done|].
      intros ?; simplify_eq.
      apply OS_CreateDir_key in E as (_ & _ & Hok & _); [|done..].
      rewrite Hok by done. by eexists.
  - rewrite walkFn_file_step by done. cbv zeta.
    destruct (os.node_at o (destination T k)) as [[m c|]|] eqn:En; [|done|].
    + intros ?; simplify_eq. by eexists.
    + destruct (TemplateManager.ReadFile _ _) as [|content]; [done|].
      rewrite Hfs. cbn [FileSystem.CreateFile].
      destruct (OSFileSystem.CreateFile _ _ _ _) as [[err|] o2] eqn:E; [done|].
      intros ?; simplify_eq.
      apply OS_CreateFile_key in E as (_ & _ & Hok & _); [|done..].
      rewrite Hok by done. by eexists.
Qed.

Lemma present_extends o o' ke : extends o o' → present T o ke → present T o' ke.
Proof. intros [_ Hext] (n & Hn & Hk). exists n. split; [by apply Hext|done]. Qed.

Lemma walk_entries_extends l e o r e' o' :
  walk_entries Engine.walkFn l (e, o) = (r, (e', o')) →
  same_setup e e' ∧ extends o o'.
Proof.
  intros H.
  apply (walk_entries_invariant Engine.walkFn
           (λ s s', same_setup s.1 s'.1 ∧ extends s.2 s'.2)) in H; [done|..].
  - intros s. split; [apply same_setup_refl|apply extends_refl].
  - intros s1 s2 s3 [? ?] [? ?].
    split; [by eapply same_setup_trans|by eapply extends_trans].
  - intros p d err [e0 o0] r0 [e0' o0'] H0. by eapply walkFn_extends.
Qed.

(** After a walk without error on the host port every entry is
    present. *)
Lemma walk_all_present L : ∀ e o e' o',
  TargetDir (config e) = os.key_path T → fs e = OSFileSystem →
  (∀ k d, (k, d) ∈ L → k ≠ [] ∧ valid_names k) →
  walk_entries Engine.walkFn (map path_of L) (e, o) = (None, (e', o')) →
  Forall (present T o') L.
Proof.
  induction L as [|[k d] L IH]; intros e o e' o' He Hfs Hkeys H; [done|].
  cbn [map path_of walk_entries fst snd] in H.
  destruct (Engine.walkFn _ _ None (e, o)) as [[err|] [e1 o1]] eqn:E; [done|].
  destruct (Hkeys k d) as [Hne Hk]; [by left|].
  pose proof (walkFn_present _ _ _ _ _ _ He Hfs Hk Hne E) as Hp.
  apply walkFn_extends in E as [Hs _].
  apply same_setup_fields in Hs as (Hc & Hf & _).
  pose proof (walk_entries_extends _ _ _ _ _ _ H) as [_ Hext].
  constructor; [by eapply present_extends|].
  eapply IH; [| | |done]; [congruence..|].
  intros k' d' ?. apply (Hkeys k' d'). by right.
Qed.

(** A walk over entries that are all present skips them all and
    leaves the host as it is. *)
Lemma walk_all_skipped L : ∀ e o,
  TargetDir (config e) = os.key_path T →
  (∀ k d, (k, d) ∈ L → k ≠ [] ∧ valid_names k) →
  Forall (present T o) L →
  ∃ e', walk_entries Engine.walkFn (map path_of L) (e, o) = (None, (e', o)) ∧
        FilesCreated (stats e') = FilesCreated (stats e) ∧
        DirsCreated (stats e') = DirsCreated (stats e) ∧
        FilesSkipped (stats e') = FilesSkipped (stats e) + count_files L ∧
        DirsSkipped (stats e') = DirsSkipped (stats e) + count_dirs L ∧
        Errors (stats e') = Errors (stats e).
Proof.
  induction L as [|[k d] L IH]; intros e o He Hkeys Hall.
  - exists e. unfold count_files, count_dirs. simpl. split_and!; [done..|lia|lia|done].
  - apply Forall_cons in Hall as [(n & Hn & Hkind) Hall]. cbn [fst snd] in *.
    destruct (Hkeys k d) as [Hne Hk]; [by left|].
    cbn [map path_of walk_entries fst snd].
    assert (∀ e1, TargetDir (config e1) = os.key_path T →
              ∃ e', walk_entries Engine.walkFn (map path_of L) (e1, o) = (None, (e', o)) ∧
                    FilesCreated (stats e') = FilesCreated (stats e1) ∧
                    DirsCreated (stats e') = DirsCreated (stats e1) ∧
                    FilesSkipped (stats e') = FilesSkipped (stats e1) + count_files L ∧
                    DirsSkipped (stats e') = DirsSkipped (stats e1) + count_dirs L ∧
                    Errors (stats e') = Errors (stats e1)) as IH'.
    { intros e1 He1. apply IH; [done| |done].
      intros k' d' ?. apply (Hkeys k' d'). by right. }
    unfold count_files, count_dirs in *. cbn [List.filter snd].
    destruct (IsDir d) eqn:Hd.
    + rewrite walkFn_dir_step by done. rewrite Hn.
      destruct n as [|m]; [done|].
      destruct (IH' (Engine.incr_DirsSkipped e)) as (e' & -> & H1 & H2 & H3 & H4 & H5);
        [done|].
      exists e'. simpl in *. split_and!; [done|done|done|lia|lia|done].
    + rewrite walkFn_file_step by done. rewrite Hn.
      destruct n as [m c|]; [|done].
      destruct (IH' (Engine.incr_FilesSkipped e)) as (e' & -> & H1 & H2 & H3 & H4 & H5);
        [done|].
      exists e'. simpl in *. split_and!; [done|done|done|lia|lia|done].
Qed.

End deploy.

Lemma Run_walk embedded cfg o :
  wf_fs embedded = true →
  Engine.Run (NewEngine embedded cfg, o) =
  if negb (TemplateManager.HasTemplates (NewTemplateManager embedded ".claude")) then
    (Some (Errorf0 "no template files found in embedded .claude directory"),
     (NewEngine embedded cfg, o))
  else
    match walk_entries Engine.walkFn
            (map path_of (template_entries (NewTemplateManager embedded ".claude")))
            (NewEngine embedded cfg, o) with
    | (Some err, st1) => (Some (ErrorfW "failed to process templates: %w" [] err), st1)
    | (None, st1) =>
        if bool_decide (0 < length (Errors (stats st1.1)))
        then (Some (ErrorfD "completed with %d errors" (length (Errors (stats st1.1)))), st1)
        else (None, st1)
    end.
Proof.
  intros Hwf. unfold Engine.Run. cbn [fst NewEngine tmpl].
  destruct (TemplateManager.HasTemplates _) eqn:Hhas; [|done]. cbn [negb].
  by rewrite Engine_Walk_entries.
Qed.

(** C5 (amended).  When a first run on the host port completes without
    error, a second run in succession creates no file and no directory,
    leaves the host as it is, reports no error, and skips, for each
    kind, as many entries as the first run created or skipped. *)
Theorem C5_second_run_skips_all (embedded : embed.FS) (cfg : Config)
    (T : list string) (o o1 : OS) (e1 : Engine) :
  wf_fs embedded = true → valid_names T →
  TargetDir cfg = os.key_path T → DryRun cfg = false →
  Engine.Run (NewEngine embedded cfg, o) = (None, (e1, o1)) →
  ∃ e2, Engine.Run (NewEngine embedded cfg, o1) = (None, (e2, o1)) ∧
        FilesCreated (stats e2) = 0 ∧ DirsCreated (stats e2) = 0 ∧
        FilesSkipped (stats e2) = FilesCreated (stats e1) + FilesSkipped (stats e1) ∧
        DirsSkipped (stats e2) = DirsCreated (stats e1) + DirsSkipped (stats e1) ∧
        Errors (stats e2) = [].
Proof.
  intros Hwf HT Htd Hdry. rewrite !Run_walk by done.
  destruct (TemplateManager.HasTemplates _); [|done]. cbn [negb].
  set (L := template_entries (NewTemplateManager embedded ".claude")).
  assert (∀ k d, (k, d) ∈ L → k ≠ [] ∧ valid_names k) as Hkeys
    by (intros k d; by apply template_entries_keys).
  assert (fs (NewEngine embedded cfg) = OSFileSystem) as Hfs
    by (unfold NewEngine; by rewrite Hdry).
  destruct (walk_entries Engine.walkFn (map path_of L) (NewEngine embedded cfg, o))
    as [[err|] [e1' o1']] eqn:E1; [done|].
  cbn [fst]. case_bool_decide; [done|]. intros ?; simplify_eq.
  pose proof (walk_all_present T HT L (NewEngine embedded cfg) o e1 o1
                Htd Hfs Hkeys E1) as Hall.
  destruct (walk_all_skipped T HT L (NewEngine embedded cfg) o1 Htd Hkeys Hall)
    as (e2 & -> & H1 & H2 & H3 & H4 & H5).
  apply walk_entries_counts in E1 as [C1 C2].
  cbn [NewEngine stats FilesCreated FilesSkipped DirsCreated DirsSkipped Errors] in *.
  exists e2. cbn [fst]. rewrite H5. cbn [length].
  rewrite bool_decide_eq_false_2 by lia.
  split_and!; [done|done|done|lia|lia|done].
Qed.

Lemma C5_second_run_skips_all_witness :
  let r1 := Engine.Run (NewEngine Examples.assets (Examples.cfg false),
                        Examples.with_commands) in
  wf_fs Examples.assets = true ∧ valid_names ["t"] ∧ r1.1 = None ∧
  ∃ e2, Engine.Run (NewEngine Examples.assets (Examples.cfg false), r1.2.2)
        = (None, (e2, r1.2.2)) ∧
        FilesCreated (stats e2) = 0 ∧ DirsCreated (stats e2) = 0 ∧
        FilesSkipped (stats e2) = 2 ∧ DirsSkipped (stats e2) = 1.
Proof.
  intros r1. split; [reflexivity|]. split; [by repeat constructor|].
  split; [vm_compute; reflexivity|].
  destruct (C5_second_run_skips_all Examples.assets (Examples.cfg false) ["t"]
              Examples.with_commands r1.2.2 r1.2.1)
    as (e2 & H & H1 & H2 & H3 & H4 & _).
  - reflexivity.
  - by repeat constructor.
  - reflexivity.
  - reflexivity.
  - vm_compute. reflexivity.
  - exists e2. split_and!; [exact H|exact H1|exact H2|exact H3|exact H4].
Defined.

(** C5 as stated fails: with the directory [commands] already there,
    the first run creates two items and skips one, and the second run
    skips three items, not two. *)
Lemma C5_counterexample :
  let r1 := Engine.Run (NewEngine Examples.assets (Examples.cfg false),
                        Examples.with_commands) in
  let r2 := Engine.Run (NewEngine Examples.assets (Examples.cfg false), r1.2.2) in
  r1.1 = None ∧ r2.1 = None ∧
  FilesCreated (stats r1.2.1) + DirsCreated (stats r1.2.1) = 2 ∧
  FilesSkipped (stats r2.2.1) + DirsSkipped (stats r2.2.1) = 3 ∧
  FilesSkipped (stats r2.2.1) + DirsSkipped (stats r2.2.1)
  ≠ FilesCreated (stats r1.2.1) + DirsCreated (stats r1.2.1).
Proof. vm_compute. by repeat split. Qed.

(** ** The dry run *)

Lemma DryRun_CreateDir_missing w p perm o :
  os.node_at o (os.resolve o p) = None →
  FileSystem.CreateDir (DryRunFileSystem w) p perm o = (None, o).
Proof.
  intros Hk. cbn [FileSystem.CreateDir FileSystem.Exists].
  rewrite port_Exists, Exists_node, Hk.
  rewrite bool_decide_eq_false_2; [done|]. by intros [].
Qed.

Lemma DryRun_CreateFile_missing w p content perm o :
  os.node_at o (os.resolve o p) = None →
  FileSystem.CreateFile (DryRunFileSystem w) p content perm o = (None, o).
Proof.
  intros Hk. cbn [FileSystem.CreateFile FileSystem.Exists].
  rewrite port_Exists, Exists_node, Hk.
  rewrite bool_decide_eq_false_2; [done|]. by intros [].
Qed.

Lemma walkFn_dry_same p d err e o r e' o' w :
  fs e = DryRunFileSystem w →
  Engine.walkFn p d err (e, o) = (r, (e', o')) → o' = o.
Proof.
  intros Hfs. unfold Engine.walkFn.
  destruct err as [e0|]; [by intros ?; simplify_eq|].
  assert (∀ src tgt, Engine.processFile src tgt (e, o) = (r, (e', o')) → o' = o)
    as Hfile.
  { intros src tgt. rewrite processFile_cases. cbv zeta.
    destruct (os.node_at o (os.resolve o tgt)) as [[]|]; [by intros ?; simplify_eq..|].
    destruct (TemplateManager.ReadFile _ _); [by intros ?; simplify_eq|].
    rewrite Hfs.
    destruct (FileSystem.CreateFile _ _ _ _ _) as [[e1|] o1] eqn:E1;
      apply DryRun_CreateFile_same in E1; by intros ?; simplify_eq. }
  destruct d as [d|]; [|apply Hfile].
  destruct (IsDir d); [|apply Hfile].
  rewrite processDirectory_cases. cbv zeta.
  destruct (os.node_at o (os.resolve o _)) as [[]|]; [by intros ?; simplify_eq..|].
  rewrite Hfs.
  destruct (FileSystem.CreateDir _ _ _ _) as [[e1|] o1] eqn:E1;
    apply DryRun_CreateDir_same in E1; by intros ?; simplify_eq.
Qed.

(** A run through the dry-run port leaves the host as it is, whatever
    the tree and the state. *)
Lemma Run_dry_same e o w :
  fs e = DryRunFileSystem w → (Engine.Run (e, o)).2.2 = o.
Proof.
  intros Hfs. unfold Engine.Run. cbn [fst].
  destruct (negb _); [done|].
  destruct (TemplateManager.Walk _ _ _) as [r1 [e1 o1]] eqn:E.
  apply (Walk_invariant Engine.walkFn
           (λ s s', same_setup s.1 s'.1 ∧
                    (fs s.1 = DryRunFileSystem w → s'.2 = s.2))) in E.
  - cbn [fst snd] in E. destruct E as [_ E]. rewrite <- (E Hfs).
    destruct r1; [done|]. by case_bool_decide.
  - intros s. split; [apply same_setup_refl|done].
  - intros s1 s2 s3 [S12 H12] [S23 H23].
    split; [by eapply same_setup_trans|]. intros Hf.
    rewrite H23, H12; [done..|].
    apply same_setup_fields in S12 as (_ & -> & _). done.
  - intros p d err [e0 o0] r0 [e0' o0'] H. cbn [fst snd]. split.
    + by apply walkFn_extends in H as [? _].
    + intros Hf. by eapply walkFn_dry_same.
  - apply walkFn_plain.
Qed.

(** ** The order of the entries *)

Lemma no_back_prefix_app l1 l2 :
  no_back_prefix l1 → no_back_prefix l2 →
  (∀ x y, x ∈ l1 → y ∈ l2 → ¬ y `prefix_of` x) →
  no_back_prefix (l1 ++ l2).
Proof.
  intros H1 H2 Hx. induction l1 as [|x l1 IH]; [done|].
  destruct H1 as [Hh Ht]. simpl. split.
  - intros y [Hy|Hy]%elem_of_app; [by apply Hh|]. apply Hx; [by left|done].
  - apply IH; [done|]. intros x' y ? ?. apply Hx; [by right|done].
Qed.

Lemma subtree_entries_prefix c key k d :
  (k, d) ∈ subtree_entries key c → key `prefix_of` k.
Proof.
  revert key k d. induction c as [n data|n es IH] using Asset_ind_nested;
    intros key k d Hin.
  - apply list_elem_of_singleton in Hin. by simplify_eq.
  - cbn [subtree_entries] in Hin. apply elem_of_cons in Hin as [?|Hin]; [by simplify_eq|].
    apply list_elem_of_In, in_flat_map in Hin as (c & Hc & Hin).
    rewrite Forall_forall in IH.
    apply list_elem_of_In in Hc, Hin. apply (IH c Hc) in Hin.
    etrans; [|done]. by apply prefix_app_r.
Qed.

Lemma prefix_snoc_ne (key : list string) n1 n2 x y :
  n1 ≠ n2 → key ++ [n1] `prefix_of` x → key ++ [n2] `prefix_of` y → ¬ y `prefix_of` x.
Proof.
  intros Hne [s1 ->] [s2 ->] [s3 E].
  rewrite <- !app_assoc in E. apply app_inv_head in E. simpl in E. congruence.
Qed.

Lemma children_no_back_prefix key es :
  NoDup (map asset_name es) → forallb wf_asset es = true →
  Forall (λ c, ∀ key, wf_asset c = true →
               no_back_prefix (map fst (subtree_entries key c))) es →
  no_back_prefix
    (map fst (flat_map (λ c, subtree_entries (key ++ [asset_name c]) c) es)).
Proof.
  intros Hnd Hwf IH. induction IH as [|c rest Hc _ IHrest]; [done|].
  cbn [flat_map]. rewrite map_app.
  cbn [map] in Hnd. apply NoDup_cons in Hnd as [Hnotin Hnd].
  cbn [forallb] in Hwf. apply andb_true_iff in Hwf as [Hwc Hwr].
  apply no_back_prefix_app; [by apply Hc|by apply IHrest|].
  intros x y Hx Hy.
  apply list_elem_of_fmap in Hx as ([kx dx] & -> & Hx).
  apply list_elem_of_fmap in Hy as ([ky dy] & -> & Hy).
  apply subtree_entries_prefix in Hx.
  apply list_elem_of_In, in_flat_map in Hy as (c' & Hc' & Hy).
  apply list_elem_of_In, subtree_entries_prefix in Hy.
  eapply prefix_snoc_ne; [|exact Hx|exact Hy].
  intros E. apply Hnotin. rewrite E. apply list_elem_of_fmap.
  exists c'. split; [done|]. by apply list_elem_of_In.
Qed.

Lemma subtree_no_back_prefix c : ∀ key,
  wf_asset c = true → no_back_prefix (map fst (subtree_entries key c)).
Proof.
  induction c as [n data|n es IH] using Asset_ind_nested; intros key Hwf.
  - simpl. split; [by intros y ?%elem_of_nil|done].
  - cbn [subtree_entries map fst no_back_prefix]. split.
    + intros y Hy Hp. apply list_elem_of_fmap in Hy as ([k d] & -> & Hin).
      apply list_elem_of_In, in_flat_map in Hin as (c & Hc & Hin).
      apply list_elem_of_In, subtree_entries_prefix in Hin. cbn [fst] in Hp.
      assert (key ++ [asset_name c] `prefix_of` key) as Hbad by by etrans.
      by apply prefix_snoc_not in Hbad.
    + apply children_no_back_prefix;
        [by eapply wf_asset_NoDup|by apply wf_asset_inv in Hwf as [_ ?]|done].
Qed.

(** The entries below a well-formed directory come in an order in
    which no entry lies above, or is, an entry before it. *)
Lemma entries_under_no_back_prefix n es :
  wf_asset (ADir n es) = true → no_back_prefix (map fst (entries_under es)).
Proof.
  intros Hwf. unfold entries_under.
  pose proof (children_no_back_prefix [] es) as H. cbn [app] in H.
  apply H; [by eapply wf_asset_NoDup|by apply wf_asset_inv in Hwf as [_ ?]|].
  apply Forall_forall. intros c _ key. apply subtree_no_back_prefix.
Qed.

Section dry_run.
Variable T : list string.
Hypothesis HT : valid_names T.

Lemma destination_prefix k k' :
  destination T k' `prefix_of` destination T k → k' `prefix_of` k.
Proof.
  unfold destination. intros H%prefix_app_inv. by apply prefix_cons_inv_2 in H.
Qed.

(** What a step on the host port leaves alone. *)
Lemma grows_within_elsewhere k k' o o' :
  grows_within (destination T k) o o' → ¬ k' `prefix_of` k →
  os.node_at o' (destination T k') = os.node_at o (destination T k').
Proof.
  intros [_ Hg] Hk. destruct (Hg (destination T k')) as [?|[Hp _]]; [done|].
  by apply destination_prefix in Hp.
Qed.

End dry_run.

Lemma template_entries_no_back_prefix embedded :
  wf_fs embedded = true →
  no_back_prefix (map fst (template_entries (NewTemplateManager embedded ".claude"))).
Proof.
  intros Hwf. unfold template_entries. cbn [tm_fs tm_prefix NewTemplateManager].
  destruct (embed.Open embedded ".claude") as [|[|n es]] eqn:E; [done..|].
  apply Open_claude_wf in E; [|done]. by eapply entries_under_no_back_prefix.
Qed.

(** ** Directories come before what they contain *)

Lemma ancestors_first_mono l : ∀ seen seen',
  (∀ x, x ∈ seen → x ∈ seen') → ancestors_first seen l → ancestors_first seen' l.
Proof.
  induction l as [|[k d] l IH]; intros seen seen' Hsub; [done|].
  cbn [ancestors_first fst snd]. intros [Hh Ht]. split; [by auto|].
  eapply IH; [|exact Ht]. destruct (IsDir d); [|done].
  intros x [->|?]%elem_of_cons; [by left|right; auto].
Qed.

Lemma seen_after_subset l : ∀ seen x, x ∈ seen → x ∈ seen_after seen l.
Proof.
  induction l as [|[k d] l IH]; intros seen x Hx; [done|].
  cbn [seen_after fold_left fst snd]. apply IH.
  destruct (IsDir d); [by right|done].
Qed.

Lemma ancestors_first_app l1 l2 : ∀ seen,
  ancestors_first seen l1 → ancestors_first (seen_after seen l1) l2 →
  ancestors_first seen (l1 ++ l2).
Proof.
  induction l1 as [|[k d] l1 IH]; intros seen H1 H2; [done|].
  cbn [app ancestors_first fst snd] in *. destruct H1 as [Hh Ht].
  split; [done|]. by apply IH.
Qed.

Lemma prefix_snoc_cases (p l : list string) x :
  p `prefix_of` l ++ [x] → p = l ++ [x] ∨ p `prefix_of` l.
Proof.
  intros [s E]. destruct s as [|y s _] using rev_ind.
  - left. by rewrite app_nil_r in E.
  - right. rewrite app_assoc in E. apply app_inj_tail in E as [-> _].
    by apply prefix_app_r.
Qed.

Lemma children_ancestors_first key es :
  Forall (λ c, ∀ key seen,
            (∀ k', k' ≠ [] → k' `prefix_of` key → k' ≠ key → k' ∈ seen) →
            ancestors_first seen (subtree_entries key c)) es →
  ∀ seen, (∀ k', k' ≠ [] → k' `prefix_of` key → k' ∈ seen) →
  ancestors_first seen
    (flat_map (λ c, subtree_entries (key ++ [asset_name c]) c) es).
Proof.
  induction 1 as [|c rest Hc _ IHrest]; intros seen Hseen; [done|].
  cbn [flat_map]. apply ancestors_first_app.
  - apply Hc. intros k' Hne Hp Hk.
    apply prefix_snoc_cases in Hp as [?|Hp]; [done|]. by apply Hseen.
  - apply IHrest. intros k' Hne Hp. by apply seen_after_subset, Hseen.
Qed.

Lemma subtree_ancestors_first c : ∀ key seen,
  (∀ k', k' ≠ [] → k' `prefix_of` key → k' ≠ key → k' ∈ seen) →
  ancestors_first seen (subtree_entries key c).
Proof.
  induction c as [n data|n es IH] using Asset_ind_nested; intros key seen Hseen.
  - cbn [subtree_entries ancestors_first fst snd]. by split.
  - cbn [subtree_entries ancestors_first fst snd dir_entry IsDir asset_is_dir].
    split; [done|]. apply children_ancestors_first; [done|].
    intros k' Hne Hp. destruct (decide (k' = key)) as [->|]; [by left|].
    right. by apply Hseen.
Qed.

Lemma entries_under_ancestors_first es : ancestors_first [] (entries_under es).
Proof.
  unfold entries_under.
  pose proof (children_ancestors_first [] es) as H. cbn [app] in H.
  apply H.
  - apply Forall_forall. intros c _. apply subtree_ancestors_first.
  - intros k' Hne Hp. by apply prefix_nil_inv in Hp.
Qed.

Lemma template_entries_ancestors_first tm : ancestors_first [] (template_entries tm).
Proof.
  unfold template_entries.
  destruct (embed.Open _ _) as [|[|n es]]; [done..|].
  apply entries_under_ancestors_first.
Qed.

(** ** The dry run against the real run *)

(** The nodes [CreateFile] adds are directories, but for the file
    itself. *)
Lemma OS_CreateFile_new_nodes K content perm o r o' :
  valid_names K → os.node_at o K = None →
  OSFileSystem.CreateFile (os.key_path K) content perm o = (r, o') →
  ∀ k n, os.node_at o' k = Some n →
         os.node_at o k = Some n ∨ n = os.Dir mode_0755 ∨ k = K.
Proof.
  intros HK Hk. pose proof (node_at_None_ne _ _ Hk) as Hne.
  rewrite OS_CreateFile_cases, resolve_key_path, Hk by done.
  rewrite Dir_key_path by done.
  destruct (OSFileSystem.CreateDir _ _ o) as [[err|] o1] eqn:E1.
  - intros ?; simplify_eq. apply OS_CreateDir_spec in E1 as (_ & Hn & _).
    intros k n Hkn. destruct (Hn k n Hkn); auto.
  - apply OS_CreateDir_spec in E1 as (_ & Hn & _).
    unfold os.WriteFile, os.write_at. rewrite resolve_key_path by done.
    intros H k n Hkn.
    assert (os.node_at o1 k = Some n ∨ k = K) as [Hk1| ->]; [|destruct (Hn k n Hk1); auto|auto].
    destruct (os.node_at o1 K) as [[]|] eqn:EK.
    + simplify_eq. rewrite node_at_insert in Hkn by done.
      destruct (decide (K = k)); auto.
    + simplify_eq. auto.
    + destruct (os.node_at o1 (removelast K)) as [[]|]; simplify_eq; auto.
      rewrite node_at_insert in Hkn by done. destruct (decide (K = k)); auto.
Qed.

Section mirror.
Variable T : list string.
Hypothesis HT : valid_names T.

Lemma destination_app k : destination T k = (T ++ [".claude"]) ++ k.
Proof. unfold destination. by rewrite <- app_assoc. Qed.

(** A path above a destination is above the deployed subtree or is the
    destination of a path above the entry. *)
Lemma prefix_destination p k :
  p `prefix_of` destination T k →
  p `prefix_of` T ++ [".claude"] ∨
  ∃ k', k' ≠ [] ∧ k' `prefix_of` k ∧ p = destination T k'.
Proof.
  rewrite destination_app. intros Hp.
  destruct (prefix_weak_total p (T ++ [".claude"]) _ Hp) as [?|[k' ->]];
    [by apply prefix_app_r|by left|].
  destruct (decide (k' = [])) as [->|Hne].
  { left. by rewrite app_nil_r. }
  right. exists k'. split_and!; [done| |by rewrite destination_app].
  by apply prefix_app_inv in Hp.
Qed.

(** Nothing stands in the way of the entry the walk has come to. *)
Lemma head_clear (seen : list (list string)) o k :
  clear_above o (T ++ [".claude"]) →
  (∀ k', k' ∈ seen → ∃ m, os.node_at o (destination T k') = Some (os.Dir m)) →
  (∀ k', k' ≠ [] → k' `prefix_of` k → k' ≠ k → k' ∈ seen) →
  ∀ p m c, p `prefix_of` destination T k → p ≠ destination T k →
           os.node_at o p ≠ Some (os.File m c).
Proof.
  intros Hclear Hseen Hanc p m c Hp Hne.
  apply prefix_destination in Hp as [Hp|(k' & Hk' & Hpk & ->)]; [by apply Hclear|].
  destruct (Hseen k') as [m' ->]; [|done].
  apply Hanc; [done..|]. by intros ->.
Qed.

(** The run through the dry-run port decides as the run on the host
    port does, entry after entry, up to the first error of either. *)
Lemma dry_mirrors_real_all L : ∀ seen e_r o_r e_d o r e_r' o_r' w,
  TargetDir (config e_r) = os.key_path T → TargetDir (config e_d) = os.key_path T →
  fs e_r = OSFileSystem → fs e_d = DryRunFileSystem w → tmpl e_d = tmpl e_r →
  stats e_d = stats e_r →
  (∀ k d, (k, d) ∈ L → k ≠ [] ∧ valid_names k) →
  no_back_prefix (map fst L) → ancestors_first seen L →
  (∀ k d, (k, d) ∈ L →
     os.node_at o_r (destination T k) = os.node_at o (destination T k)) →
  (∀ k', k' ∈ seen → ∃ m, os.node_at o_r (destination T k') = Some (os.Dir m)) →
  clear_above o_r (T ++ [".claude"]) →
  walk_entries Engine.walkFn (map path_of L) (e_r, o_r) = (r, (e_r', o_r')) →
  ∃ e_d', walk_entries Engine.walkFn (map path_of L) (e_d, o) = (r, (e_d', o)) ∧
          stats e_d' = stats e_r'.
Proof.
  induction L as [|[k d] L IH];
    intros seen e_r o_r e_d o r e_r' o_r' w Hcr Hcd Hfr Hfd Htm Hst Hkeys Hnb Hanc
      Hagree Hseen Hclear H.
  { simpl in H. simplify_eq. by exists e_d. }
  destruct (Hkeys k d) as [Hne Hk]; [by left|].
  pose proof (destination_valid T HT k Hk) as Hv.
  pose proof (Hagree k d ltac:(by left)) as Hhead.
  destruct Hnb as [Hback Hnb]. cbn [map fst] in Hback.
  destruct Hanc as [Hup Hanc]. cbn [fst snd] in Hup, Hanc.
  pose proof (head_clear seen o_r k Hclear Hseen Hup) as Hfree.
  assert (∀ k' d', (k', d') ∈ L → k' ≠ [] ∧ valid_names k') as Hkeys'.
  { intros k' d' ?. apply (Hkeys k' d'). by right. }
  assert (∀ k' d', (k', d') ∈ L → ¬ k' `prefix_of` k) as Hlater.
  { intros k' d' Hin. apply Hback. apply list_elem_of_fmap. by exists (k', d'). }
  assert (∀ o1, extends o_r o1 →
            ∀ k', k' ∈ seen → ∃ m, os.node_at o1 (destination T k') = Some (os.Dir m))
    as Hseen_ext.
  { intros o1 [_ Hext] k' Hin. destruct (Hseen k' Hin) as [m Hm]. eauto. }
  cbn [map path_of walk_entries fst snd] in H |- *.
  destruct (IsDir d) eqn:Hd.
  - rewrite !(walkFn_dir_step T HT) in * by done. rewrite Hhead in H.
    destruct (os.node_at o (destination T k)) as [[m c|m]|] eqn:En.
    + cbv beta iota zeta in *. simplify_eq. eexists. split; [done|].
      unfold Engine.append_error. simpl. by rewrite Hst.
    + eapply (IH (k :: seen) (Engine.incr_DirsSkipped e_r) o_r
                (Engine.incr_DirsSkipped e_d));
        [done..| | | | | | | |exact H];
        [by unfold Engine.incr_DirsSkipped; simpl; rewrite Hst|done|done|done| | |done].
      * intros k' d' Hin. apply (Hagree k' d'). by right.
      * intros k' [->|Hin]%elem_of_cons; [rewrite Hhead; eauto|by apply Hseen].
    + rewrite Hfr in H. cbn [FileSystem.CreateDir] in H.
      destruct (OSFileSystem.CreateDir _ _ o_r) as [[err|] o_r1] eqn:E.
      { apply OS_CreateDir_key in E as (_ & _ & _ & Hfail); [|done|by rewrite Hhead].
        destruct Hfail as (p & m & c & Hp & Hf); [done|].
        destruct (Hfree p m c Hp); [|done]. intros ->. congruence. }
      pose proof (OS_CreateDir_spec _ _ _ _ _ E) as (_ & Hnew & _).
      apply OS_CreateDir_key in E as (Hg & _ & Hok & _); [|done|by rewrite Hhead].
      rewrite Hfd, DryRun_CreateDir_missing by (by rewrite resolve_key_path).
      eapply (IH (k :: seen) (Engine.incr_DirsCreated e_r) o_r1
                (Engine.incr_DirsCreated e_d));
        [done..| | | | | | | |exact H];
        [by unfold Engine.incr_DirsCreated; simpl; rewrite Hst|done|done|done| | |].
      * intros k' d' Hin. rewrite <- (Hagree k' d') by by right.
        eapply grows_within_elsewhere; [done|by eapply Hlater].
      * intros k' [->|Hin]%elem_of_cons; [rewrite Hok by done; eauto|].
        eapply Hseen_ext; [by eapply grows_within_extends|done].
      * intros p m c Hp Hf. destruct (Hnew _ _ Hf) as [?|?]; [|done].
        by eapply Hclear.
  - rewrite !(walkFn_file_step T HT) in * by done. rewrite Hhead in H.
    destruct (os.node_at o (destination T k)) as [[m c|m]|] eqn:En.
    + eapply (IH seen (Engine.incr_FilesSkipped e_r) o_r
                (Engine.incr_FilesSkipped e_d));
        [done..| | | | | | | |exact H];
        [by unfold Engine.incr_FilesSkipped; simpl; rewrite Hst|done|done|done| |done|done].
      intros k' d' Hin. apply (Hagree k' d'). by right.
    + cbv beta iota zeta in *. simplify_eq. eexists. split; [done|].
      unfold Engine.append_error. simpl. by rewrite Hst.
    + rewrite Htm. destruct (TemplateManager.ReadFile _ _) as [err|content].
      { simplify_eq. eexists. split; [done|].
        unfold Engine.append_error. simpl. by rewrite Hst. }
      rewrite Hfr in H. cbn [FileSystem.CreateFile] in H.
      destruct (OSFileSystem.CreateFile _ _ _ o_r) as [[err|] o_r1] eqn:E.
      { apply OS_CreateFile_key in E as (_ & _ & _ & Hfail); [|done|by rewrite Hhead].
        destruct Hfail as (p & m & c & Hp & Hf); [done|].
        destruct (Hfree p m c); [by etrans; [|apply removelast_prefix]| |done].
        intros ->. by apply not_prefix_removelast in Hp;
          [|by eapply node_at_None_ne; rewrite Hhead]. }
      pose proof (OS_CreateFile_new_nodes _ _ _ _ _ _ Hv ltac:(by rewrite Hhead) E)
        as Hnew.
      apply OS_CreateFile_key in E as (Hg & _); [|done|by rewrite Hhead].
      rewrite Hfd, DryRun_CreateFile_missing by (by rewrite resolve_key_path).
      eapply (IH seen (Engine.incr_FilesCreated e_r) o_r1
                (Engine.incr_FilesCreated e_d));
        [done..| | | | | | | |exact H];
        [by unfold Engine.incr_FilesCreated; simpl; rewrite Hst|done|done|done| | |].
      * intros k' d' Hin. rewrite <- (Hagree k' d') by by right.
        eapply grows_within_elsewhere; [done|by eapply Hlater].
      * eapply Hseen_ext. by eapply grows_within_extends.
      * intros p m c Hp Hf. destruct (Hnew _ _ Hf) as [?|[?| ->]]; [|done|].
        -- by eapply Hclear.
        -- rewrite destination_app in Hp.
           apply Hne. apply (prefix_length) in Hp.
           rewrite length_app in Hp. destruct k; [done|simpl in Hp; lia].
Qed.

End mirror.

(** C7 (amended).  A dry run changes nothing on the host, from every
    starting state.  And provided no regular file stands at the
    [.claude] directory of the target or above it, the dry run returns
    what the real run from the same state returns, with the same
    statistics: the same numbers of files and directories created and
    skipped and the same errors. *)
Theorem C7_dry_run_mirrors_real (embedded : embed.FS) (real dry : Config)
    (T : list string) (o : OS) :
  wf_fs embedded = true → valid_names T →
  TargetDir real = os.key_path T → TargetDir dry = os.key_path T →
  DryRun real = false → DryRun dry = true →
  (Engine.Run (NewEngine embedded dry, o)).2.2 = o ∧
  (clear_above o (T ++ [".claude"]) →
   (Engine.Run (NewEngine embedded dry, o)).1
   = (Engine.Run (NewEngine embedded real, o)).1 ∧
   stats (Engine.Run (NewEngine embedded dry, o)).2.1
   = stats (Engine.Run (NewEngine embedded real, o)).2.1).
Proof.
  intros Hwf HT Htr Htd Hr Hd. split.
  { apply (Run_dry_same _ _ OSFileSystem). unfold NewEngine. by rewrite Hd. }
  intros Hclear. rewrite !Run_walk by done.
  destruct (TemplateManager.HasTemplates _); [|done]. cbn [negb].
  set (L := template_entries (NewTemplateManager embedded ".claude")).
  destruct (walk_entries Engine.walkFn (map path_of L) (NewEngine embedded real, o))
    as [r [e_r o_r]] eqn:E.
  destruct (dry_mirrors_real_all T HT L [] (NewEngine embedded real) o
              (NewEngine embedded dry) o r e_r o_r OSFileSystem)
    as (e_d & -> & Hst); try done.
  - unfold NewEngine. by rewrite Hr.
  - unfold NewEngine. by rewrite Hd.
  - intros k d. by apply template_entries_keys.
  - by apply template_entries_no_back_prefix.
  - apply template_entries_ancestors_first.
  - by intros k' ?%elem_of_nil.
  - destruct r as [err|]; [done|]. cbn [fst snd]. rewrite Hst.
    by case_bool_decide.
Qed.

Lemma C7_dry_run_mirrors_real_witness :
  let real := Engine.Run (NewEngine Examples.assets (Examples.cfg false),
                          Examples.commands_is_file) in
  let dry := Engine.Run (NewEngine Examples.assets (Examples.cfg true),
                         Examples.commands_is_file) in
  wf_fs Examples.assets = true ∧ valid_names ["t"] ∧
  clear_above Examples.commands_is_file (["t"] ++ [".claude"]) ∧
  dry.2.2 = Examples.commands_is_file ∧ dry.1 = real.1 ∧
  stats dry.2.1 = stats real.2.1.
Proof.
  intros real dry.
  assert (clear_above Examples.commands_is_file (["t"] ++ [".claude"])) as Hclear.
  { intros p m c [s E] Hf.
    destruct p as [|x [|y [|z p]]]; simplify_eq; vm_compute in Hf; discriminate. }
  split; [reflexivity|]. split; [by repeat constructor|]. split; [exact Hclear|].
  destruct (C7_dry_run_mirrors_real Examples.assets (Examples.cfg false)
              (Examples.cfg true) ["t"] Examples.commands_is_file) as [H1 H2].
  - reflexivity.
  - by repeat constructor.
  - reflexivity.
  - reflexivity.
  - reflexivity.
  - reflexivity.
  - split; [exact H1|]. apply H2. exact Hclear.
Defined.

(** C7 as stated fails: where a regular file stands at [.claude], the
    real run cannot make the directory [commands] and stops with that
    error, having created nothing, while the dry run reports one
    directory and two files created and no error. *)
Lemma C7_counterexample :
  let real := Engine.Run (NewEngine Examples.assets (Examples.cfg false),
                          Examples.claude_is_file) in
  let dry := Engine.Run (NewEngine Examples.assets (Examples.cfg true),
                         Examples.claude_is_file) in
  real.1 = Some (ErrorfW "failed to process templates: %w" []
                   (PathError "mkdir" "/t/.claude" ENOTDIR)) ∧
  dry.1 = None ∧
  (DirsCreated (stats real.2.1), FilesCreated (stats real.2.1)) = (0, 0) ∧
  (DirsCreated (stats dry.2.1), FilesCreated (stats dry.2.1)) = (1, 2) ∧
  Errors (stats dry.2.1) = [] ∧
  stats dry.2.1 ≠ stats real.2.1.
Proof. vm_compute. by repeat split. Qed.

(** * Further properties *)

(** ** The walk, for any callback that answers no sentinel on an entry *)

Section walk_any.
Context {St : Type}.
Variable fn : @WalkDirFunc St.
Hypothesis fn_entry_plain :
  ∀ p d s err s', fn p (Some d) None s = (Some err, s') → plain_error err = true.

Lemma walk_entries_entry_plain l s err s' :
  walk_entries fn l s = (Some err, s') → plain_error err = true.
Proof.
  revert s. induction l as [|[p d] l IH]; intros s; [done|].
  simpl. destruct (fn p (Some d) None s) as [[e|] s1] eqn:E; [|apply IH].
  intros ?; simplify_eq. eauto.
Qed.

Lemma walkDir_entries_any d : ∀ name s,
  walkDir fn name d s = walk_entries fn (raw_entries name d) s.
Proof.
  induction d as [n data|n entries IH] using Asset_ind_nested; intros name s.
  - simpl. destruct (fn name _ None s) as [[err|] s1] eqn:E; [|done].
    by rewrite andb_false_r.
  - cbn [walkDir raw_entries walk_entries].
    destruct (fn name _ None s) as [[err|] s1] eqn:E.
    { by rewrite (plain_error_SkipDir err) by eauto. }
    clear E. revert s1. induction IH as [|d1 rest Hd1 _ IHrest]; intros s1; [done|].
    cbn [flat_map]. rewrite walk_entries_app, <- Hd1.
    destruct (walkDir fn _ d1 s1) as [[err|] s2] eqn:E1.
    + rewrite Hd1 in E1. by rewrite (plain_error_SkipDir err)
        by eauto using walk_entries_entry_plain.
    + apply IHrest.
Qed.

End walk_any.

Lemma walkFn_entry_plain {St} (fn : @WalkDirFunc St) tm :
  (∀ p d s err s', fn p (Some d) None s = (Some err, s') → plain_error err = true) →
  ∀ p d s err s',
    TemplateManager.walkFn tm fn p (Some d) None s = (Some err, s') →
    plain_error err = true.
Proof.
  intros Hfn p d s err s'. unfold TemplateManager.walkFn.
  case_bool_decide; [done|]. apply Hfn.
Qed.

(** On a well-formed tree with the prefix [P], [Walk] calls any such
    callback on the entries below the prefix, in order. *)
Lemma Walk_entries_any {St} (fn : @WalkDirFunc St) tm P a s :
  (∀ p d s err s', fn p (Some d) None s = (Some err, s') → plain_error err = true) →
  tm_prefix tm = strings.JoinSlash P → P ≠ [] → valid_names P →
  embed.Open (tm_fs tm) (tm_prefix tm) = inr a → wf_below a = true →
  TemplateManager.Walk tm fn s
  = walk_entries fn (map path_of (template_entries tm)) s.
Proof.
  intros Hfn HP Hne HvP Ha Hwf. unfold TemplateManager.Walk, WalkDir, template_entries.
  rewrite Ha.
  rewrite walkDir_entries_any by by apply walkFn_entry_plain.
  rewrite HP. rewrite raw_entries_wf by done.
  set (wfn := TemplateManager.walkFn tm fn).
  assert (∀ l s, (∀ k e, (k, e) ∈ l → k ≠ [] ∧ valid_names k) →
            walk_entries wfn (map path_of (map (λ ke, (P ++ ke.1, ke.2)) l)) s
            = walk_entries fn (map path_of l) s) as Hl.
  { clear s. induction l as [|[k e] l IH]; intros s Hkeys; [done|].
    destruct (Hkeys k e) as [Hk Hvk]; [by left|].
    cbn [map walk_entries fst snd]. unfold path_of at 1 3.
    cbn [walk_entries fst snd]. unfold wfn at 1.
    rewrite (Walk_callback fn tm P k) by done.
    destruct (fn _ _ None s) as [[err|] s1]; [done|].
    apply IH. intros k' e' ?. apply (Hkeys k' e'). by right. }
  assert (∀ d s, wfn (strings.JoinSlash P) d None s = (None, s)) as Hroot.
  { intros d s0. unfold wfn, TemplateManager.walkFn. rewrite HP.
    by rewrite bool_decide_eq_true_2. }
  destruct a as [n data|n es].
  - cbn [subtree_entries map]. unfold path_of. cbn [walk_entries fst snd].
    by rewrite Hroot.
  - cbn [subtree_entries map]. unfold path_of at 1. cbn [walk_entries fst snd].
    rewrite Hroot.
    rewrite entries_under_shift, Hl by (intros k e ?; by apply (entries_under_keys es k e)).
    destruct (walk_entries fn _ s) as [[err|] s1] eqn:E; [|done].
    apply walk_entries_entry_plain in E; [|done].
    by rewrite plain_error_SkipDir, plain_error_SkipAll.
Qed.

(** ** Walking and reading back *)

Lemma no_back_prefix_NoDup l : no_back_prefix l → NoDup l.
Proof.
  induction l as [|x l IH]; [constructor|]. intros [Hh Ht].
  constructor; [|by apply IH]. intros Hin. by apply (Hh x Hin).
Qed.

Lemma JoinSlash_inj_valid k k' :
  k ≠ [] → k' ≠ [] → valid_names k → valid_names k' →
  strings.JoinSlash k = strings.JoinSlash k' → k = k'.
Proof.
  intros Hk Hk' Hv Hv' E. apply (f_equal strings.SplitSlash) in E.
  by rewrite !strings_SplitSlash_JoinSlash in E by eauto using valid_names_slash_free.
Qed.

Lemma find_entry_NoDup es c :
  NoDup (map asset_name es) → c ∈ es →
  embed.find_entry (asset_name c) es = Some c.
Proof.
  unfold embed.find_entry. induction es as [|x es IH]; intros Hnd Hin.
  - by apply elem_of_nil in Hin.
  - cbn [map] in Hnd. apply NoDup_cons in Hnd as [Hx Hnd]. cbn [find].
    apply elem_of_cons in Hin as [->|Hin].
    + by rewrite bool_decide_eq_true_2.
    + rewrite bool_decide_eq_false_2; [by apply IH|].
      intros E. apply Hx. rewrite E. apply list_elem_of_fmap. by exists c.
Qed.

(** The entry the walk yields under the names [k] is the node found by
    going down the tree along [k]. *)
Lemma subtree_entries_descend c : ∀ k d,
  wf_asset c = true → (k, d) ∈ subtree_entries [] c →
  ∃ a, embed.descend c k = Some a ∧ dir_entry a = d.
Proof.
  induction c as [n data|n es IH] using Asset_ind_nested; intros k d Hwf Hin.
  - apply list_elem_of_singleton in Hin. simplify_eq. by eexists.
  - cbn [subtree_entries] in Hin. apply elem_of_cons in Hin as [?|Hin].
    { simplify_eq. by eexists. }
    apply list_elem_of_In, in_flat_map in Hin as (c & Hc & Hin).
    apply list_elem_of_In in Hc, Hin. cbn [app] in Hin.
    rewrite <- (app_nil_r [asset_name c]), subtree_entries_shift in Hin.
    apply list_elem_of_fmap in Hin as ([k' d'] & ? & Hin). simplify_eq.
    pose proof (wf_asset_NoDup _ _ Hwf) as Hnd.
    apply wf_asset_inv in Hwf as [_ Hwf]. simpl in Hwf.
    rewrite forallb_forall in Hwf.
    rewrite Forall_forall in IH.
    destruct (IH c Hc k' d') as (a & Ha & Hd);
      [by apply Hwf, list_elem_of_In|done|].
    exists a. split; [|done]. cbn [app embed.descend].
    by rewrite find_entry_NoDup.
Qed.

Lemma entries_under_descend n es k d :
  wf_asset (ADir n es) = true → (k, d) ∈ entries_under es →
  ∃ a, embed.descend (ADir n es) k = Some a ∧ dir_entry a = d.
Proof.
  intros Hwf Hin. apply (subtree_entries_descend (ADir n es)); [done|].
  cbn [subtree_entries]. right. done.
Qed.

Lemma valid_names_forallb k :
  valid_names k → forallb embed.valid_elem k = true.
Proof.
  intros Hk. apply forallb_forall. intros x Hx.
  rewrite Forall_forall in Hk. apply list_elem_of_In, Hk in Hx.
  unfold valid_name in Hx. by apply andb_true_iff in Hx as [? _].
Qed.

(** Opening a path below [.claude]. *)
Lemma Open_below embedded a0 k :
  embed.Open embedded ".claude" = inr a0 → valid_names k →
  embed.Open embedded (strings.JoinSlash (".claude" :: k))
  = match embed.descend a0 k with
    | Some a => inr a
    | None => inl (PathError "open" (strings.JoinSlash (".claude" :: k)) ENOENT)
    end.
Proof.
  intros H0 Hk.
  assert (valid_names (".claude" :: k)) as Hv by by constructor.
  assert (embed.find_entry ".claude" (embed.root_entries embedded) = Some a0) as Hf.
  { revert H0. unfold embed.Open.
    change (embed.ValidPath ".claude") with true.
    change (strings.SplitSlash ".claude") with [".claude"].
    cbn [negb]. rewrite bool_decide_eq_false_2 by done.
    cbn [embed.descend]. destruct (embed.find_entry _ _); by intros ?; simplify_eq. }
  unfold embed.Open, embed.ValidPath.
  rewrite strings_SplitSlash_JoinSlash by eauto using valid_names_slash_free.
  rewrite valid_names_forallb by done. rewrite orb_true_r. cbn [negb].
  rewrite bool_decide_eq_false_2.
  - cbn [embed.descend]. by rewrite Hf.
  - intros E. apply (f_equal strings.SplitSlash) in E.
    rewrite strings_SplitSlash_JoinSlash in E by eauto using valid_names_slash_free.
    destruct k; simplify_eq.
Qed.

Lemma Join_claude k :
  valid_names k → k ≠ [] →
  path.Join [".claude"; strings.JoinSlash k] = strings.JoinSlash (".claude" :: k).
Proof.
  intros Hk Hne. rewrite Join_cons_nonempty by done.
  change (strings.JoinSlash [".claude"; strings.JoinSlash k])
    with (strings.JoinSlash [".claude"] +:+ "/" +:+ strings.JoinSlash k).
  rewrite <- (JoinSlash_app [".claude"] k) by done.
  apply Clean_JoinSlash_valid; [done|]. by constructor.
Qed.

(** What is found below [.claude] for an entry of the walk. *)
Lemma template_entry_node embedded k d :
  wf_fs embedded = true →
  (k, d) ∈ template_entries (NewTemplateManager embedded ".claude") →
  ∃ a, embed.Open embedded (path.Join [".claude"; strings.JoinSlash k]) = inr a ∧
       dir_entry a = d.
Proof.
  intros Hwf Hin.
  destruct (template_entries_keys _ _ _ Hwf Hin) as [Hne Hk].
  revert Hin. unfold template_entries. cbn [tm_fs tm_prefix NewTemplateManager].
  destruct (embed.Open embedded ".claude") as [|[|n es]] eqn:E;
    [by intros ?%elem_of_nil..|].
  intros Hin. pose proof (Open_claude_wf _ _ Hwf E) as Hwa.
  destruct (entries_under_descend n es k d Hwa Hin) as (a & Ha & Hd).
  exists a. split; [|done].
  by rewrite Join_claude, (Open_below embedded _ k E), Ha.
Qed.

Lemma record_fn_entry_plain p d s err s' :
  record_fn p (Some d) None s = (Some err, s') → plain_error err = true.
Proof. done. Qed.

Lemma walk_entries_record l : ∀ s, walk_entries record_fn l s = (None, s ++ l).
Proof.
  induction l as [|[p d] l IH]; intros s; cbn [walk_entries].
  - by rewrite app_nil_r.
  - cbn [record_fn]. rewrite IH. by rewrite <- app_assoc.
Qed.

Lemma Walk_record embedded :
  wf_fs embedded = true →
  TemplateManager.Walk (NewTemplateManager embedded ".claude") record_fn [] =
  match embed.Open embedded ".claude" with
  | inl err => (Some err, [])
  | inr _ => (None, map path_of (template_entries (NewTemplateManager embedded ".claude")))
  end.
Proof.
  intros Hwf. destruct (embed.Open embedded ".claude") as [err|a] eqn:E.
  - unfold TemplateManager.Walk, WalkDir. cbn [tm_fs tm_prefix NewTemplateManager].
    rewrite E. cbn. revert E. unfold embed.Open.
    destruct (negb _); [by intros; simplify_eq|].
    destruct (embed.descend _ _); by intros; simplify_eq.
  - rewrite (Walk_entries_any record_fn _ [".claude"] a);
      [by rewrite walk_entries_record| apply record_fn_entry_plain |done|done| |done|].
    + by repeat constructor.
    + pose proof (Open_claude_wf _ _ Hwf E) as Ha. destruct a; [done|].
      by apply wf_asset_inv in Ha as [_ Ha].
Qed.

Lemma ancestors_first_lookup L : ∀ seen,
  ancestors_first seen L →
  ∀ i k d, L !! i = Some (k, d) →
  ∀ k', k' ≠ [] → k' `prefix_of` k → k' ≠ k →
  k' ∈ seen ∨ ∃ j d', j < i ∧ L !! j = Some (k', d') ∧ IsDir d' = true.
Proof.
  induction L as [|[k0 d0] L IH]; intros seen HL i k d Hi k' Hne Hpre Hneq.
  { by rewrite lookup_nil in Hi. }
  destruct HL as [Hhd Htl]. destruct i as [|i].
  - cbn in Hi. simplify_eq. left. by apply Hhd.
  - cbn in Hi. cbn [fst snd] in Htl.
    destruct (IH _ Htl i k d Hi k' Hne Hpre Hneq) as [Hin|(j & d' & Hj & Hl & Hd)].
    + destruct (IsDir d0) eqn:Ed0; [|by left].
      apply elem_of_cons in Hin as [->|Hin]; [|by left].
      right. exists 0, d0. split; [lia|done].
    + right. exists (S j), d'. split; [lia|done].
Qed.

Lemma Dir_JoinSlash k :
  valid_names k →
  path.Dir (strings.JoinSlash k) =
  match removelast k with
  | [] => "."
  | r => strings.JoinSlash r
  end.
Proof.
  intros Hk. destruct k as [|n k]; [done|].
  unfold path.Dir.
  rewrite strings_SplitSlash_JoinSlash by eauto using valid_names_slash_free.
  destruct k as [|m k]; [done|].
  pose proof (valid_names_removelast _ Hk) as HR.
  change (removelast (n :: m :: k)) with (n :: removelast (m :: k)) in *.
  set (R := n :: removelast (m :: k)) in *.
  assert (R ≠ []) as HRne by done.
  assert (path.IsAbs (strings.JoinSlash R +:+ "/") = false) as Hrel.
  { unfold R. inversion Hk as [|? ? Hn _]; subst.
    destruct n as [|c n]; [done|].
    assert (c ≠ "/"%char) as Hc.
    { intros ->. apply andb_true_iff in Hn as [_ Hn].
      apply bool_decide_eq_true in Hn. unfold slash_free in Hn.
      cbn [strings.SplitSlash] in Hn. by rewrite Ascii.eqb_refl in Hn. }
    destruct (removelast (m :: k)).
    - change (strings.JoinSlash [String c n]) with (String c n).
      rewrite append_cons. unfold path.IsAbs, strings.HasPrefix.
      rewrite cut_prefix_cons. assert (Ascii.eqb "/" c = false) as -> by (apply Ascii.eqb_neq; congruence). done.
    - rewrite JoinSlash_cons by done. rewrite !append_cons.
      unfold path.IsAbs, strings.HasPrefix.
      rewrite cut_prefix_cons. assert (Ascii.eqb "/" c = false) as -> by (apply Ascii.eqb_neq; congruence). done. }
  unfold path.Clean. rewrite Hrel.
  replace (strings.JoinSlash R +:+ "/") with (strings.JoinSlash R +:+ "/" +:+ "") by done.
  rewrite SplitSlash_app.
  rewrite strings_SplitSlash_JoinSlash by eauto using valid_names_slash_free.
  change (strings.SplitSlash "") with [""].
  rewrite clean_elems_snoc_empty, clean_elems_valid by done.
  by destruct R.
Qed.

(** ** The template manager *)

(** X1. [Walk] hands its callback the entries below the prefix and
    nothing else: each one once, with its path from the prefix, a
    directory before what it holds and the entries of a directory in
    their order; the prefix itself is not handed over.  When the prefix
    cannot be opened the callback gets the error and no entry. *)
Theorem Walk_hands_over_the_entries (embedded : embed.FS) :
  wf_fs embedded = true →
  TemplateManager.Walk (NewTemplateManager embedded ".claude") record_fn [] =
  match embed.Open embedded ".claude" with
  | inl err => (Some err, [])
  | inr _ => (None, map path_of (template_entries (NewTemplateManager embedded ".claude")))
  end.
Proof. apply Walk_record. Qed.

Lemma Walk_hands_over_the_entries_witness :
  wf_fs Examples.assets = true ∧
  TemplateManager.Walk (NewTemplateManager Examples.assets ".claude") record_fn [] =
  (None, [("commands", {| Name := "commands"; IsDir := true |});
          ("commands/ask.md", {| Name := "ask.md"; IsDir := false |});
          ("settings.json", {| Name := "settings.json"; IsDir := false |})]).
Proof.
  split; [reflexivity|].
  rewrite (Walk_hands_over_the_entries Examples.assets); vm_compute; reflexivity.
Defined.

Lemma Walk_record_inv embedded l :
  wf_fs embedded = true →
  TemplateManager.Walk (NewTemplateManager embedded ".claude") record_fn [] = (None, l) →
  l = map path_of (template_entries (NewTemplateManager embedded ".claude")).
Proof.
  intros Hwf. rewrite Walk_record by done.
  destruct (embed.Open _ _); by intros; simplify_eq.
Qed.

(** X2. The paths [Walk] hands over are pairwise distinct, and the
    directory of a path, unless it is the prefix, was handed over
    before it, as a directory. *)
Theorem Walk_paths_distinct_parents_first (embedded : embed.FS)
    (l : list (string * DirEntry)) :
  wf_fs embedded = true →
  TemplateManager.Walk (NewTemplateManager embedded ".claude") record_fn [] = (None, l) →
  NoDup (map fst l) ∧
  ∀ i p d, l !! i = Some (p, d) →
    path.Dir p = "." ∨
    ∃ j d', j < i ∧ l !! j = Some (path.Dir p, d') ∧ IsDir d' = true.
Proof.
  intros Hwf Hl. apply Walk_record_inv in Hl as ->; [|done].
  set (L := template_entries _).
  assert (∀ k d, (k, d) ∈ L → k ≠ [] ∧ valid_names k) as HL
    by (intros k d; by apply template_entries_keys).
  split.
  - replace (map fst (map path_of L)) with (strings.JoinSlash <$> (map fst L))
      by (clear; induction L as [|? ? IH]; [done|]; cbn; by rewrite IH).
    apply NoDup_fmap_2_strong.
    + intros k k' Hk Hk' E.
      apply list_elem_of_fmap in Hk as ([? d] & -> & Hk).
      apply list_elem_of_fmap in Hk' as ([? d'] & -> & Hk').
      apply HL in Hk as [? ?], Hk' as [? ?]. by apply JoinSlash_inj_valid.
    + by apply no_back_prefix_NoDup, template_entries_no_back_prefix.
  - intros i p d Hi.
    change (map path_of L) with (path_of <$> L) in Hi.
    rewrite list_lookup_fmap in Hi.
    destruct (L !! i) as [[k d0]|] eqn:Ei; [|done]. cbn in Hi.
    injection Hi as <- <-. cbn [fst snd].
    destruct (HL k d0) as [Hne Hk]; [by eapply list_elem_of_lookup_2|].
    rewrite Dir_JoinSlash by done.
    destruct (removelast k) as [|r R] eqn:ER; [by left|]. right.
    destruct (ancestors_first_lookup L [] (template_entries_ancestors_first _)
                i k d0 Ei (r :: R)) as [Hin|(j & d' & Hj & Hlj & Hd)].
    + done.
    + rewrite <- ER. apply removelast_prefix.
    + rewrite <- ER. intros E. apply (not_prefix_removelast k Hne). by rewrite E.
    + by apply elem_of_nil in Hin.
    + exists j, d'. split; [done|]. split; [|done].
      change (map path_of L) with (path_of <$> L).
      by rewrite list_lookup_fmap, Hlj.
Qed.

Lemma Walk_paths_distinct_parents_first_witness :
  let l := [("commands", {| Name := "commands"; IsDir := true |});
            ("commands/ask.md", {| Name := "ask.md"; IsDir := false |});
            ("settings.json", {| Name := "settings.json"; IsDir := false |})] in
  wf_fs Examples.assets = true ∧
  TemplateManager.Walk (NewTemplateManager Examples.assets ".claude") record_fn [] = (None, l) ∧
  NoDup (map fst l).
Proof.
  intros l. split; [reflexivity|]. split; [vm_compute; reflexivity|].
  apply (Walk_paths_distinct_parents_first Examples.assets l); vm_compute; reflexivity.
Defined.

(** X3. Every path [Walk] hands over can be given back to
    [ReadFile]: for a file entry it returns the content, for a
    directory entry it fails with the wrapped error of reading a
    directory. *)
Theorem ReadFile_of_walked_entry (embedded : embed.FS)
    (l : list (string * DirEntry)) (p : string) (d : DirEntry) :
  wf_fs embedded = true →
  TemplateManager.Walk (NewTemplateManager embedded ".claude") record_fn [] = (None, l) →
  (p, d) ∈ l →
  if IsDir d
  then TemplateManager.ReadFile (NewTemplateManager embedded ".claude") p =
       inl (ErrorfW "failed to read embedded file %s: %w" [path.Join [".claude"; p]]
              (PathError "read" (path.Join [".claude"; p]) EISDIR))
  else ∃ data, TemplateManager.ReadFile (NewTemplateManager embedded ".claude") p = inr data.
Proof.
  intros Hwf Hl Hin. apply Walk_record_inv in Hl as ->; [|done].
  apply list_elem_of_fmap in Hin as ([k d0] & E & Hin). injection E as -> ->.
  cbn [fst snd].
  destruct (template_entry_node _ _ _ Hwf Hin) as (a & Ha & <-).
  unfold TemplateManager.ReadFile, embed.ReadFile.
  cbn [tm_fs tm_prefix NewTemplateManager]. rewrite Ha.
  destruct a; cbn; [by eexists|done].
Qed.

Lemma ReadFile_of_walked_entry_witness :
  TemplateManager.ReadFile (NewTemplateManager Examples.assets ".claude") "commands" =
  inl (ErrorfW "failed to read embedded file %s: %w" [".claude/commands"]
         (PathError "read" ".claude/commands" EISDIR)).
Proof.
  apply (ReadFile_of_walked_entry Examples.assets
           [("commands", {| Name := "commands"; IsDir := true |});
            ("commands/ask.md", {| Name := "ask.md"; IsDir := false |});
            ("settings.json", {| Name := "settings.json"; IsDir := false |})]
           "commands" {| Name := "commands"; IsDir := true |});
    [reflexivity | vm_compute; reflexivity | apply list_elem_of_here].
Defined.

(** X4. [GetFileInfo] of a path [Walk] hands over succeeds and tells
    the name and the kind of the entry handed over with it. *)
Theorem GetFileInfo_of_walked_entry (embedded : embed.FS)
    (l : list (string * DirEntry)) (p : string) (d : DirEntry) :
  wf_fs embedded = true →
  TemplateManager.Walk (NewTemplateManager embedded ".claude") record_fn [] = (None, l) →
  (p, d) ∈ l →
  ∃ info, TemplateManager.GetFileInfo (NewTemplateManager embedded ".claude") p = inr info ∧
          fi_Name info = Name d ∧ fi_IsDir info = IsDir d.
Proof.
  intros Hwf Hl Hin. apply Walk_record_inv in Hl as ->; [|done].
  apply list_elem_of_fmap in Hin as ([k d0] & E & Hin). injection E as -> ->.
  cbn [fst snd].
  destruct (template_entry_node _ _ _ Hwf Hin) as (a & Ha & <-).
  unfold TemplateManager.GetFileInfo.
  cbn [tm_fs tm_prefix NewTemplateManager]. rewrite Ha. by eexists.
Qed.

Lemma GetFileInfo_of_walked_entry_witness :
  ∃ info, TemplateManager.GetFileInfo (NewTemplateManager Examples.assets ".claude")
            "commands/ask.md" = inr info ∧
          fi_Name info = "ask.md" ∧ fi_IsDir info = false.
Proof.
  apply (GetFileInfo_of_walked_entry Examples.assets
           [("commands", {| Name := "commands"; IsDir := true |});
            ("commands/ask.md", {| Name := "ask.md"; IsDir := false |});
            ("settings.json", {| Name := "settings.json"; IsDir := false |})]
           "commands/ask.md" {| Name := "ask.md"; IsDir := false |});
    [reflexivity | vm_compute; reflexivity | apply list_elem_of_further, list_elem_of_here].
Defined.

(** X5. [ReadFile] and [GetFileInfo] agree on every path and every
    tree: one fails to open the path exactly when the other does, with
    the same cause; where [ReadFile] returns a content, [GetFileInfo]
    tells a regular file of that size, and where [GetFileInfo] tells a
    directory, [ReadFile] fails. *)
Theorem ReadFile_agrees_with_GetFileInfo (tm : TemplateManager) (relPath : string) :
  match TemplateManager.GetFileInfo tm relPath with
  | inl (ErrorfW _ args cause) =>
      TemplateManager.ReadFile tm relPath =
      inl (ErrorfW "failed to read embedded file %s: %w" args cause)
  | inl _ => False
  | inr info =>
      if fi_IsDir info
      then ∃ err, TemplateManager.ReadFile tm relPath = inl err
      else ∃ data, TemplateManager.ReadFile tm relPath = inr data ∧
                   fi_Size info = length data
  end.
Proof.
  unfold TemplateManager.GetFileInfo, TemplateManager.ReadFile, embed.ReadFile.
  cbv zeta. destruct (embed.Open _ _) as [err|[n data|n es]]; cbn; eauto.
Qed.

(** The callback of [ListTemplates] on a sequence of entries. *)
Lemma walk_entries_list l : ∀ templates,
  walk_entries (λ path entry err (templates : list string),
                  match err with
                  | Some e => (Some e, templates)
                  | None =>
                      match entry with
                      | Some d => if negb (IsDir d) then (None, templates ++ [path])
                                  else (None, templates)
                      | None => (None, templates)
                      end
                  end) l templates
  = (None, templates ++ map fst (List.filter (λ e, negb (IsDir e.2)) l)).
Proof.
  induction l as [|[p d] l IH]; intros templates; cbn [walk_entries].
  - by rewrite app_nil_r.
  - cbn [List.filter snd]. destruct (IsDir d); cbn [negb].
    + apply IH.
    + rewrite IH. cbn [map fst]. by rewrite <- app_assoc.
Qed.

Lemma ListTemplates_walk embedded :
  wf_fs embedded = true →
  TemplateManager.ListTemplates (NewTemplateManager embedded ".claude") =
  match TemplateManager.Walk (NewTemplateManager embedded ".claude") record_fn [] with
  | (Some err, _) => inl (ErrorfW "failed to list templates: %w" [] err)
  | (None, l) => inr (map fst (List.filter (λ e, negb (IsDir e.2)) l))
  end.
Proof.
  intros Hwf. rewrite Walk_record by done. unfold TemplateManager.ListTemplates.
  destruct (embed.Open embedded ".claude") as [err|a] eqn:E.
  - unfold TemplateManager.Walk, WalkDir. cbn [tm_fs tm_prefix NewTemplateManager].
    rewrite E. cbn. revert E. unfold embed.Open.
    destruct (negb _); [by intros; simplify_eq|].
    destruct (embed.descend _ _); by intros; simplify_eq.
  - erewrite (Walk_entries_any _ _ [".claude"] a); [by rewrite walk_entries_list| |done|done| |done|].
    + intros p d s err s'. cbn. by destruct (IsDir d).
    + by repeat constructor.
    + pose proof (Open_claude_wf _ _ Hwf E) as Ha. destruct a; [done|].
      by apply wf_asset_inv in Ha as [_ Ha].
Qed.

(** X6. [ListTemplates] returns the paths of the file entries that
    [Walk] hands over, in the order of the walk, and leaves the
    directory entries out; it fails, wrapping the error, exactly when
    the walk does. *)
Theorem ListTemplates_lists_the_walked_files (embedded : embed.FS) :
  wf_fs embedded = true →
  TemplateManager.ListTemplates (NewTemplateManager embedded ".claude") =
  match TemplateManager.Walk (NewTemplateManager embedded ".claude") record_fn [] with
  | (Some err, _) => inl (ErrorfW "failed to list templates: %w" [] err)
  | (None, l) => inr (map fst (List.filter (λ e, negb (IsDir e.2)) l))
  end.
Proof. apply ListTemplates_walk. Qed.

Lemma ListTemplates_lists_the_walked_files_witness :
  wf_fs Examples.assets = true ∧
  TemplateManager.ListTemplates (NewTemplateManager Examples.assets ".claude") =
  inr ["commands/ask.md"; "settings.json"].
Proof.
  split; [reflexivity|].
  rewrite (ListTemplates_lists_the_walked_files Examples.assets); vm_compute; reflexivity.
Defined.

(** X7. The paths [ListTemplates] returns are pairwise distinct, there
    are as many as the tree has file entries, and [ReadFile] returns a
    content for each of them. *)
Theorem listed_templates_are_readable (embedded : embed.FS) (templates : list string) :
  wf_fs embedded = true →
  TemplateManager.ListTemplates (NewTemplateManager embedded ".claude") = inr templates →
  NoDup templates ∧
  length templates = count_files (template_entries (NewTemplateManager embedded ".claude")) ∧
  ∀ p, p ∈ templates →
       ∃ data, TemplateManager.ReadFile (NewTemplateManager embedded ".claude") p = inr data.
Proof.
  intros Hwf. rewrite ListTemplates_walk, Walk_record by done.
  destruct (embed.Open embedded ".claude") as [err|a] eqn:E; [done|].
  intros H. injection H as <-.
  set (tm := NewTemplateManager embedded ".claude").
  set (L := template_entries tm).
  assert (∀ k d, (k, d) ∈ L → k ≠ [] ∧ valid_names k) as HL
    by (intros k d; by apply template_entries_keys).
  assert (List.filter (λ e : string * DirEntry, negb (IsDir e.2)) (map path_of L)
          = map path_of (file_entries L)) as ->.
  { unfold file_entries. clear. induction L as [|[k d] L IH]; [done|].
    cbn. destruct (IsDir d); cbn; by rewrite IH. }
  assert (map fst (map path_of (file_entries L))
          = strings.JoinSlash <$> map fst (file_entries L)) as ->.
  { generalize (file_entries L). clear. intros l.
    induction l as [|? ? IH]; [done|]. cbn. by rewrite IH. }
  assert (∀ k d, (k, d) ∈ file_entries L → (k, d) ∈ L ∧ IsDir d = false) as HF.
  { intros k d Hin. unfold file_entries in Hin.
    apply list_elem_of_In, filter_In in Hin as [Hin Hd].
    apply list_elem_of_In in Hin. split; [done|]. by apply negb_true_iff in Hd. }
  split; [|split].
  - apply NoDup_fmap_2_strong.
    + intros k k' Hk Hk' Eq.
      apply list_elem_of_fmap in Hk as ([? d] & -> & Hk).
      apply list_elem_of_fmap in Hk' as ([? d'] & -> & Hk').
      apply HF in Hk as [Hk _], Hk' as [Hk' _].
      apply HL in Hk as [? ?], Hk' as [? ?]. by apply JoinSlash_inj_valid.
    + assert (NoDup (map fst L)) as Hnd
        by by apply no_back_prefix_NoDup, template_entries_no_back_prefix.
      revert Hnd. unfold file_entries. clear. induction L as [|[k d] L IH]; [done|].
      cbn [map fst List.filter snd]. intros Hnd. apply NoDup_cons in Hnd as [Hk Hnd].
      destruct (IsDir d); cbn [negb map fst]; [by apply IH|].
      apply NoDup_cons. split; [|by apply IH]. intros Hin. apply Hk.
      apply list_elem_of_fmap in Hin as ([k1 d'] & Ek & Hin). cbn in Ek. subst k1.
      apply list_elem_of_In, filter_In in Hin as [Hin _].
      apply list_elem_of_fmap. exists (k, d'). split; [done|]. by apply list_elem_of_In.
  - rewrite length_fmap, length_map. done.
  - intros p Hp. apply list_elem_of_fmap in Hp as (k & -> & Hk).
    apply list_elem_of_fmap in Hk as ([? d] & -> & Hk). cbn [fst].
    apply HF in Hk as [Hk Hd].
    destruct (template_entry_node _ _ _ Hwf Hk) as (c & Hc & <-).
    unfold TemplateManager.ReadFile, embed.ReadFile.
    cbn [tm tm_fs tm_prefix NewTemplateManager]. rewrite Hc.
    destruct c; [by eexists|done].
Qed.

Lemma listed_templates_are_readable_witness :
  ∃ data, TemplateManager.ReadFile (NewTemplateManager Examples.assets ".claude")
            "commands/ask.md" = inr data.
Proof.
  apply (listed_templates_are_readable Examples.assets
           ["commands/ask.md"; "settings.json"]);
    [reflexivity | vm_compute; reflexivity | apply list_elem_of_here].
Defined.

(** X8. [HasTemplates] answers yes exactly when the walk hands over at
    least one entry, a file or a directory. *)
Theorem HasTemplates_iff_walk_not_empty (embedded : embed.FS) :
  wf_fs embedded = true →
  TemplateManager.HasTemplates (NewTemplateManager embedded ".claude") = true ↔
  ∃ l, TemplateManager.Walk (NewTemplateManager embedded ".claude") record_fn [] = (None, l) ∧
       l ≠ [].
Proof.
  intros Hwf. rewrite Walk_record by done.
  unfold TemplateManager.HasTemplates, embed.ReadDir, template_entries.
  cbn [tm_fs tm_prefix NewTemplateManager].
  destruct (embed.Open embedded ".claude") as [err|[n data|n es]].
  - split; [done|]. by intros (l & ? & _).
  - split; [done|]. intros (l & H & Hne). by simplify_eq.
  - destruct es as [|c es].
    + split; [done|]. intros (l & H & Hne). by simplify_eq.
    + split; [|done]. intros _. eexists. split; [done|]. by destruct c.
Qed.

Lemma HasTemplates_iff_walk_not_empty_witness :
  TemplateManager.HasTemplates (NewTemplateManager Examples.no_assets ".claude") = false.
Proof.
  apply not_true_is_false. intros H.
  apply (HasTemplates_iff_walk_not_empty Examples.no_assets) in H as (l & H & _);
    [|reflexivity].
  vm_compute in H. discriminate H.
Defined.

Lemma cut_prefix_Some p : ∀ s t, strings.cut_prefix p s = Some t → s = p +:+ t.
Proof.
  induction p as [|a p IH]; intros s t H.
  - cbn in H. by simplify_eq.
  - destruct s as [|b s]; [done|]. rewrite cut_prefix_cons in H.
    destruct (Ascii.eqb a b) eqn:E; [|done].
    apply Ascii.eqb_eq in E as ->. rewrite append_cons. f_equal. by apply IH.
Qed.

Lemma append_empty_r s : s +:+ "" = s.
Proof. induction s as [|c s IH]; [done|]. by rewrite append_cons, IH. Qed.

Lemma string_rev_app_spec s : ∀ acc, String.rev_app s acc = String.rev s +:+ acc.
Proof.
  unfold String.rev. induction s as [|c s IH]; intros acc; [done|].
  cbn [String.rev_app]. by rewrite (IH (String c acc)), (IH (String c "")), append_assoc.
Qed.

Lemma string_rev_cons c s : String.rev (String c s) = String.rev s +:+ String c "".
Proof. unfold String.rev at 1. cbn [String.rev_app]. apply string_rev_app_spec. Qed.

Lemma string_rev_append a b : String.rev (a +:+ b) = String.rev b +:+ String.rev a.
Proof.
  induction a as [|c a IH].
  - cbn. by rewrite append_empty_r.
  - by rewrite append_cons, !string_rev_cons, IH, append_assoc.
Qed.

Lemma string_rev_involutive s : String.rev (String.rev s) = s.
Proof.
  induction s as [|c s IH]; [done|].
  by rewrite string_rev_cons, string_rev_append, IH.
Qed.

Lemma HasSuffix_spec s suffix :
  strings.HasSuffix s suffix = true ↔ ∃ q, s = q +:+ suffix.
Proof.
  unfold strings.HasSuffix, strings.HasPrefix. split.
  - destruct (strings.cut_prefix _ _) as [t|] eqn:E; [|done]. intros _.
    apply cut_prefix_Some in E. exists (String.rev t).
    by rewrite <- (string_rev_involutive s), E, string_rev_append, string_rev_involutive.
  - intros [q ->]. by rewrite string_rev_append, cut_prefix_app.
Qed.

(** X9. [GetDefaultFileMode] gives [0755] to the paths that end in
    [.sh] or [.bash], also to the path that is nothing but the
    extension, and [0644] to every other path. *)
Theorem GetDefaultFileMode_by_extension (tm : TemplateManager) (relPath : string) :
  (TemplateManager.GetDefaultFileMode tm relPath = mode_0755 ↔
   ∃ stem, relPath = stem +:+ ".sh" ∨ relPath = stem +:+ ".bash") ∧
  (TemplateManager.GetDefaultFileMode tm relPath ≠ mode_0755 →
   TemplateManager.GetDefaultFileMode tm relPath = mode_0644).
Proof.
  unfold TemplateManager.GetDefaultFileMode.
  destruct (strings.HasSuffix relPath ".sh") eqn:E1.
  { split; [|done]. split; [intros _|done].
    apply HasSuffix_spec in E1 as [q ->]. eauto. }
  destruct (strings.HasSuffix relPath ".bash") eqn:E2.
  { split; [|done]. split; [intros _|done].
    apply HasSuffix_spec in E2 as [q ->]. eauto. }
  split; [|done]. split; [done|]. intros [q [->| ->]].
  - assert (strings.HasSuffix (q +:+ ".sh") ".sh" = true) by (apply HasSuffix_spec; eauto).
    congruence.
  - assert (strings.HasSuffix (q +:+ ".bash") ".bash" = true) by (apply HasSuffix_spec; eauto).
    congruence.
Qed.

(** X10. [pluralize] returns the word unchanged exactly for the count
    one: for zero, for a negative count and for every other count the
    result differs from the word. *)
Theorem pluralize_singular_iff_one (word : string) (count : Z) :
  pluralize word count = word ↔ count = 1%Z.
Proof.
  unfold pluralize. destruct (decide (count = 1%Z)) as [->|Hc]; [done|].
  split; [|done]. intros H. exfalso.
  destruct (decide (word = "directory")) as [->|Hw]; [done|].
  apply (f_equal String.length) in H. revert H. clear.
  induction word as [|c w IH]; [done|].
  rewrite append_cons. cbn [String.length]. intros H. apply IH. lia.
Qed.

(** ** The engine *)

(** A property of the result and of the states before and after, kept
    by the walk when every call on an entry keeps it. *)
Lemma walk_entries_outcome {St} (fn : @WalkDirFunc St)
    (Q : option error → St → St → Prop) :
  (∀ s, Q None s s) →
  (∀ r s1 s2 s3, Q None s1 s2 → Q r s2 s3 → Q r s1 s3) →
  (∀ p d s r s', fn p (Some d) None s = (r, s') → Q r s s') →
  ∀ l s r s', walk_entries fn l s = (r, s') → Q r s s'.
Proof.
  intros Hrefl Htrans Hfn. induction l as [|[p d] l IH]; intros s r s' H.
  - cbn in H. by simplify_eq.
  - cbn [walk_entries] in H.
    destruct (fn p (Some d) None s) as [[err|] s1] eqn:E.
    + simplify_eq. by eapply Hfn.
    + eapply Htrans; [by eapply Hfn|by apply IH].
Qed.

Lemma Walk_outcome {St} (fn : @WalkDirFunc St) (Q : option error → St → St → Prop)
    tm a :
  (∀ s, Q None s s) →
  (∀ r s1 s2 s3, Q None s1 s2 → Q r s2 s3 → Q r s1 s3) →
  (∀ p d s r s', fn p (Some d) None s = (r, s') → Q r s s') →
  (∀ p d s err s', fn p (Some d) None s = (Some err, s') → plain_error err = true) →
  embed.Open (tm_fs tm) (tm_prefix tm) = inr a →
  ∀ s r s', TemplateManager.Walk tm fn s = (r, s') → Q r s s'.
Proof.
  intros Hrefl Htrans Hfn Hplain Ha s r s'.
  unfold TemplateManager.Walk, WalkDir. rewrite Ha.
  rewrite walkDir_entries_any by by apply walkFn_entry_plain.
  destruct (walk_entries _ _ s) as [r1 s1] eqn:E.
  pose proof E as E'.
  eapply (walk_entries_outcome _ Q) in E; [|done|done|].
  - destruct r1 as [e1|]; [|by intros ?; simplify_eq].
    apply walk_entries_entry_plain in E'; [|by apply walkFn_entry_plain].
    rewrite plain_error_SkipDir, plain_error_SkipAll by done. cbn [orb].
    by intros ?; simplify_eq.
  - intros p d s0 r0 s0'. unfold TemplateManager.walkFn.
    case_bool_decide; [intros ?; by simplify_eq|]. apply Hfn.
Qed.

(** A call on an entry records the error it returns, and nothing
    else. *)
Lemma walkFn_errors p d e o r e' o' :
  Engine.walkFn p (Some d) None (e, o) = (r, (e', o')) →
  Errors (stats e') = Errors (stats e) ++ match r with Some err => [err] | None => [] end.
Proof.
  unfold Engine.walkFn. cbn [fst].
  destruct (IsDir d).
  - rewrite processDirectory_cases.
    destruct (os.node_at _ _) as [[m c|m]|].
    + cbv zeta. intros ?; by simplify_eq.
    + intros ?; simplify_eq. cbn. by rewrite app_nil_r.
    + destruct (FileSystem.CreateDir _ _ _ _) as [[err|] o1]; intros ?; simplify_eq;
        cbn; by rewrite ?app_nil_r.
  - rewrite processFile_cases.
    destruct (os.node_at _ _) as [[m c|m]|].
    + intros ?; simplify_eq. cbn. by rewrite app_nil_r.
    + cbv zeta. intros ?; by simplify_eq.
    + destruct (TemplateManager.ReadFile _ _) as [err|content];
        [intros ?; by simplify_eq|].
      destruct (FileSystem.CreateFile _ _ _ _ _) as [[err|] o1]; intros ?; simplify_eq;
        cbn; by rewrite ?app_nil_r.
Qed.

Lemma HasTemplates_Open tm :
  TemplateManager.HasTemplates tm = true →
  ∃ n c es, embed.Open (tm_fs tm) (tm_prefix tm) = inr (ADir n (c :: es)).
Proof.
  unfold TemplateManager.HasTemplates, embed.ReadDir.
  destruct (embed.Open _ _) as [err|[n data|n [|c es]]]; try done. eauto.
Qed.

(** X11. A run of a new engine ends in one of three ways, whatever the
    embedded tree and the host: it returns [nil] and has recorded no
    error; or it found no templates, and then nothing was done; or the
    walk stopped at the first entry that failed, the result wraps that
    entry's error and this error is the only one recorded.  The result
    that counts the recorded errors is never returned. *)
Theorem Run_outcomes (embedded : embed.FS) (cfg : Config) (o : OS) :
  match Engine.Run (NewEngine embedded cfg, o) with
  | (None, (e', _)) => Errors (stats e') = []
  | (Some err, (e', o')) =>
      (err = Errorf0 "no template files found in embedded .claude directory" ∧
       e' = NewEngine embedded cfg ∧ o' = o) ∨
      (∃ cause, err = ErrorfW "failed to process templates: %w" [] cause ∧
                Errors (stats e') = [cause])
  end.
Proof.
  unfold Engine.Run. cbn [fst].
  destruct (TemplateManager.HasTemplates _) eqn:Hhas; cbn [negb]; [|by left].
  apply HasTemplates_Open in Hhas as (n & c & es & Ha).
  destruct (TemplateManager.Walk _ _ _) as [r [e' o']] eqn:E.
  eapply (Walk_outcome Engine.walkFn
            (λ r s s', Errors (stats s'.1) =
                       Errors (stats s.1) ++ match r with Some err => [err] | None => [] end))
    in E; [| | | | |exact Ha].
  - cbn [fst NewEngine stats Errors app] in E. destruct r as [err|].
    + right. by exists err.
    + cbn [fst]. rewrite E. by rewrite bool_decide_eq_false_2 by (cbn; lia).
  - intros s. by rewrite app_nil_r.
  - intros r0 s1 s2 s3 H1 H2. rewrite H2, H1. by rewrite app_nil_r.
  - intros p d [e0 o0] r0 [e1 o1]. apply walkFn_errors.
  - intros p d s err s'. apply walkFn_plain.
Qed.

(** A creation through a port at a path where nothing stands. *)
Lemma port_CreateDir_key f K perm o r o' :
  valid_names K → os.node_at o K = None →
  FileSystem.CreateDir f (os.key_path K) perm o = (r, o') →
  grows_within K o o' ∧ (wf_os o → wf_os o') ∧
  (∀ k n, os.node_at o' k = Some n → os.node_at o k = Some n ∨ n = os.Dir perm) ∧
  (r = None → f = OSFileSystem → os.node_at o' K = Some (os.Dir perm)).
Proof.
  intros HK Hnone H. destruct f as [|w].
  - cbn [FileSystem.CreateDir] in H.
    pose proof (OS_CreateDir_spec _ _ _ _ _ H) as (_ & Hnew & _).
    apply OS_CreateDir_key in H as (Hg & Hwf & Hok & _); [|done..].
    split; [done|]. split; [done|]. split; [done|]. auto.
  - apply DryRun_CreateDir_same in H as ->.
    split; [apply grows_within_refl|]. split; [done|]. split; [auto|done].
Qed.

Lemma port_CreateFile_key f K content perm o r o' :
  valid_names K → os.node_at o K = None →
  FileSystem.CreateFile f (os.key_path K) content perm o = (r, o') →
  grows_within K o o' ∧ (wf_os o → wf_os o') ∧
  (∀ k n, os.node_at o' k = Some n →
          os.node_at o k = Some n ∨ n = os.Dir mode_0755 ∨ k = K) ∧
  (r = None → f = OSFileSystem → os.node_at o' K = Some (os.File perm content)).
Proof.
  intros HK Hnone H. destruct f as [|w].
  - cbn [FileSystem.CreateFile] in H.
    pose proof (OS_CreateFile_new_nodes _ _ _ _ _ _ HK Hnone H) as Hnew.
    apply OS_CreateFile_key in H as (Hg & Hwf & Hok & _); [|done..].
    split; [done|]. split; [done|]. split; [done|]. auto.
  - apply DryRun_CreateFile_same in H as ->.
    split; [apply grows_within_refl|]. split; [done|]. split; [auto|done].
Qed.

Section entry_steps.
Variable T : list string.
Hypothesis HT : valid_names T.

(** A call of the engine on an entry: what it changes on the host,
    what it counts, and what it leaves at the destination. *)
Lemma walkFn_step e o k d r e1 o1 :
  TargetDir (config e) = os.key_path T → valid_names k → k ≠ [] →
  Engine.walkFn (strings.JoinSlash k) (Some d) None (e, o) = (r, (e1, o1)) →
  grows_within (destination T k) o o1 ∧
  (wf_os o → wf_os o1) ∧
  (∀ k' n, os.node_at o1 k' = Some n →
           os.node_at o k' = Some n ∨ n = os.Dir mode_0755 ∨ k' = destination T k) ∧
  (r = None →
   FilesCreated (stats e1) = FilesCreated (stats e)
     + (if negb (IsDir d) && missing T o (k, d) then 1 else 0) ∧
   FilesSkipped (stats e1) = FilesSkipped (stats e)
     + (if negb (IsDir d) && negb (missing T o (k, d)) then 1 else 0) ∧
   DirsCreated (stats e1) = DirsCreated (stats e)
     + (if IsDir d && missing T o (k, d) then 1 else 0) ∧
   DirsSkipped (stats e1) = DirsSkipped (stats e)
     + (if IsDir d && negb (missing T o (k, d)) then 1 else 0) ∧
   Errors (stats e1) = Errors (stats e)) ∧
  (r = None → fs e = OSFileSystem → os.node_at o (destination T k) = None →
   if IsDir d then os.node_at o1 (destination T k) = Some (os.Dir mode_0755)
   else ∃ data,
     TemplateManager.ReadFile (tmpl e) (strings.JoinSlash k) = inr data ∧
     os.node_at o1 (destination T k) =
       Some (os.File (TemplateManager.GetDefaultFileMode (tmpl e) (strings.JoinSlash k))
               data)).
Proof.
  intros He Hk Hne H.
  pose proof (destination_valid T HT k Hk) as Hv.
  unfold missing. cbn [fst].
  destruct (IsDir d) eqn:Hd; cbn [negb andb].
  - rewrite (walkFn_dir_step T HT) in H by done.
    destruct (os.node_at o (destination T k)) as [[m c|m]|] eqn:En.
    + cbv beta iota zeta in H. simplify_eq.
      split; [apply grows_within_refl|]. split; [done|]. split; [auto|done].
    + simplify_eq. split; [apply grows_within_refl|]. split; [done|]. split; [auto|].
      split; [|done]. intros _. cbn. repeat split; lia.
    + destruct (FileSystem.CreateDir _ _ _ o) as [r1 o2] eqn:E.
      apply port_CreateDir_key in E as (Hg & Hwf & Hnew & Hok); [|done..].
      assert (o2 = o1) as ->.
      { destruct r1; by simplify_eq. }
      split; [done|]. split; [done|].
      split; [intros k' n Hn; destruct (Hnew _ _ Hn); auto|].
      destruct r1 as [err|]; simplify_eq; [done|].
      split; [intros _; cbn; repeat split; lia|]. intros _ Hfs _. by apply Hok.
  - rewrite (walkFn_file_step T HT) in H by done.
    destruct (os.node_at o (destination T k)) as [[m c|m]|] eqn:En.
    + simplify_eq. split; [apply grows_within_refl|]. split; [done|]. split; [auto|].
      split; [|done]. intros _. cbn. repeat split; lia.
    + cbv beta iota zeta in H. simplify_eq.
      split; [apply grows_within_refl|]. split; [done|]. split; [auto|done].
    + destruct (TemplateManager.ReadFile _ _) as [err|content] eqn:Er.
      { simplify_eq. split; [apply grows_within_refl|]. split; [done|].
        split; [auto|done]. }
      destruct (FileSystem.CreateFile _ _ _ _ o) as [r1 o2] eqn:E.
      apply port_CreateFile_key in E as (Hg & Hwf & Hnew & Hok); [|done..].
      assert (o2 = o1) as ->.
      { destruct r1; by simplify_eq. }
      split; [done|]. split; [done|]. split; [done|].
      destruct r1 as [err|]; simplify_eq; [done|].
      split; [intros _; cbn; repeat split; lia|]. intros _ Hfs _. exists content. split; [done|].
      by apply Hok.
Qed.

End entry_steps.

Section entry_walks.
Variable T : list string.
Hypothesis HT : valid_names T.

Lemma expected_stats_agree o o' L :
  (∀ ke, ke ∈ L → missing T o' ke = missing T o ke) →
  expected_stats T o' L = expected_stats T o L.
Proof.
  intros H. unfold expected_stats.
  assert (∀ f : bool → bool → bool,
            List.filter (λ ke, f (IsDir ke.2) (missing T o' ke)) L
            = List.filter (λ ke, f (IsDir ke.2) (missing T o ke)) L) as Hf.
  { intros f. induction L as [|ke L IH]; [done|]. cbn [List.filter].
    rewrite (H ke) by by left. rewrite IH; [done|]. intros ke' ?. apply H. by right. }
  by rewrite (Hf (λ a b, negb a && b)), (Hf (λ a b, negb a && negb b)),
    (Hf (λ a b, a && b)), (Hf (λ a b, a && negb b)).
Qed.

(** The counters after a walk without error tell what the entries met
    on the host before the walk. *)
Lemma walk_entries_stats L : ∀ e o e' o',
  TargetDir (config e) = os.key_path T →
  (∀ k d, (k, d) ∈ L → k ≠ [] ∧ valid_names k) →
  no_back_prefix (map fst L) →
  walk_entries Engine.walkFn (map path_of L) (e, o) = (None, (e', o')) →
  FilesCreated (stats e') = FilesCreated (stats e) + FilesCreated (expected_stats T o L) ∧
  FilesSkipped (stats e') = FilesSkipped (stats e) + FilesSkipped (expected_stats T o L) ∧
  DirsCreated (stats e') = DirsCreated (stats e) + DirsCreated (expected_stats T o L) ∧
  DirsSkipped (stats e') = DirsSkipped (stats e) + DirsSkipped (expected_stats T o L) ∧
  Errors (stats e') = Errors (stats e).
Proof.
  induction L as [|[k d] L IH]; intros e o e' o' He Hkeys Hnb H.
  { cbn in H. simplify_eq. cbn. repeat split; lia. }
  destruct (Hkeys k d) as [Hne Hk]; [by left|].
  destruct Hnb as [Hback Hnb]. cbn [map fst] in Hback.
  cbn [map path_of walk_entries fst snd] in H.
  destruct (Engine.walkFn _ _ None (e, o)) as [[err|] [e1 o1]] eqn:E; [done|].
  pose proof (walkFn_extends _ _ _ _ _ _ _ _ E) as [Hsame _].
  apply (walkFn_step T HT) in E as (Hg & _ & _ & Hst & _); [|done..].
  destruct (Hst eq_refl) as (H1 & H2 & H3 & H4 & H5).
  apply IH in H as (I1 & I2 & I3 & I4 & I5).
  - assert (expected_stats T o1 L = expected_stats T o L) as Hsame1.
    { apply expected_stats_agree. intros [k' d'] Hin. unfold missing. cbn [fst].
      rewrite (grows_within_elsewhere T k k' o o1); [done|done|].
      apply Hback. apply list_elem_of_fmap. by exists (k', d'). }
    rewrite Hsame1 in I1, I2, I3, I4.
    rewrite I1, I2, I3, I4, I5, H1, H2, H3, H4, H5.
    unfold expected_stats. cbn [FilesCreated FilesSkipped DirsCreated DirsSkipped].
    cbn [List.filter snd].
    destruct (IsDir d), (missing T o (k, d)); cbn; repeat split; lia.
  - apply same_setup_fields in Hsame as (Hc & _). by rewrite Hc.
  - intros k' d' ?. apply (Hkeys k' d'). by right.
  - done.
Qed.

(** After a walk without error on the host port, an entry that met
    nothing at its destination stands there as the walk made it. *)
Lemma walk_entries_created L : ∀ e o e' o',
  TargetDir (config e) = os.key_path T → fs e = OSFileSystem →
  (∀ k d, (k, d) ∈ L → k ≠ [] ∧ valid_names k) →
  no_back_prefix (map fst L) →
  walk_entries Engine.walkFn (map path_of L) (e, o) = (None, (e', o')) →
  ∀ k d, (k, d) ∈ L → os.node_at o (destination T k) = None →
  if IsDir d then os.node_at o' (destination T k) = Some (os.Dir mode_0755)
  else ∃ data,
    TemplateManager.ReadFile (tmpl e) (strings.JoinSlash k) = inr data ∧
    os.node_at o' (destination T k) =
      Some (os.File (TemplateManager.GetDefaultFileMode (tmpl e) (strings.JoinSlash k))
              data).
Proof.
  induction L as [|[k0 d0] L IH]; intros e o e' o' He Hfs Hkeys Hnb H k d Hin Hnone.
  { by apply elem_of_nil in Hin. }
  destruct (Hkeys k0 d0) as [Hne Hk]; [by left|].
  destruct Hnb as [Hback Hnb]. cbn [map fst] in Hback.
  cbn [map path_of walk_entries fst snd] in H.
  destruct (Engine.walkFn _ _ None (e, o)) as [[err|] [e1 o1]] eqn:E; [done|].
  pose proof (walkFn_extends _ _ _ _ _ _ _ _ E) as [Hsame _].
  apply same_setup_fields in Hsame as (Hc & Hf & Htm & _).
  apply (walkFn_step T HT) in E as (Hg & _ & _ & _ & Hmade); [|done..].
  pose proof (walk_entries_extends _ _ _ _ _ _ H) as [_ [_ Hext]].
  assert ((k, d) ∈ L → os.node_at o1 (destination T k) = None) as Hlater.
  { intros Hl. rewrite (grows_within_elsewhere T k0 k o o1); [done|done|].
    apply Hback. apply list_elem_of_fmap. by exists (k, d). }
  assert ((k, d) ∈ L →
          if IsDir d then os.node_at o' (destination T k) = Some (os.Dir mode_0755)
          else ∃ data,
            TemplateManager.ReadFile (tmpl e) (strings.JoinSlash k) = inr data ∧
            os.node_at o' (destination T k) =
              Some (os.File (TemplateManager.GetDefaultFileMode (tmpl e)
                               (strings.JoinSlash k)) data)) as Hrest.
  { intros Hl. rewrite <- Htm.
    apply (IH e1 o1 e' o'); [by rewrite Hc|by rewrite Hf| |done|done|done|by apply Hlater].
    intros k' d' ?. apply (Hkeys k' d'). by right. }
  apply elem_of_cons in Hin as [Heq|Hl]; [|by apply Hrest].
  injection Heq as -> ->.
  specialize (Hmade eq_refl Hfs Hnone).
  destruct (IsDir d0).
  - by apply Hext.
  - destruct Hmade as (data & Hr & Hn). exists data. split; [done|]. by apply Hext.
Qed.

(** What a walk on the host port changes, when the target is a
    directory of a well-formed host: the [.claude] directory of the
    target and the destinations of the entries, where nothing stood. *)
Lemma walk_entries_footprint L : ∀ seen e o r e' o' m,
  TargetDir (config e) = os.key_path T → fs e = OSFileSystem →
  (∀ k d, (k, d) ∈ L → k ≠ [] ∧ valid_names k) →
  ancestors_first seen L →
  wf_os o → os.node_at o T = Some (os.Dir m) →
  (∀ k', k' ∈ seen → ∃ m', os.node_at o (destination T k') = Some (os.Dir m')) →
  walk_entries Engine.walkFn (map path_of L) (e, o) = (r, (e', o')) →
  ∀ k', os.node_at o' k' = os.node_at o k' ∨
        (os.node_at o k' = None ∧
         (k' = T ++ [".claude"] ∨ ∃ k d, (k, d) ∈ L ∧ k' = destination T k)).
Proof.
  induction L as [|[k d] L IH]; intros seen e o r e' o' m He Hfs Hkeys Hanc Hwf HTdir Hseen H k'.
  { cbn in H. simplify_eq. by left. }
  destruct (Hkeys k d) as [Hne Hk]; [by left|].
  destruct Hanc as [Hup Hanc]. cbn [fst snd] in Hup, Hanc.
  cbn [map path_of walk_entries fst snd] in H.
  destruct (Engine.walkFn _ _ None (e, o)) as [r1 [e1 o1]] eqn:E.
  pose proof (walkFn_extends _ _ _ _ _ _ _ _ E) as [Hsame [_ Hext]].
  apply same_setup_fields in Hsame as (Hc & Hf & Htm & _).
  pose proof E as E'.
  apply (walkFn_step T HT) in E as (Hg & Hwf1 & _); [|done..].
  assert (os.node_at o1 k' = os.node_at o k' ∨
          (os.node_at o k' = None ∧ (k' = T ++ [".claude"] ∨ k' = destination T k)))
    as Hstep.
  { destruct Hg as [_ Hg]. destruct (Hg k') as [?|[Hp Hn]]; [by left|]. right.
    split; [done|].
    destruct (prefix_weak_total _ _ _ Hp (prefix_app_r T T (".claude" :: k) (reflexivity T)))
      as [HkT|HTk].
    - destruct (decide (k' = T)) as [->|HneT]; [congruence|].
      destruct (wf_os_prefix o T k' Hwf) as [m' Hm']; [by rewrite HTdir|done|done|].
      congruence.
    - destruct HTk as [rest ->]. unfold destination in Hp.
      apply prefix_app_inv in Hp.
      destruct rest as [|x rest].
      { rewrite app_nil_r in Hn. congruence. }
      apply prefix_cons_inv_1 in Hp as Hx. subst x.
      apply prefix_cons_inv_2 in Hp.
      destruct rest as [|y rest']; [by left|].
      destruct (decide (y :: rest' = k)) as [->|Hneq]; [by right|].
      destruct (Hseen (y :: rest')) as [m' Hm']; [by apply Hup|].
      unfold destination in Hm'. congruence. }
  destruct r1 as [err|].
  { simplify_eq. destruct Hstep as [?|[? [?|?]]]; [by left|right..].
    - split; [done|]. by left.
    - split; [done|]. right. exists k, d. split; [by left|done]. }
  assert (∀ k'', k'' ∈ (if IsDir d then k :: seen else seen) →
            ∃ m', os.node_at o1 (destination T k'') = Some (os.Dir m')) as Hseen1.
  { assert (∀ k'', k'' ∈ seen →
              ∃ m', os.node_at o1 (destination T k'') = Some (os.Dir m')) as Hold.
    { intros k'' Hin. destruct (Hseen k'' Hin) as [m' Hm']. eauto. }
    destruct (IsDir d) eqn:Hd; [|done].
    intros k'' [->|Hin]%elem_of_cons; [|by apply Hold].
    apply (walkFn_present T HT) in E' as (n & Hn & Hkind); [|done..].
    cbn [fst snd] in Hn, Hkind. rewrite Hd in Hkind.
    destruct n; [done|]. eauto. }
  destruct (IH (if IsDir d then k :: seen else seen) e1 o1 r e' o' m) with (k' := k')
    as [Hsame'|[Hn Hwhere]];
    [by rewrite Hc|by rewrite Hf| |done|by apply Hwf1|by apply Hext|done|done| |].
  - intros k'' d'' ?. apply (Hkeys k'' d''). by right.
  - rewrite Hsame'. destruct Hstep as [?|[? [?|?]]]; [by left|right..].
    + split; [done|]. by left.
    + split; [done|]. right. exists k, d. split; [by left|done].
  - right. destruct Hstep as [Heq|[? _]].
    + rewrite <- Heq. split; [done|]. destruct Hwhere as [?|(k2 & d2 & ? & ?)]; [by left|].
      right. exists k2, d2. split; [by right|done].
    + split; [done|]. destruct Hwhere as [?|(k2 & d2 & ? & ?)]; [by left|].
      right. exists k2, d2. split; [by right|done].
Qed.

End entry_walks.

(** X12. The statistics of a run that returns [nil] tell what the
    entries met on the host before the run, on the host port and on the
    dry-run port alike: every entry with nothing at its destination is
    counted as created, every other entry as skipped, files and
    directories apart, and no error is recorded. *)
Theorem Run_statistics_tell_what_was_found (embedded : embed.FS) (cfg : Config)
    (T : list string) (o o' : OS) (e' : Engine) :
  wf_fs embedded = true → valid_names T → TargetDir cfg = os.key_path T →
  Engine.Run (NewEngine embedded cfg, o) = (None, (e', o')) →
  stats e' = expected_stats T o (template_entries (NewTemplateManager embedded ".claude")).
Proof.
  intros Hwf HT Htd. rewrite Run_walk by done.
  destruct (TemplateManager.HasTemplates _); [|done]. cbn [negb].
  set (L := template_entries (NewTemplateManager embedded ".claude")).
  destruct (walk_entries Engine.walkFn (map path_of L) (NewEngine embedded cfg, o))
    as [[err|] [e1 o1]] eqn:E; [done|].
  cbn [fst]. case_bool_decide; [done|]. intros ?; simplify_eq.
  apply (walk_entries_stats T HT) in E as (H1 & H2 & H3 & H4 & H5);
    [|done|intros k d; by apply template_entries_keys|by apply template_entries_no_back_prefix].
  cbn [NewEngine stats FilesCreated FilesSkipped DirsCreated DirsSkipped Errors] in *.
  destruct (stats e'). cbn in *. unfold expected_stats. by f_equal.
Qed.

Lemma Run_statistics_tell_what_was_found_witness :
  let r := Engine.Run (NewEngine Examples.assets (Examples.cfg false),
                       Examples.with_commands) in
  r.1 = None ∧
  stats r.2.1 = {| FilesCreated := 2; FilesSkipped := 0; DirsCreated := 0;
                   DirsSkipped := 1; Errors := [] |}.
Proof.
  intros r. split; [vm_compute; reflexivity|].
  rewrite (Run_statistics_tell_what_was_found Examples.assets (Examples.cfg false)
             ["t"] Examples.with_commands r.2.2 r.2.1);
    [vm_compute; reflexivity | reflexivity | by repeat constructor | reflexivity
    | vm_compute; reflexivity].
Defined.

(** X13. After a run on the host port that returns [nil], every entry
    stands at its destination: what was there before the run is there
    unchanged; a directory entry that met nothing is a directory with
    mode [0755]; a file entry that met nothing is a regular file that
    holds the content [ReadFile] returns for the entry, with the mode
    [GetDefaultFileMode] gives its path. *)
Theorem Run_deploys_the_templates (embedded : embed.FS) (cfg : Config)
    (T : list string) (o o' : OS) (e' : Engine) (k : list string) (d : DirEntry) :
  wf_fs embedded = true → valid_names T →
  TargetDir cfg = os.key_path T → DryRun cfg = false →
  Engine.Run (NewEngine embedded cfg, o) = (None, (e', o')) →
  (k, d) ∈ template_entries (NewTemplateManager embedded ".claude") →
  match os.node_at o (destination T k) with
  | Some n => os.node_at o' (destination T k) = Some n
  | None =>
      if IsDir d then os.node_at o' (destination T k) = Some (os.Dir mode_0755)
      else ∃ data,
        TemplateManager.ReadFile (NewTemplateManager embedded ".claude")
          (strings.JoinSlash k) = inr data ∧
        os.node_at o' (destination T k) =
          Some (os.File (TemplateManager.GetDefaultFileMode
                           (NewTemplateManager embedded ".claude") (strings.JoinSlash k))
                  data)
  end.
Proof.
  intros Hwf HT Htd Hdry Hrun Hin.
  destruct (os.node_at o (destination T k)) as [n|] eqn:En.
  { apply Run_extends in Hrun as [_ [_ Hext]]. by apply Hext. }
  revert Hrun. rewrite Run_walk by done.
  destruct (TemplateManager.HasTemplates _); [|done]. cbn [negb].
  set (L := template_entries (NewTemplateManager embedded ".claude")) in *.
  destruct (walk_entries Engine.walkFn (map path_of L) (NewEngine embedded cfg, o))
    as [[err|] [e1 o1]] eqn:E; [done|].
  cbn [fst]. case_bool_decide; [done|]. intros ?; simplify_eq.
  apply (walk_entries_created T HT L (NewEngine embedded cfg) o e' o'); try done.
  - unfold NewEngine. by rewrite Hdry.
  - intros k0 d0. by apply template_entries_keys.
  - by apply template_entries_no_back_prefix.
Qed.

Lemma Run_deploys_the_templates_witness :
  let r := Engine.Run (NewEngine Examples.assets (Examples.cfg false),
                       Examples.empty_target) in
  r.1 = None ∧
  ∃ data,
    TemplateManager.ReadFile (NewTemplateManager Examples.assets ".claude")
      "commands/ask.md" = inr data ∧
    os.node_at r.2.2 ["t"; ".claude"; "commands"; "ask.md"] =
      Some (os.File mode_0644 data).
Proof.
  intros r. split; [vm_compute; reflexivity|].
  apply (Run_deploys_the_templates Examples.assets (Examples.cfg false) ["t"]
           Examples.empty_target r.2.2 r.2.1 ["commands"; "ask.md"]
           {| Name := "ask.md"; IsDir := false |});
    [reflexivity | by repeat constructor | reflexivity | reflexivity
    | vm_compute; reflexivity
    | vm_compute; apply list_elem_of_further, list_elem_of_here].
Defined.

(** X14. When the target is a directory of a well-formed host, a run
    changes nothing but this, whatever its result and its port: where
    nothing stood, nodes appear at the [.claude] directory of the
    target and at destinations of entries.  No other path changes, no
    node is removed or altered, and the working directory stays. *)
Theorem Run_changes_only_the_destinations (embedded : embed.FS) (cfg : Config)
    (T : list string) (o o' : OS) (m : FileMode) (r : option error) (e' : Engine) :
  wf_fs embedded = true → valid_names T → TargetDir cfg = os.key_path T →
  wf_os o → os.node_at o T = Some (os.Dir m) →
  Engine.Run (NewEngine embedded cfg, o) = (r, (e', o')) →
  os.wd o' = os.wd o ∧
  ∀ k', os.node_at o' k' ≠ os.node_at o k' →
        os.node_at o k' = None ∧
        (k' = T ++ [".claude"] ∨
         ∃ k d, (k, d) ∈ template_entries (NewTemplateManager embedded ".claude") ∧
                k' = destination T k).
Proof.
  intros Hwf HT Htd Hwfo HTdir Hrun.
  split; [by apply Run_extends in Hrun as [_ [? _]]|].
  intros k' Hch.
  destruct (DryRun cfg) eqn:Hdry.
  { pose proof (Run_dry_same (NewEngine embedded cfg) o OSFileSystem) as Hsame.
    rewrite Hrun in Hsame. cbn [snd] in Hsame.
    destruct Hch. rewrite Hsame; [done|]. unfold NewEngine. by rewrite Hdry. }
  revert Hrun. rewrite Run_walk by done.
  destruct (TemplateManager.HasTemplates _); cbn [negb];
    [|intros ?; by simplify_eq].
  set (L := template_entries (NewTemplateManager embedded ".claude")) in *.
  destruct (walk_entries Engine.walkFn (map path_of L) (NewEngine embedded cfg, o))
    as [r1 [e1 o1]] eqn:E.
  intros Hres. assert (o1 = o') as ->.
  { destruct r1; [by simplify_eq|]. revert Hres. cbn [fst].
    case_bool_decide; by intros ?; simplify_eq. }
  destruct (walk_entries_footprint T HT L [] (NewEngine embedded cfg) o r1 e1 o' m)
    with (k' := k') as [?|?]; try done.
  - unfold NewEngine. by rewrite Hdry.
  - intros k0 d0. by apply template_entries_keys.
  - apply template_entries_ancestors_first.
  - by intros ? ?%elem_of_nil.
Qed.

Lemma Run_changes_only_the_destinations_witness :
  let r := Engine.Run (NewEngine Examples.assets (Examples.cfg false),
                       Examples.empty_target) in
  os.node_at r.2.2 ["t"; "notes.txt"] = None.
Proof.
  intros r.
  destruct (Run_changes_only_the_destinations Examples.assets (Examples.cfg false) ["t"]
              Examples.empty_target r.2.2 mode_0755 r.1 r.2.1) as [_ H].
  - reflexivity.
  - by repeat constructor.
  - reflexivity.
  - intros k [n Hn]. destruct k as [|x k]; [by eexists|].
    simpl in Hn. unfold Examples.empty_target, Examples.host in Hn. simpl in Hn.
    apply lookup_singleton_Some in Hn as [<- _]. by eexists.
  - reflexivity.
  - vm_compute. reflexivity.
  - destruct (os.node_at r.2.2 ["t"; "notes.txt"]) as [n|] eqn:En; [|reflexivity].
    destruct (H ["t"; "notes.txt"]) as [_ [Hc|(k & d & _ & Hc)]].
    + rewrite En. discriminate.
    + discriminate Hc.
    + unfold destination in Hc. cbn in Hc. injection Hc as Hc. discriminate Hc.
Defined.

(** ** The ports *)

Lemma mkdir_all_error rk perm : ∀ o err o',
  os.mkdir_all rk perm o = (Some err, o') → o' = o.
Proof.
  induction rk as [|x rp IH]; intros o err o' H.
  - cbn in H. done.
  - cbn [os.mkdir_all] in H.
    destruct (os.node_at o (rev (x :: rp))) as [[m c|m]|] eqn:En; [by simplify_eq|done|].
    destruct (os.mkdir_all rp perm o) as [[e1|] o1] eqn:E1.
    { simplify_eq. by eapply IH. }
    apply mkdir_all_spec in E1 as ([_ Hg] & _ & Hdir & _).
    destruct (Hdir eq_refl) as [m Hm].
    assert (os.node_at o1 (rev (x :: rp)) = None) as Hn1.
    { destruct (Hg (rev (x :: rp))) as [->|[Hp _]]; [done|].
      apply prefix_length in Hp. cbn [rev] in Hp. rewrite length_app in Hp.
      cbn in Hp. lia. }
    rewrite (mkdir_at_ok (rev (x :: rp)) perm o1 m) in H; [done|done|].
    cbn [rev]. by rewrite removelast_last.
Qed.

Lemma OS_CreateDir_error p perm o err o' :
  OSFileSystem.CreateDir p perm o = (Some err, o') →
  o' = o ∧ ∃ q m d, q `prefix_of` os.resolve o p ∧ os.node_at o q = Some (os.File m d).
Proof.
  rewrite OS_CreateDir_cases.
  destruct (os.node_at o (os.resolve o p)) as [[m c|m]|] eqn:En.
  - intros [= _ <-]. split; [done|]. by exists (os.resolve o p), m, c.
  - done.
  - intros H. split; [by eapply mkdir_all_error|].
    apply mkdir_all_spec in H as (_ & _ & _ & Hfail).
    rewrite rev_involutive in Hfail. by apply Hfail.
Qed.

Lemma OS_CreateFile_error K content perm o err o' :
  valid_names K →
  OSFileSystem.CreateFile (os.key_path K) content perm o = (Some err, o') →
  o' = o ∧
  ((∃ m, os.node_at o K = Some (os.Dir m)) ∨
   ∃ q m d, q `prefix_of` removelast K ∧ os.node_at o q = Some (os.File m d)).
Proof.
  intros HK. rewrite OS_CreateFile_cases, resolve_key_path by done.
  destruct (os.node_at o K) as [[m c|m]|] eqn:En.
  - done.
  - intros [= _ <-]. split; [done|]. left. by exists m.
  - assert (K ≠ []) as Hne by by eapply node_at_None_ne.
    rewrite Dir_key_path by done.
    pose proof (valid_names_removelast _ HK) as HR.
    destruct (OSFileSystem.CreateDir _ mode_0755 o) as [[e1|] o1] eqn:E1.
    + intros [= _ <-].
      apply OS_CreateDir_error in E1 as [Ho Hq]. split; [done|]. right.
      by rewrite resolve_key_path in Hq.
    + pose proof (OS_CreateDir_spec _ _ _ _ _ E1) as ([Hwd Hg] & _ & Hdir & _).
      rewrite resolve_key_path in Hg, Hdir by done.
      destruct (Hdir eq_refl) as [m Hm].
      assert (os.node_at o1 K = None) as Hn1.
      { destruct (Hg K) as [->|[Hp _]]; [done|].
        by apply not_prefix_removelast in Hp. }
      unfold os.WriteFile. rewrite resolve_key_path by done.
      by rewrite (write_at_new "open" K content perm o1 m).
Qed.

(** X15. The dry-run port, whatever port it wraps: it answers
    [Exists] and [Stat] as the host does; [CreateDir] fails only on a
    path that is not a directory, [CreateFile] only on a directory, and
    both return [nil] where nothing exists; neither changes the
    host. *)
Theorem dry_run_port_asks_and_never_acts (wrapped : FileSystem) (p : string)
    (perm : FileMode) (content : bytes) (o : OS) :
  FileSystem.Exists (DryRunFileSystem wrapped) p o = OSFileSystem.Exists p o ∧
  FileSystem.Stat (DryRunFileSystem wrapped) p o = os.Stat o p ∧
  FileSystem.CreateDir (DryRunFileSystem wrapped) p perm o =
    (match os.Stat o p with
     | inr (os.File _ _) => Some (Errorf1 "path exists but is not a directory: %s" p)
     | _ => None
     end, o) ∧
  FileSystem.CreateFile (DryRunFileSystem wrapped) p content perm o =
    (match os.Stat o p with
     | inr (os.Dir _) => Some (Errorf1 "path exists but is a directory: %s" p)
     | _ => None
     end, o).
Proof.
  split; [apply port_Exists|]. split; [apply port_Stat|].
  unfold FileSystem.CreateDir, FileSystem.CreateFile.
  rewrite !port_Exists, !port_Stat. unfold OSFileSystem.Exists.
  by destruct (os.Stat o p) as [err|[m c|m]].
Qed.

(** X16. A [CreateDir] of the host port that fails has changed
    nothing, and it fails because a regular file stands at the path or
    above it. *)
Theorem host_CreateDir_failure_changes_nothing (p : string) (perm : FileMode)
    (o o' : OS) (err : error) :
  OSFileSystem.CreateDir p perm o = (Some err, o') →
  o' = o ∧ ∃ q m d, q `prefix_of` os.resolve o p ∧ os.node_at o q = Some (os.File m d).
Proof. apply OS_CreateDir_error. Qed.

Lemma host_CreateDir_failure_changes_nothing_witness :
  (OSFileSystem.CreateDir "/t/.claude/commands/sub" mode_0755 Examples.commands_is_file).2
  = Examples.commands_is_file.
Proof.
  destruct (OSFileSystem.CreateDir "/t/.claude/commands/sub" mode_0755
              Examples.commands_is_file) as [r o'] eqn:E.
  assert (r = Some (PathError "mkdir" "/t/.claude/commands" ENOTDIR)) as ->.
  { apply (f_equal fst) in E. vm_compute in E. by subst r. }
  by destruct (host_CreateDir_failure_changes_nothing _ _ _ _ _ E) as [-> _].
Defined.

(** X17. A [CreateFile] of the host port that fails has changed
    nothing, and it fails because the path is a directory or because a
    regular file stands above it. *)
Theorem host_CreateFile_failure_changes_nothing (K : list string) (content : bytes)
    (perm : FileMode) (o o' : OS) (err : error) :
  valid_names K →
  OSFileSystem.CreateFile (os.key_path K) content perm o = (Some err, o') →
  o' = o ∧
  ((∃ m, os.node_at o K = Some (os.Dir m)) ∨
   ∃ q m d, q `prefix_of` removelast K ∧ os.node_at o q = Some (os.File m d)).
Proof. apply OS_CreateFile_error. Qed.

Lemma host_CreateFile_failure_changes_nothing_witness :
  (OSFileSystem.CreateFile (os.key_path ["t"; ".claude"; "commands"; "ask.md"])
     (Examples.b "hello") mode_0644 Examples.commands_is_file).2
  = Examples.commands_is_file.
Proof.
  destruct (OSFileSystem.CreateFile (os.key_path ["t"; ".claude"; "commands"; "ask.md"])
              (Examples.b "hello") mode_0644 Examples.commands_is_file) as [r o'] eqn:E.
  assert (is_Some r) as [err ->].
  { apply (f_equal fst) in E. vm_compute in E. subst r. by eexists. }
  destruct (host_CreateFile_failure_changes_nothing
              ["t"; ".claude"; "commands"; "ask.md"] _ _ _ _ _
              ltac:(by repeat constructor) E) as [-> _].
  reflexivity.
Defined.

(** X18. On a well-formed host [CreateDir] of the host port returns
    [nil] exactly when no regular file stands at the path or above it;
    then the path and everything above it are directories, the new
    nodes are directories with the mode asked for, at the path or above
    it, and the host is still well formed. *)
Theorem host_CreateDir_succeeds_iff_clear (o : OS) (p : string) (perm : FileMode) :
  wf_os o →
  let r := OSFileSystem.CreateDir p perm o in
  (r.1 = None ↔ clear_above o (os.resolve o p)) ∧
  (r.1 = None →
   wf_os r.2 ∧
   (∀ q, q `prefix_of` os.resolve o p → ∃ m, os.node_at r.2 q = Some (os.Dir m)) ∧
   (∀ k n, os.node_at r.2 k = Some n →
           os.node_at o k = Some n ∨
           (n = os.Dir perm ∧ k `prefix_of` os.resolve o p))).
Proof.
  intros Hwf r.
  destruct (OSFileSystem.CreateDir p perm o) as [res o'] eqn:E. subst r. cbn [fst snd].
  pose proof (OS_CreateDir_spec _ _ _ _ _ E) as (Hg & Hnew & Hdir & Hwf').
  assert (res = None → ∀ q, q `prefix_of` os.resolve o p →
            ∃ m, os.node_at o' q = Some (os.Dir m)) as Hall.
  { intros Hres q Hq. destruct (Hdir Hres) as [m Hm].
    destruct (decide (q = os.resolve o p)) as [->|Hne]; [eauto|].
    eapply wf_os_prefix; [by apply Hwf'| |done..]. by rewrite Hm. }
  split; [split|].
  - intros Hres q m c Hq Hf.
    destruct (Hall Hres q Hq) as [m' Hm'].
    apply grows_within_extends in Hg as [_ Hext]. apply Hext in Hf. congruence.
  - intros Hclear. destruct res as [err|]; [|done].
    apply OS_CreateDir_error in E as [_ (q & m & d & Hq & Hf)].
    by destruct (Hclear q m d).
  - intros Hres. split; [by apply Hwf'|]. split; [by apply Hall|].
    intros k n Hn. destruct (Hnew k n Hn) as [?| ->]; [by left|].
    destruct Hg as [_ Hg]. destruct (Hg k) as [Heq|[Hp _]].
    + left. by rewrite <- Heq.
    + by right.
Qed.

Lemma host_CreateDir_succeeds_iff_clear_witness :
  (OSFileSystem.CreateDir "/t/.claude/commands" mode_0755 Examples.empty_target).1 = None.
Proof.
  apply (host_CreateDir_succeeds_iff_clear Examples.empty_target "/t/.claude/commands"
           mode_0755).
  - intros k [n Hn]. destruct k as [|x k]; [by eexists|].
    simpl in Hn. unfold Examples.empty_target, Examples.host in Hn. simpl in Hn.
    apply lookup_singleton_Some in Hn as [<- _]. by eexists.
  - intros q m d Hq Hf. destruct q as [|x q]; [done|].
    simpl in Hf. apply lookup_singleton_Some in Hf as [_ ?]. done.
Defined.

(** X19. The creations of the host port are idempotent: after a
    [CreateDir] that returned [nil], a second one on the same path
    returns [nil] and changes nothing, whatever mode it asks for; after
    a [CreateFile] that returned [nil], a second one returns [nil] and
    changes nothing, whatever content and mode it brings. *)
Theorem host_port_creation_is_idempotent (o o1 : OS) (p : string) (K : list string)
    (perm perm' : FileMode) (content content' : bytes) :
  valid_names K →
  (OSFileSystem.CreateDir p perm o = (None, o1) →
   OSFileSystem.CreateDir p perm' o1 = (None, o1)) ∧
  (OSFileSystem.CreateFile (os.key_path K) content perm o = (None, o1) →
   OSFileSystem.CreateFile (os.key_path K) content' perm' o1 = (None, o1)).
Proof.
  intros HK. split.
  - intros E. apply OS_CreateDir_spec in E as ([Hwd _] & _ & Hdir & _).
    destruct (Hdir eq_refl) as [m Hm].
    by rewrite OS_CreateDir_cases, (resolve_wd o o1), Hm.
  - intros E. rewrite OS_CreateFile_cases, resolve_key_path by done.
    destruct (os.node_at o K) as [[m c|m]|] eqn:En.
    + rewrite OS_CreateFile_cases, resolve_key_path, En in E by done.
      injection E as <-. by rewrite En.
    + by rewrite OS_CreateFile_cases, resolve_key_path, En in E by done.
    + apply OS_CreateFile_key in E as (_ & _ & Hok & _); [|done..].
      by rewrite Hok.
Qed.

Lemma host_port_creation_is_idempotent_witness :
  let K := ["t"; ".claude"; "settings.json"] in
  let o1 := (OSFileSystem.CreateFile (os.key_path K) (Examples.b "{}") mode_0644
               Examples.empty_target).2 in
  os.node_at o1 K = Some (os.File mode_0644 (Examples.b "{}")) ∧
  OSFileSystem.CreateFile (os.key_path K) (Examples.b "other") mode_0755 o1 = (None, o1).
Proof.
  intros K o1. split; [vm_compute; reflexivity|].
  apply (proj2 (host_port_creation_is_idempotent Examples.empty_target o1 "/t" K
                  mode_0644 mode_0755 (Examples.b "{}") (Examples.b "other")
                  ltac:(by repeat constructor))).
  vm_compute. reflexivity.
Defined.

(** ** The validation of the configuration and [main] *)

Lemma validateConfig_table (c : Config) (o : OS) :
  path.IsAbs (os.wd o) = true →
  let T := os.resolve o (TargetDir c) in
  let probe := T ++ [".cc-init-test"] in
  let c' := set_TargetDir c (os.key_path T) in
  validateConfig c o =
  match os.node_at o T with
  | None => (Some (Errorf1 "target directory does not exist: %s" (os.key_path T)), c', o)
  | Some (os.File _ _) =>
      (Some (Errorf1 "target path is not a directory: %s" (os.key_path T)), c', o)
  | Some (os.Dir _) =>
      if DryRun c then (None, c', o)
      else
        match os.node_at o probe with
        | Some (os.Dir _) =>
            (Some (ErrorfW "no write permission in target directory: %w" []
                     (PathError "open" (os.key_path probe) EISDIR)), c', o)
        | _ => (None, c', os.set_nodes o (delete probe (os.nodes o)))
        end
  end.
Proof.
  intros Hwd T probe c'.
  assert (valid_names T) as HvT by apply resolve_valid.
  assert (valid_names probe) as Hvp.
  { apply Forall_app. split; [done|]. by repeat constructor. }
  assert (probe ≠ []) as Hne by (unfold probe; by destruct T).
  assert (removelast probe = T) as Hrl by apply removelast_last.
  unfold validateConfig. rewrite Abs_key_path by done. fold T. fold c'.
  cbn [TargetDir set_TargetDir DryRun c'].
  rewrite Stat_node, resolve_key_path by done.
  destruct (os.node_at o T) as [[m d|m]|] eqn:En; [done| |done].
  cbn [os.IsDir negb]. destruct (DryRun c); [done|]. cbn [negb].
  replace (filepath.Join [os.key_path T; ".cc-init-test"]) with (os.key_path probe);
    last first.
  { symmetry. apply (Join_key_path T [".cc-init-test"]); [done| |done].
    by repeat constructor. }
  unfold os.Create, os.write_at. rewrite resolve_key_path by done.
  assert (∀ mode,
            os.Remove (os.set_nodes o (<[probe := os.File mode []]> (os.nodes o)))
              (os.key_path probe)
            = (None, os.set_nodes o (delete probe (os.nodes o)))) as HR.
  { intros mode. rewrite (Remove_file _ probe mode []); [|done|done|].
    - unfold os.set_nodes. simpl. by rewrite delete_insert_eq.
    - rewrite node_at_insert by done. by rewrite decide_True. }
  destruct (os.node_at o probe) as [[fm fd|dm]|] eqn:Ep.
  - by rewrite HR.
  - done.
  - rewrite Hrl, En. by rewrite HR.
Qed.



(** X21. A validation that fails, and a validation for a dry run,
    leave the host as it is; whatever the result, the validation keeps
    the working directory and every path but the probe path. *)
Theorem validateConfig_touches_only_the_probe (c c' : Config) (o o' : OS)
    (r : option error) :
  path.IsAbs (os.wd o) = true →
  validateConfig c o = (r, c', o') →
  (is_Some r ∨ DryRun c = true → o' = o) ∧
  os.wd o' = os.wd o ∧
  ∀ k, k ≠ os.resolve o (TargetDir c) ++ [".cc-init-test"] →
       os.node_at o' k = os.node_at o k.
Proof.
  intros Hwd. rewrite validateConfig_table by done. cbv zeta.
  assert (os.resolve o (TargetDir c) ++ [".cc-init-test"] ≠ []) as Hne
    by by destruct (os.resolve o (TargetDir c)).
  destruct (os.node_at o _) as [[m d|m]|]; [by intros [= <- <- <-]| |by intros [= <- <- <-]].
  destruct (DryRun c); [by intros [= <- <- <-]|].
  destruct (os.node_at o _) as [[fm fd|dm]|]; intros [= <- <- <-];
    (split; [by intros [[? [=]]|[=]]|]); (split; [done|]);
    intros k Hk; try done; rewrite node_at_delete by done; by rewrite decide_False.
Qed.

Lemma validateConfig_touches_only_the_probe_witness :
  path.IsAbs (os.wd Examples.with_probe) = true ∧
  os.node_at (validateConfig (Examples.cfg false) Examples.with_probe).2 ["t"]
  = Some (os.Dir mode_0755).
Proof.
  split; [reflexivity|].
  destruct (validateConfig (Examples.cfg false) Examples.with_probe)
    as [[r c'] o'] eqn:E. cbn [snd].
  destruct (validateConfig_touches_only_the_probe (Examples.cfg false) c'
              Examples.with_probe o' r) as (_ & _ & Hk); [reflexivity|exact E|].
  rewrite Hk; [reflexivity|discriminate].
Defined.

(** X22. [main] leaves the host as it is when it is asked for the
    version or the help, and in a dry run, whatever the tree, the
    target and the state of the host. *)
Theorem main_without_effect (embedded : embed.FS) (c : Config) (o : OS) :
  ShowVersion c = true ∨ ShowHelp c = true ∨ DryRun c = true →
  (main embedded c o).2 = o.
Proof.
  intros H. unfold main.
  destruct (ShowVersion c); [done|]. destruct (ShowHelp c); [done|].
  destruct H as [?|[?|Hdry]]; [done..|].
  assert (∃ r c', validateConfig c o = (r, c', o) ∧ DryRun c' = true)
    as (r & c' & -> & Hdry').
  { unfold validateConfig. cbn [TargetDir set_TargetDir DryRun]. rewrite Hdry.
    destruct (os.Stat o _) as [[op pth []| | | | | |]|info]; try by eexists _, _.
    destruct (os.IsDir info); by eexists _, _. }
  destruct r as [err|]; [done|].
  pose proof (Run_dry_same (NewEngine embedded c') o OSFileSystem) as Hsame.
  destruct (Engine.Run _) as [[err|] [e2 o2]]; cbn [snd] in *;
    apply Hsame; unfold NewEngine; by rewrite Hdry'.
Qed.

Lemma main_without_effect_witness :
  main Examples.assets (Examples.cfg true) Examples.empty_target
  = (0, Examples.empty_target).
Proof.
  pose proof (main_without_effect Examples.assets (Examples.cfg true)
                Examples.empty_target (or_intror (or_intror eq_refl))) as H.
  destruct (main _ _ _) as [code o'] eqn:E. cbn [snd] in H. subst o'.
  f_equal. apply (f_equal fst) in E. vm_compute in E. by subst code.
Defined.

(** X23. [main] removes or alters no node of the host but a regular
    file at the probe path of the validation: every other node that
    exists before is there after, with its kind, mode and content,
    whatever the exit status. *)
Theorem main_keeps_every_node_but_the_probe (embedded : embed.FS) (c : Config)
    (o : OS) (k : list string) (n : os.Node) :
  path.IsAbs (os.wd o) = true →
  os.node_at o k = Some n →
  k ≠ os.resolve o (TargetDir c) ++ [".cc-init-test"] →
  os.node_at (main embedded c o).2 k = Some n.
Proof.
  intros Hwd Hn Hk. unfold main.
  destruct (ShowVersion c); [done|]. destruct (ShowHelp c); [done|].
  destruct (validateConfig c o) as [[r c'] o1] eqn:E.
  assert (os.node_at o1 k = Some n) as Hn1.
  { revert E. rewrite validateConfig_table by done. cbv zeta.
    assert (os.resolve o (TargetDir c) ++ [".cc-init-test"] ≠ []) as Hne
      by by destruct (os.resolve o (TargetDir c)).
    destruct (os.node_at o (os.resolve o (TargetDir c))) as [[m d|m]|];
      [by intros [= <- <- <-]| |by intros [= <- <- <-]].
    destruct (DryRun c); [by intros [= <- <- <-]|].
    destruct (os.node_at o (_ ++ _)) as [[fm fd|dm]|]; intros [= <- <- <-];
      try done; rewrite node_at_delete by done; by rewrite decide_False. }
  destruct r as [err|]; [done|].
  destruct (Engine.Run _) as [r2 [e2 o2]] eqn:E2.
  apply Run_extends in E2 as [_ [_ Hext]].
  destruct r2; cbn [snd]; by apply Hext.
Qed.

Lemma main_keeps_every_node_but_the_probe_witness :
  os.node_at (main Examples.assets (Examples.cfg false) Examples.with_settings).2
    ["t"; ".claude"; "settings.json"]
  = Some (os.File mode_0644 (Examples.b "mine")).
Proof.
  apply (main_keeps_every_node_but_the_probe Examples.assets (Examples.cfg false)
           Examples.with_settings); [reflexivity|reflexivity|discriminate].
Defined.

Lemma ReadFile_file_entry embedded k d :
  wf_fs embedded = true →
  (k, d) ∈ template_entries (NewTemplateManager embedded ".claude") →
  IsDir d = false →
  ∃ data, TemplateManager.ReadFile (NewTemplateManager embedded ".claude")
            (strings.JoinSlash k) = inr data.
Proof.
  intros Hwf Hin Hd.
  destruct (template_entry_node _ _ _ Hwf Hin) as (a & Ha & <-).
  unfold TemplateManager.ReadFile, embed.ReadFile.
  cbn [tm_fs tm_prefix NewTemplateManager]. rewrite Ha.
  destruct a; [by eexists|done].
Qed.

Section conflicts.
Variable T : list string.
Hypothesis HT : valid_names T.

(** A walk through the dry-run port returns [nil] exactly when no
    entry meets a node of the other kind. *)
Lemma walk_dry_result L : ∀ e o w,
  TargetDir (config e) = os.key_path T → fs e = DryRunFileSystem w →
  (∀ k d, (k, d) ∈ L → k ≠ [] ∧ valid_names k) →
  (∀ k d, (k, d) ∈ L → IsDir d = false →
          ∃ data, TemplateManager.ReadFile (tmpl e) (strings.JoinSlash k) = inr data) →
  (walk_entries Engine.walkFn (map path_of L) (e, o)).1 = None ↔
  ∀ ke, ke ∈ L → conflicts T o ke = false.
Proof.
  induction L as [|[k d] L IH]; intros e o w He Hfs Hkeys Hread.
  { split; [by intros _ ke ?%elem_of_nil|done]. }
  destruct (Hkeys k d) as [Hne Hk]; [by left|].
  cbn [map path_of walk_entries fst snd].
  assert (∀ e1, same_setup e e1 →
            ((walk_entries Engine.walkFn (map path_of L) (e1, o)).1 = None ↔
             ∀ ke, ke ∈ L → conflicts T o ke = false)) as Hrest.
  { intros e1 (Hc & Hf & Htm & _)%same_setup_fields.
    apply (IH e1 o w); [by rewrite Hc|by rewrite Hf| |].
    - intros k' d' ?. apply (Hkeys k' d'). by right.
    - intros k' d' ? ?. rewrite Htm. apply (Hread k' d'); [by right|done]. }
  assert (∀ P : Prop, conflicts T o (k, d) = false →
            (P ↔ ∀ ke, ke ∈ L → conflicts T o ke = false) →
            (P ↔ ∀ ke, ke ∈ (k, d) :: L → conflicts T o ke = false)) as Hcons.
  { intros P Hhead [H1 H2]. split.
    - intros HP ke [->|?]%elem_of_cons; [done|by apply H1].
    - intros Hall. apply H2. intros ke ?. apply Hall. by right. }
  assert (conflicts T o (k, d) = true →
          ¬ ∀ ke, ke ∈ (k, d) :: L → conflicts T o ke = false) as Hbad.
  { intros Hc Hall. rewrite Hall in Hc by by left. done. }
  unfold conflicts in Hcons, Hbad. cbn [fst snd] in Hcons, Hbad.
  destruct (IsDir d) eqn:Hd.
  - rewrite (walkFn_dir_step T HT) by done.
    destruct (os.node_at o (destination T k)) as [[m c|m]|] eqn:En.
    + cbv zeta. cbn [fst]. split; [done|]. intros Hall. by destruct Hbad.
    + apply Hcons; [done|]. apply Hrest. by unfold same_setup.
    + rewrite Hfs, DryRun_CreateDir_missing by (by rewrite resolve_key_path
        by by apply destination_valid).
      apply Hcons; [done|]. apply Hrest. by unfold same_setup.
  - rewrite (walkFn_file_step T HT) by done.
    destruct (os.node_at o (destination T k)) as [[m c|m]|] eqn:En.
    + apply Hcons; [done|]. apply Hrest. by unfold same_setup.
    + cbv zeta. cbn [fst]. split; [done|]. intros Hall. by destruct Hbad.
    + destruct (Hread k d) as [data ->]; [by left|done|].
      rewrite Hfs, DryRun_CreateFile_missing by (by rewrite resolve_key_path
        by by apply destination_valid).
      apply Hcons; [done|]. apply Hrest. by unfold same_setup.
Qed.

End conflicts.

(** X24. When no regular file stands at the [.claude] directory of
    the target or above it, a run returns [nil] exactly when there are
    templates and no entry meets a node of the other kind at its
    destination: a regular file where a directory entry goes, or a
    directory where a file entry goes.  This holds on the host port and
    on the dry-run port. *)
Theorem Run_succeeds_iff_no_conflict (embedded : embed.FS) (cfg : Config)
    (T : list string) (o : OS) :
  wf_fs embedded = true → valid_names T → TargetDir cfg = os.key_path T →
  clear_above o (T ++ [".claude"]) →
  (Engine.Run (NewEngine embedded cfg, o)).1 = None ↔
  TemplateManager.HasTemplates (NewTemplateManager embedded ".claude") = true ∧
  ∀ ke, ke ∈ template_entries (NewTemplateManager embedded ".claude") →
        conflicts T o ke = false.
Proof.
  intros Hwf HT Htd Hclear.
  set (dry := {| TargetDir := TargetDir cfg; DryRun := true; Verbose := Verbose cfg;
                 NoColor := NoColor cfg; ShowHelp := ShowHelp cfg;
                 ShowVersion := ShowVersion cfg |}).
  set (L := template_entries (NewTemplateManager embedded ".claude")).
  assert (∀ k d, (k, d) ∈ L → k ≠ [] ∧ valid_names k) as Hkeys
    by (intros k d; by apply template_entries_keys).
  assert ((walk_entries Engine.walkFn (map path_of L) (NewEngine embedded dry, o)).1 = None ↔
          ∀ ke, ke ∈ L → conflicts T o ke = false) as Hdry.
  { apply (walk_dry_result T HT L _ o OSFileSystem); [done|done|done|].
    intros k d. by apply ReadFile_file_entry. }
  assert ((walk_entries Engine.walkFn (map path_of L) (NewEngine embedded cfg, o)).1
          = (walk_entries Engine.walkFn (map path_of L) (NewEngine embedded dry, o)).1)
    as Hsame.
  { destruct (DryRun cfg) eqn:Hd.
    { clear Hdry. unfold dry in *. destruct cfg; cbn in *. by subst. }
    destruct (walk_entries Engine.walkFn (map path_of L) (NewEngine embedded cfg, o))
      as [r [e_r o_r]] eqn:E.
    destruct (dry_mirrors_real_all T HT L [] (NewEngine embedded cfg) o
                (NewEngine embedded dry) o r e_r o_r OSFileSystem)
      as (e_d & -> & _); try done.
    - unfold NewEngine. by rewrite Hd.
    - by apply template_entries_no_back_prefix.
    - apply template_entries_ancestors_first.
    - by intros k' ?%elem_of_nil. }
  rewrite Run_walk by done. fold L.
  destruct (TemplateManager.HasTemplates _); cbn [negb];
    [|split; [done|by intros [? _]]].
  rewrite <- Hdry, <- Hsame.
  destruct (walk_entries Engine.walkFn (map path_of L) (NewEngine embedded cfg, o))
    as [[err|] [e1 o1]] eqn:E; cbn [fst].
  { split; [done|by intros [_ ?]]. }
  split; [done|]. intros _.
  case_bool_decide as Herr; [|done]. exfalso.
  pose proof E as E'.
  apply (walk_entries_outcome Engine.walkFn
           (λ r s s', Errors (stats s'.1) =
                      Errors (stats s.1) ++ match r with Some err => [err] | None => [] end))
    in E'.
  - cbn in E'. rewrite E' in Herr. cbn in Herr. lia.
  - intros s. by rewrite app_nil_r.
  - intros r0 s1 s2 s3 H1 H2. rewrite H2, H1. by rewrite app_nil_r.
  - intros p d [e0 o0] r0 [e2 o2]. apply walkFn_errors.
Qed.

Lemma Run_succeeds_iff_no_conflict_witness :
  wf_fs Examples.assets = true ∧ valid_names ["t"] ∧
  clear_above Examples.with_commands (["t"] ++ [".claude"]) ∧
  (Engine.Run (NewEngine Examples.assets (Examples.cfg false),
               Examples.with_commands)).1 = None ∧
  conflicts ["t"] Examples.with_commands
    (["commands"], {| Name := "commands"; IsDir := true |}) = false.
Proof.
  assert (clear_above Examples.with_commands (["t"] ++ [".claude"])) as Hclear.
  { intros p m c [s E] Hf.
    destruct p as [|x [|y [|z p]]]; simplify_eq; vm_compute in Hf; discriminate. }
  split; [reflexivity|]. split; [by repeat constructor|]. split; [exact Hclear|].
  split; [vm_compute; reflexivity|].
  apply (proj1 (Run_succeeds_iff_no_conflict Examples.assets (Examples.cfg false) ["t"]
                  Examples.with_commands eq_refl ltac:(by repeat constructor) eq_refl
                  Hclear)).
  - vm_compute. reflexivity.
  - vm_compute. apply list_elem_of_here.
Defined.

(** ** The logger *)

Lemma log_call_app l c out : log_call l c out = out ++ log_call l c [].
Proof.
  destruct c; cbn [log_call];
    unfold Logger.Summary, Logger.FileCreated, Logger.FileSkipped, Logger.DirCreated,
      Logger.DirSkipped,
      Logger.Success, Logger.Info, Logger.Warning, Logger.Error, Logger.Debug,
      Logger.Verbose, Fprintf_line;
    cbv zeta; repeat case_decide; repeat destruct (negb _);
    cbn [app]; rewrite ?app_nil_r, <- ?app_assoc; done.
Qed.

Lemma log_calls_cons l c cs :
  log_calls l (c :: cs) [] = log_call l c [] ++ log_calls l cs [].
Proof.
  unfold log_calls. cbn [fold_left]. generalize (log_call l c []). clear c.
  induction cs as [|c cs IH]; intros out; cbn [fold_left].
  - by rewrite app_nil_r.
  - rewrite (IH (log_call l c out)), (IH (log_call l c [])), log_call_app.
    by rewrite app_assoc.
Qed.

Lemma has_escape_app a b : has_escape (a +:+ b) = has_escape a || has_escape b.
Proof.
  induction a as [|c a IH]; [done|].
  rewrite append_cons. cbn [has_escape]. by rewrite IH, orb_assoc.
Qed.

Lemma pretty_N_go_no_escape x : ∀ s,
  has_escape s = false → has_escape (pretty_N_go x s) = false.
Proof.
  induction (N.lt_wf_0 x) as [x _ IH]; intros s Hs.
  assert (x = 0 ∨ 0 < x)%N as [->|?] by lia.
  - by rewrite pretty_N_go_0.
  - rewrite pretty_N_go_step by done. apply IH.
    { by apply N.div_lt. }
    cbn [has_escape]. rewrite Hs. unfold pretty_N_char. by repeat case_match.
Qed.

Lemma pretty_Z_no_escape (z : Z) : has_escape (pretty z) = false.
Proof.
  assert (∀ p : positive, has_escape (pretty p) = false) as Hp.
  { intros p. unfold pretty, pretty_positive, pretty, pretty_N.
    case_decide; [done|]. by apply pretty_N_go_no_escape. }
  destruct z as [|p|p]; [done|apply Hp|].
  unfold pretty, pretty_Z. rewrite has_escape_app. by rewrite Hp.
Qed.

Lemma pluralize_item_no_escape (count : Z) : has_escape (pluralize "item" count) = false.
Proof. unfold pluralize. by repeat case_decide. Qed.

(** X25. A logger made without colours writes no escape character,
    whatever methods are called and in whatever order, as long as the
    messages and paths it is given hold none: every method that marks
    its line takes the mark from [colorize]. *)
Theorem no_color_logger_writes_no_escape (l : Logger) (cs : list LogCall) :
  noColor l = true →
  Forall (λ c, has_escape (call_text c) = false) cs →
  Forall (λ ev, has_escape ev.2 = false) (log_calls l cs []).
Proof.
  intros Hnc Hcs. induction Hcs as [|c cs Hc _ IH]; [constructor|].
  rewrite log_calls_cons. apply Forall_app. split; [|done]. clear IH.
  destruct c; cbn [log_call call_text] in *;
    unfold Logger.Summary, Logger.FileCreated, Logger.FileSkipped, Logger.DirCreated,
      Logger.DirSkipped,
      Logger.Success, Logger.Info, Logger.Warning, Logger.Error, Logger.Debug,
      Logger.Verbose, Fprintf_line, Logger.colorize;
    rewrite ?Hnc; cbv zeta; repeat case_decide; repeat destruct (negb _);
    cbn [app]; repeat constructor; cbn [snd];
    rewrite ?has_escape_app, ?Hc, ?pretty_Z_no_escape, ?pluralize_item_no_escape; done.
Qed.

Lemma no_color_logger_writes_no_escape_witness :
  Forall (λ ev, has_escape ev.2 = false)
    (log_calls (NewLogger true true)
       [CallFileCreated ".claude/settings.json"; CallError "failed"; CallSummary 1 2] []).
Proof.
  apply (no_color_logger_writes_no_escape (NewLogger true true)); [reflexivity|].
  repeat constructor.
Defined.

(** X26. Where the writes of the logger go.  [Error] writes to the
    standard error stream, whatever writer the logger was made with,
    and every other method writes to the writer of the logger: a write
    to another writer is the line of an [Error] call, and every [Error]
    call has its line on the standard error stream. *)
Theorem Error_writes_to_stderr_only (l : Logger) (cs : list LogCall) :
  (∀ w text, (w, text) ∈ log_calls l cs [] →
     w = writer l ∨
     (w = Stderr ∧
      ∃ m, CallError m ∈ cs ∧
           text = Logger.colorize l ColorRed "✗" +:+ " " +:+ m +:+ newline)) ∧
  (∀ m, CallError m ∈ cs →
     (Stderr, Logger.colorize l ColorRed "✗" +:+ " " +:+ m +:+ newline)
     ∈ log_calls l cs []).
Proof.
  induction cs as [|c cs [IH1 IH2]].
  { split; [by intros w text ?%elem_of_nil|by intros m ?%elem_of_nil]. }
  rewrite log_calls_cons. split.
  - intros w text [Hin|Hin]%elem_of_app.
    + assert (w = writer l ∨
              ∃ m, c = CallError m ∧ w = Stderr ∧
                   text = Logger.colorize l ColorRed "✗" +:+ " " +:+ m +:+ newline)
        as [?|(m & -> & -> & ->)]; [|by left|right; split; [done|]; exists m; split; [by left|done]].
      revert Hin.
      destruct c; cbn [log_call];
        unfold Logger.Summary, Logger.FileCreated, Logger.FileSkipped, Logger.DirCreated,
          Logger.DirSkipped, Logger.Success, Logger.Info, Logger.Warning, Logger.Error,
          Logger.Debug, Logger.Verbose, Fprintf_line;
        cbv zeta; repeat case_decide; repeat destruct (negb _); cbn [app];
        rewrite ?elem_of_cons, ?elem_of_nil; intros Hin;
        repeat (destruct Hin as [Hin|Hin]); try done; simplify_eq; eauto 10.
    + destruct (IH1 w text Hin) as [?|(-> & m & ? & ->)]; [by left|].
      right. split; [done|]. exists m. split; [by right|done].
  - intros m [Heq|Hin]%elem_of_cons; apply elem_of_app.
    + subst c. left. cbn [log_call]. unfold Logger.Error, Fprintf_line. cbn [app].
      apply list_elem_of_here.
    + right. by apply IH2.
Qed.

Lemma Error_writes_to_stderr_only_witness :
  (Stderr, "✗ failed" +:+ newline)
  ∈ log_calls (NewLoggerWithWriter false true (OtherWriter 0))
      [CallInfo "started"; CallError "failed"] [].
Proof.
  apply (proj2 (Error_writes_to_stderr_only
                  (NewLoggerWithWriter false true (OtherWriter 0))
                  [CallInfo "started"; CallError "failed"]) "failed").
  apply list_elem_of_further, list_elem_of_here.
Defined.
